(** * FEB basketball clustering: the ETL transformation pipeline

    A shallow embedding of the transformation core of the repository
    (opponent resolution, cleaning, feature engineering, minutes-weighted
    aggregation and scaling) together with the properties its
    specification states about it.

    Numbers.  The Python code computes on IEEE doubles held in pandas
    columns.  The embedding idealises a double as an exact rational
    extended with the three special values the code distinguishes
    ([NaN], [+Inf], [-Inf]): there is no rounding, no overflow and no
    signed zero.  Every statement below is therefore a statement about
    the formulas and the guards of the code, exact where the code is
    exact up to rounding.

    Tables.  A pandas [DataFrame] is a list of column labels and a list
    of rows; a row carries the identifying columns as fields and its
    numeric cells as a dictionary, the way [pd.DataFrame(list_of_dicts)]
    builds it: a cell that is absent reads as [NaN].  A vectorised
    column expression is element-wise, so it is a map over the rows. *)

From Stdlib Require Import QArith Qcanon ZArith Lia.
From stdpp Require Import base numbers list strings gmap pretty sorting.

Local Open Scope Z_scope.
Local Open Scope string_scope.
Local Open Scope list_scope.

(** ** Extended numbers *)

Module Numeric.

Inductive fval : Type :=
| Fin (q : Qc)
| NaN
| PInf
| NInf.

#[global] Instance fval_eq_dec : EqDecision fval.
Proof. solve_decision. Defined.

(** The rational [n/d], for decimal constants such as [0.44]. *)
Definition qc (n d : Z) : Qc :=
  match d with
  | Zpos p => Q2Qc (n # p)
  | _ => Q2Qc 0
  end.

Definition of_Z (n : Z) : fval := Fin (Q2Qc (inject_Z n)).

Definition zero : fval := of_Z 0.

Definition is_nan (x : fval) : bool :=
  match x with NaN => true | _ => false end.

Definition is_inf (x : fval) : bool :=
  match x with PInf | NInf => true | _ => false end.

Definition is_finite (x : fval) : bool :=
  match x with Fin _ => true | _ => false end.

Definition qpos (a : Qc) : bool := bool_decide (Q2Qc 0 < a)%Qc.
Definition qneg (a : Qc) : bool := bool_decide (a < Q2Qc 0)%Qc.
Definition qzero (a : Qc) : bool := bool_decide (a = Q2Qc 0).

Definition fneg (x : fval) : fval :=
  match x with
  | Fin a => Fin (- a)%Qc
  | NaN => NaN
  | PInf => NInf
  | NInf => PInf
  end.

Definition fadd (x y : fval) : fval :=
  match x, y with
  | NaN, _ | _, NaN => NaN
  | Fin a, Fin b => Fin (a + b)%Qc
  | PInf, NInf | NInf, PInf => NaN
  | PInf, _ | _, PInf => PInf
  | NInf, _ | _, NInf => NInf
  end.

Definition fsub (x y : fval) : fval := fadd x (fneg y).

(** The sign of an infinite product or quotient. *)
Definition signed_inf (positive : bool) : fval :=
  if positive then PInf else NInf.

Definition inf_times (positive : bool) (a : Qc) : fval :=
  if qzero a then NaN
  else signed_inf (if qpos a then positive else negb positive).

Definition fmul (x y : fval) : fval :=
  match x, y with
  | NaN, _ | _, NaN => NaN
  | Fin a, Fin b => Fin (a * b)%Qc
  | Fin a, PInf | PInf, Fin a => inf_times true a
  | Fin a, NInf | NInf, Fin a => inf_times false a
  | PInf, PInf | NInf, NInf => PInf
  | PInf, NInf | NInf, PInf => NInf
  end.

(** Division as numpy performs it: a zero divisor gives an infinity of
    the sign of the dividend, and [0/0] gives [NaN]; nothing is raised. *)
Definition fdiv (x y : fval) : fval :=
  match x, y with
  | NaN, _ | _, NaN => NaN
  | Fin a, Fin b =>
      if qzero b then
        (if qzero a then NaN else signed_inf (qpos a))
      else Fin (a / b)%Qc
  | Fin _, (PInf | NInf) => zero
  | PInf, Fin b => signed_inf (negb (qneg b))
  | NInf, Fin b => signed_inf (qneg b)
  | (PInf | NInf), (PInf | NInf) => NaN
  end.

(** Comparisons are false as soon as one side is [NaN]. *)
Definition fgt (x y : fval) : bool :=
  match x, y with
  | NaN, _ | _, NaN => false
  | Fin a, Fin b => bool_decide (b < a)%Qc
  | PInf, (Fin _ | NInf) => true
  | Fin _, NInf => true
  | _, _ => false
  end.

(** [x >= y], and the two comparisons read from the other side. *)
Definition fge (x y : fval) : bool :=
  match x, y with
  | NaN, _ | _, NaN => false
  | Fin a, Fin b => bool_decide (b <= a)%Qc
  | PInf, _ => true
  | _, NInf => true
  | _, _ => false
  end.

Definition flt (x y : fval) : bool := fgt y x.
Definition fle (x y : fval) : bool := fge y x.

(** [Series.sum()] and [DataFrame.sum(axis=1)]: missing values are
    skipped ([skipna=True] is the default), an empty sum is 0.  Exact
    addition is associative, so the order of accumulation is not
    modelled. *)
Definition nansum (xs : list fval) : fval :=
  foldr fadd zero (filter (λ x, is_nan x = false) xs).

(** [mean] of a group: the mean of the values that are present, [NaN]
    when none is. *)
Definition nanmean (xs : list fval) : fval :=
  let present := filter (λ x, is_nan x = false) xs in
  match present with
  | [] => NaN
  | _ => fdiv (foldr fadd zero present) (of_Z (Z.of_nat (length present)))
  end.

End Numeric.

Export Numeric.

(** ** Exceptions *)

Inductive exn : Type :=
| KeyError (label : string)
| ValueError (message : string)
| IndexError
| NotFittedError.

Inductive result (A : Type) : Type :=
| Ok (a : A)
| Raise (e : exn).

Arguments Ok {A} a.
Arguments Raise {A} e.

#[global] Instance result_ret : MRet result := λ A a, Ok a.
#[global] Instance result_bind : MBind result := λ A B f m,
  match m with
  | Ok a => f a
  | Raise e => Raise e
  end.

#[global] Instance result_fmap : FMap result := λ A B f m,
  match m with
  | Ok a => Ok (f a)
  | Raise e => Raise e
  end.

#[global] Instance exn_eq_dec : EqDecision exn.
Proof. solve_decision. Defined.

#[global] Instance result_eq_dec {A} `{EqDecision A} : EqDecision (result A).
Proof. solve_decision. Defined.

Definition is_ok {A} (m : result A) : bool :=
  match m with Ok _ => true | Raise _ => false end.

(** ** Python's rendering of a list of labels

    An f-string writes a list through [repr]: each label between
    quotes (single ones, unless the label holds a single quote and no
    double one), with backslashes, the chosen quote and control
    characters escaped.  Labels are byte strings here; a byte above 127
    is copied as it is. *)

Module Python.

Import Stdlib.Strings.Ascii.

Definition double_quote : ascii := ascii_of_nat 34.

(** [ch in s] *)
Fixpoint contains (ch : ascii) (s : string) : bool :=
  match s with
  | EmptyString => false
  | String c rest => bool_decide (c = ch) || contains ch rest
  end.

Definition hex_digit (n : nat) : ascii :=
  default "0"%char (String.get n "0123456789abcdef").

Definition escape (quote ch : ascii) : string :=
  let n := nat_of_ascii ch in
  if bool_decide (ch = quote) || bool_decide (ch = "\"%char) then String "\"%char (String ch "")
  else if bool_decide (n = 9%nat) then "\t"
  else if bool_decide (n = 10%nat) then "\n"
  else if bool_decide (n = 13%nat) then "\r"
  else if bool_decide (n < 32)%nat || bool_decide (n = 127%nat) then
    "\x" +:+ String (hex_digit (n / 16)) (String (hex_digit (n mod 16)) "")
  else String ch "".

Fixpoint escape_all (quote : ascii) (s : string) : string :=
  match s with
  | EmptyString => EmptyString
  | String ch rest => escape quote ch +:+ escape_all quote rest
  end.

(** [repr(s)] *)
Definition repr (s : string) : string :=
  let quote :=
    if contains "'" s && negb (contains double_quote s)
    then double_quote else "'"%char in
  String quote (escape_all quote s +:+ String quote "").

(** [repr(labels)], which is also [str(labels)]. *)
Definition repr_list (labels : list string) : string :=
  "[" +:+ String.concat ", " (map repr labels) +:+ "]".

End Python.

(** ** pandas tables *)

Module Pandas.

(** One row of the player-game table (and of every table derived from
    it).  The four identifying columns are fields; every other column
    is a numeric cell. *)
Record Row : Type := mkRow {
  player_feb_id : Z;
  player_name : string;
  match_feb_id : Z;
  team_feb_id : Z;
  cells : gmap string fval
}.

Record DataFrame : Type := mkFrame {
  columns : list string;
  rows : list Row
}.

(** [row[c]]: a dictionary without the key reads as a missing value. *)
Definition cell (r : Row) (c : string) : fval :=
  default NaN (cells r !! c).

Definition set_cell (c : string) (v : fval) (r : Row) : Row :=
  mkRow (player_feb_id r) (player_name r) (match_feb_id r) (team_feb_id r)
        (<[c := v]> (cells r)).

Definition has_column (df : DataFrame) (c : string) : bool :=
  bool_decide (c ∈ columns df).

(** [df[c]] on the right of an assignment: [KeyError] for an unknown
    label. *)
Definition column (df : DataFrame) (c : string) : result (Row → fval) :=
  if has_column df c then Ok (λ r, cell r c) else Raise (KeyError c).

(** [df[labels]] with a list of labels: the first unknown one is
    reported. *)
Fixpoint check_columns (df : DataFrame) (labels : list string) : result unit :=
  match labels with
  | [] => Ok tt
  | c :: rest =>
      if has_column df c then check_columns df rest else Raise (KeyError c)
  end.

(** The labels after a column [c] is written: a new label goes last. *)
Definition add_label (c : string) (labels : list string) : list string :=
  if bool_decide (c ∈ labels) then labels else labels ++ [c].

(** [df[c] = series]: an existing column is overwritten in place, a
    new one is appended to the column labels. *)
Definition assign (c : string) (series : Row → fval) (df : DataFrame) : DataFrame :=
  mkFrame (add_label c (columns df))
          (map (λ r, set_cell c (series r) r) (rows df)).

(** [df[mask]] with a boolean mask computed row by row. *)
Definition select (mask : Row → bool) (df : DataFrame) : DataFrame :=
  mkFrame (columns df) (filter (λ r, mask r = true) (rows df)).

(** [np.where(cond, a, b)], element-wise: both branches are computed,
    one is kept. *)
Definition np_where (cond : bool) (a b : fval) : fval :=
  if cond then a else b.

(** [series.unique()]: the distinct values in order of first
    appearance. *)
Fixpoint unique (l : list Z) : list Z :=
  match l with
  | [] => []
  | x :: rest => x :: filter (λ y, y ≠ x) (unique rest)
  end.

(** The keys of [df.groupby(col)]: the distinct values in ascending
    order. *)
Definition group_keys (l : list Z) : list Z := merge_sort Z.le (unique l).


(** [df.columns]: the four identifying columns every row carries, and
    the numeric ones. *)
Definition identifying_columns : list string :=
  ["player_feb_id"; "player_name"; "match_feb_id"; "team_feb_id"].

Definition all_columns (df : DataFrame) : list string :=
  identifying_columns ++ columns df.

(** The value a row holds under any label of the table. *)
Inductive value : Type :=
| IntValue (z : Z)
| StrValue (s : string)
| NumValue (x : fval).

#[global] Instance value_eq_dec : EqDecision value.
Proof. solve_decision. Defined.

Definition get_value (r : Row) (c : string) : value :=
  if bool_decide (c = "player_feb_id") then IntValue (player_feb_id r)
  else if bool_decide (c = "player_name") then StrValue (player_name r)
  else if bool_decide (c = "match_feb_id") then IntValue (match_feb_id r)
  else if bool_decide (c = "team_feb_id") then IntValue (team_feb_id r)
  else NumValue (cell r c).

(** [series.clip(lower, upper)] on one cell: a missing value stays
    missing. *)
Definition clip (lower upper x : fval) : fval :=
  if flt x lower then lower else if fgt x upper then upper else x.

(** [df.dropna()]: the rows without a missing cell. *)
Definition dropna (df : DataFrame) : DataFrame :=
  select (λ r, forallb (λ c, negb (is_nan (cell r c))) (columns df)) df.

(** [df.fillna(value)]: the missing cells of every column are filled,
    the infinite ones are not touched. *)
Definition fillna_row (value : fval) (labels : list string) (r : Row) : Row :=
  foldl (λ acc c, if is_nan (cell acc c) then set_cell c value acc else acc) r labels.

Definition fillna (value : fval) (df : DataFrame) : DataFrame :=
  mkFrame (columns df) (map (fillna_row value (columns df)) (rows df)).

(** The rows that [duplicated(keep='first')] does not mark: the first
    row of each key, in table order.  Two missing values count as
    equal. *)
Fixpoint first_of_each {K} `{EqDecision K} (key : Row → K) (seen : list K)
    (table : list Row) : list Row :=
  match table with
  | [] => []
  | r :: rest =>
      if bool_decide (key r ∈ seen) then first_of_each key seen rest
      else r :: first_of_each key (key r :: seen) rest
  end.

(** [df.drop_duplicates(subset=subset)].  A table without rows is
    returned as it is, before the labels are looked at; an unknown
    label is a [KeyError] (pandas reports the set of unknown labels,
    the first of them is kept here).  [subset] is [None] (all columns)
    or a list with at least one label. *)
Definition drop_duplicates (df : DataFrame) (subset : option (string * list string))
    : result DataFrame :=
  match rows df with
  | [] => Ok df
  | _ =>
      let labels :=
        match subset with
        | None => all_columns df
        | Some (c, rest) => c :: rest
        end in
      match filter (λ c, c ∉ all_columns df) labels with
      | [] =>
          Ok (mkFrame (columns df)
                (first_of_each (λ r, map (get_value r) labels) [] (rows df)))
      | c :: _ => Raise (KeyError c)
      end
  end.
End Pandas.

Export Pandas.

(** ** config.py *)

Module Config.

Definition MIN_GAMES_THRESHOLD : Z := 5.
Definition MIN_MINUTES_THRESHOLD : fval := of_Z 0.
Definition SECONDS_PER_MINUTE : Z := 60.
Definition MINUTES_NORMALIZATION : Z := 36.

Definition STATS_TO_NORMALIZE : list string :=
  ["pts"; "ast"; "trb"; "stl"; "blk"; "tov";
   "fga"; "fgm"; "3pa"; "3pm"; "2pa"; "2pm"; "fta"; "ftm"].

Definition FREE_THROW_POSSESSION_FACTOR : fval := Fin (qc 44 100).
Definition EFFICIENCY_MULTIPLIER : fval := of_Z 100.

Definition INTERIOR_ZONES_MADE : list string :=
  ["rc_pc_m"; "rc_pl_m"; "rc_pr_m"; "rc_mbl_m"; "rc_mbr_m"].
Definition INTERIOR_ZONES_ATTEMPTED : list string :=
  ["rc_pc_a"; "rc_pl_a"; "rc_pr_a"; "rc_mbl_a"; "rc_mbr_a"].
Definition EXTERIOR_ZONES_MADE : list string :=
  ["rc_mel_m"; "rc_mer_m"; "rc_c3l_m"; "rc_c3r_m";
   "rc_ce3l_m"; "rc_ce3r_m"; "rc_e3l_m"; "rc_e3r_m"].
Definition EXTERIOR_ZONES_ATTEMPTED : list string :=
  ["rc_mel_a"; "rc_mer_a"; "rc_c3l_a"; "rc_c3r_a";
   "rc_ce3l_a"; "rc_ce3r_a"; "rc_e3l_a"; "rc_e3r_a"].

Definition FEATURES_FOR_CLUSTERING : list string :=
  ["pts_per36"; "ast_per36"; "trb_per36"; "stl_per36"; "blk_per36"; "tov_per36";
   "fga_per36"; "3pa_per36"; "2pa_per36";
   "fg2_pct"; "fg3_pct"; "ft_pct";
   "usage_2p"; "usage_3p";
   "oer"; "der"; "true_shooting_pct";
   "orb"; "drb"; "pf"].

Definition FEATURES_FOR_EDA : list string :=
  ["interior_pct"; "interior_freq"; "exterior_pct"; "exterior_freq"].

Definition SCALER_TYPE : string := "standard".
Definition HANDLE_INFINITY : bool := true.
Definition FILL_NA_VALUE : fval := of_Z 0.

End Config.

(** ** data_processing/feature_engineer.py *)

Module FeatureEngineer.

Import Config.

Definition convert_seconds_to_minutes (df : DataFrame) : result DataFrame :=
  seconds ← column df "minutes";
  Ok (assign "minutes_played" (λ r, fdiv (seconds r) (of_Z 60)) df).

(** The loop over [stats_cols]: a statistic that is not a column is
    skipped, the minutes column is read at each statistic that is. *)
Fixpoint normalize_per_minutes (df : DataFrame) (stats_cols : list string)
    (target_minutes : Z) : result DataFrame :=
  match stats_cols with
  | [] => Ok df
  | stat :: rest =>
      if has_column df stat then
        let new_col := stat +:+ "_per" +:+ pretty target_minutes in
        minutes ← column df "minutes_played";
        normalize_per_minutes
          (assign new_col
             (λ r, fmul (fdiv (cell r stat) (minutes r)) (of_Z target_minutes)) df)
          rest target_minutes
      else normalize_per_minutes df rest target_minutes
  end.

(** [np.where(df[den] > 0, df[num] / df[den], 0)] stored as [target]. *)
Definition guarded_ratio (target num den : string) (df : DataFrame) : result DataFrame :=
  d ← column df den;
  n ← column df num;
  Ok (assign target (λ r, np_where (fgt (d r) zero) (fdiv (n r) (d r)) zero) df).

Definition calculate_shooting_percentages (df : DataFrame) : result DataFrame :=
  df ← guarded_ratio "fg2_pct" "2pm" "2pa" df;
  df ← guarded_ratio "fg3_pct" "3pm" "3pa" df;
  guarded_ratio "ft_pct" "ftm" "fta" df.

Definition calculate_usage_rates (df : DataFrame) : result DataFrame :=
  df ← guarded_ratio "usage_2p" "2pa" "fga" df;
  guarded_ratio "usage_3p" "3pa" "fga" df.

(** [df[zones].sum(axis=1)] for one row. *)
Definition zone_sum (zones : list string) (r : Row) : fval :=
  nansum (map (cell r) zones).

(** The two zone sums are computed before the first assignment, so
    both new cells of a row are derived from the row as it came in. *)
Definition zone_cells (pct freq : string)
    (zones_made zones_attempted : list string) (r : Row) : Row :=
  let made := zone_sum zones_made r in
  let attempted := zone_sum zones_attempted r in
  let r1 := set_cell pct (np_where (fgt attempted zero) (fdiv made attempted) zero) r in
  let fga := cell r1 "fga" in
  set_cell freq (np_where (fgt fga zero) (fdiv attempted fga) zero) r1.

Definition calculate_zone_stats (pct freq : string)
    (zones_made zones_attempted : list string) (df : DataFrame) : result DataFrame :=
  _ ← check_columns df zones_made;
  _ ← check_columns df zones_attempted;
  let labels := add_label pct (columns df) in
  if bool_decide ("fga" ∈ labels) then
    Ok (mkFrame (add_label freq labels)
                (map (zone_cells pct freq zones_made zones_attempted) (rows df)))
  else Raise (KeyError "fga").

Definition calculate_interior_stats := calculate_zone_stats "interior_pct" "interior_freq".
Definition calculate_exterior_stats := calculate_zone_stats "exterior_pct" "exterior_freq".

(** [fga + (FACTOR * fta) - orb + tov] *)
Definition possessions_formula (fga fta orb tov : fval) : fval :=
  fadd (fsub (fadd fga (fmul FREE_THROW_POSSESSION_FACTOR fta)) orb) tov.

Definition calculate_possessions (df : DataFrame) : result DataFrame :=
  fga ← column df "fga";
  fta ← column df "fta";
  orb ← column df "orb";
  tov ← column df "tov";
  Ok (assign "possessions"
        (λ r, possessions_formula (fga r) (fta r) (orb r) (tov r)) df).

(** [np.where(den > 0, MULTIPLIER * (num / den), 0)] *)
Definition efficiency (num den : fval) : fval :=
  np_where (fgt den zero) (fmul EFFICIENCY_MULTIPLIER (fdiv num den)) zero.

Definition calculate_oer (df : DataFrame) : result DataFrame :=
  poss ← column df "possessions";
  pts ← column df "pts";
  Ok (assign "oer" (λ r, efficiency (pts r) (poss r)) df).

Definition calculate_true_shooting_pct (df : DataFrame) : result DataFrame :=
  fga ← column df "fga";
  fta ← column df "fta";
  let attempts :=
    λ r, fmul (of_Z 2) (fadd (fga r) (fmul FREE_THROW_POSSESSION_FACTOR (fta r))) in
  pts ← column df "pts";
  Ok (assign "true_shooting_pct"
        (λ r, np_where (fgt (attempts r) zero) (fdiv (pts r) (attempts r)) zero) df).

Definition calculate_der (df : DataFrame) : result DataFrame :=
  oposs ← column df "opponent_possessions";
  opts ← column df "opponent_pts";
  Ok (assign "der" (λ r, efficiency (opts r) (oposs r)) df).

Definition nonempty {A} (l : list A) : bool :=
  match l with [] => false | _ => true end.

Definition apply_all_transformations (df : DataFrame)
    (stats_to_normalize interior_zones_made interior_zones_attempted
       exterior_zones_made exterior_zones_attempted : list string)
    (target_minutes : Z) : result DataFrame :=
  df ← convert_seconds_to_minutes df;
  df ← normalize_per_minutes df stats_to_normalize target_minutes;
  df ← calculate_shooting_percentages df;
  df ← calculate_usage_rates df;
  df ← calculate_interior_stats interior_zones_made interior_zones_attempted df;
  df ← (if nonempty exterior_zones_made && nonempty exterior_zones_attempted
        then calculate_exterior_stats exterior_zones_made exterior_zones_attempted df
        else Ok df);
  df ← calculate_possessions df;
  df ← calculate_oer df;
  df ← calculate_true_shooting_pct df;
  if has_column df "opponent_possessions" && has_column df "opponent_pts"
  then calculate_der df
  else Ok df.

End FeatureEngineer.

(** ** data_processing/data_cleaner.py *)

Module DataCleaner.

(** [validate_required_columns]: [True], or the [ValueError] that
    lists the labels that are missing. *)
Definition validate_required_columns (df : DataFrame) (required_cols : list string)
    : result bool :=
  let missing_cols := filter (λ col, col ∉ all_columns df) required_cols in
  match missing_cols with
  | [] => Ok true
  | _ => Raise (ValueError ("Falten columnes requerides: "
                            +:+ Python.repr_list missing_cols))
  end.

(** One entry [{'min': val, 'max': val}] of [validations]; either key
    may be absent. *)
Record Range : Type := mkRange {
  range_min : option fval;
  range_max : option fval
}.

(** One round of the loop of [validate_numeric_ranges]; the labels are
    those of numeric columns. *)
Definition apply_range (df : DataFrame) (entry : string * Range) : DataFrame :=
  let '(col, ranges) := entry in
  if has_column df col then
    let df :=
      match range_min ranges with
      | Some lower => select (λ r, fge (cell r col) lower) df
      | None => df
      end in
    match range_max ranges with
    | Some upper => select (λ r, fle (cell r col) upper) df
    | None => df
    end
  else df.

(** [validations] is a dictionary: its items in insertion order. *)
Definition validate_numeric_ranges (df : DataFrame) (validations : list (string * Range))
    : DataFrame :=
  foldl apply_range df validations.

(** One round of the loop of [validate_percentages]: the column is
    clipped when at least one of its values is out of range. *)
Definition validate_percentage (df : DataFrame) (col : string) : DataFrame :=
  if has_column df col then
    let invalid_mask := λ r, flt (cell r col) (of_Z 0) || fgt (cell r col) (of_Z 1) in
    let invalid_count := length (filter (λ r, invalid_mask r = true) (rows df)) in
    if bool_decide (0 < invalid_count)%nat
    then assign col (λ r, clip (of_Z 0) (of_Z 1) (cell r col)) df
    else df
  else df.

Definition validate_percentages (df : DataFrame) (pct_cols : list string) : DataFrame :=
  foldl validate_percentage df pct_cols.

(** [df.groupby(player_id_col).size()]: one [(player, num_games)] entry
    per key. *)
Definition games_per_player (df : DataFrame) : list (Z * Z) :=
  map (λ p, (p, Z.of_nat (length (filter (λ r, player_feb_id r = p) (rows df)))))
      (group_keys (map player_feb_id (rows df))).

Definition filter_by_minutes (df : DataFrame) (min_minutes : fval) : result DataFrame :=
  minutes ← column df "minutes";
  Ok (select (λ r, fgt (minutes r) min_minutes) df).

Definition filter_by_games_played (df : DataFrame) (min_games : Z) : DataFrame :=
  let valid_players :=
    map fst (filter (λ e : Z * Z, (min_games ≤ snd e)%Z) (games_per_player df)) in
  select (λ r, bool_decide (player_feb_id r ∈ valid_players)) df.


Definition handle_missing_values (df : DataFrame) (strategy : string) (fill_value : fval)
    : result DataFrame :=
  if bool_decide (strategy = "drop") then Ok (dropna df)
  else if bool_decide (strategy = "fill") then Ok (fillna fill_value df)
  else Raise (ValueError ("Estratègia no vàlida: " +:+ strategy)).

Definition remove_duplicates (df : DataFrame) (subset : option (string * list string))
    : result DataFrame :=
  drop_duplicates df subset.
End DataCleaner.

(** ** data_processing/data_aggregator.py *)

Module DataAggregator.

Import DataCleaner.

(** One row of the aggregated table: the group key, the player's name
    and the aggregated numeric cells. *)
Record AggRow : Type := mkAgg {
  agg_player_feb_id : Z;
  agg_player_name : string;
  agg_cells : gmap string fval
}.

Record AggFrame : Type := mkAggFrame {
  agg_columns : list string;
  agg_rows : list AggRow
}.

Definition agg_cell (r : AggRow) (c : string) : fval :=
  default NaN (agg_cells r !! c).

(** [df.groupby(player_id_col)]: the groups in ascending key order, each
    holding its rows in table order. *)
Definition groupby_player (df : DataFrame) : list (Z * list Row) :=
  map (λ p, (p, filter (λ r, player_feb_id r = p) (rows df)))
      (group_keys (map player_feb_id (rows df))).

(** [group[player_name_col].iloc[0]] *)
Definition first_name (group : list Row) : result string :=
  match group with
  | r :: _ => Ok (player_name r)
  | [] => Raise IndexError
  end.

(** [(group[col] * group['minutes_played']).sum() / total_minutes] *)
Definition weighted_value (group : list Row) (total_minutes : fval) (col : string) : fval :=
  fdiv (nansum (map (λ r, fmul (cell r col) (cell r "minutes_played")) group))
       total_minutes.

(** The dictionary [result] of [weighted_mean], filled in source order:
    the features that are columns, then [minutes_played]. *)
Fixpoint weighted_cells (df : DataFrame) (group : list Row) (total_minutes : fval)
    (features : list string) (acc : gmap string fval) : gmap string fval :=
  match features with
  | [] => acc
  | col :: rest =>
      weighted_cells df group total_minutes rest
        (if has_column df col
         then <[col := weighted_value group total_minutes col]> acc
         else acc)
  end.

Definition weighted_mean (df : DataFrame) (features : list string)
    (key : Z) (group : list Row) : result AggRow :=
  name ← first_name group;
  let total_minutes := nansum (map (λ r, cell r "minutes_played") group) in
  let result := weighted_cells df group total_minutes features ∅ in
  Ok (mkAgg key name (<["minutes_played" := total_minutes]> result)).

(** [agg_dict] of the simple mode: ['mean'] for the features that are
    columns, then ['sum'] for [minutes_played] when it is a column. *)
Fixpoint mean_cells (df : DataFrame) (group : list Row)
    (features : list string) (acc : gmap string fval) : gmap string fval :=
  match features with
  | [] => acc
  | col :: rest =>
      mean_cells df group rest
        (if has_column df col
         then <[col := nanmean (map (λ r, cell r col) group)]> acc
         else acc)
  end.

(** The ['first'] aggregation of the name column. *)
Definition agg_first (group : list Row) : string :=
  match group with
  | r :: _ => player_name r
  | [] => ""
  end.

Definition simple_mean (df : DataFrame) (features : list string)
    (key : Z) (group : list Row) : result AggRow :=
  let result := mean_cells df group features ∅ in
  Ok (mkAgg key (agg_first group)
        (if has_column df "minutes_played"
         then <["minutes_played" := nansum (map (λ r, cell r "minutes_played") group)]> result
         else result)).

(** The labels of the result, in dictionary insertion order. *)
Fixpoint dict_keys (labels : list string) : list string :=
  match labels with
  | [] => []
  | c :: rest => c :: filter (λ d, d ≠ c) (dict_keys rest)
  end.

Definition aggregated_labels (df : DataFrame) (features : list string) : list string :=
  let kept := dict_keys (filter (λ c, has_column df c = true) features) in
  if has_column df "minutes_played" && negb (bool_decide ("minutes_played" ∈ kept))
  then kept ++ ["minutes_played"]
  else kept.

Fixpoint for_each_group (f : Z → list Row → result AggRow)
    (groups : list (Z * list Row)) : result (list AggRow) :=
  match groups with
  | [] => Ok []
  | (key, group) :: rest =>
      row ← f key group;
      others ← for_each_group f rest;
      Ok (row :: others)
  end.

Definition aggregate_by_player (df : DataFrame) (features : list string)
    (weighted : bool) : result AggFrame :=
  if negb weighted || negb (has_column df "minutes_played") then
    out ← for_each_group (simple_mean df features) (groupby_player df);
    Ok (mkAggFrame (aggregated_labels df features) out)
  else
    out ← for_each_group (weighted_mean df features) (groupby_player df);
    Ok (mkAggFrame (aggregated_labels df features) out).


(** The ['sum'] entries of [agg_dict] in [aggregate_raw_stats], one per
    raw statistic that is a column. *)
Fixpoint sum_cells (group : list Row) (keys : list string)
    (acc : gmap string fval) : gmap string fval :=
  match keys with
  | [] => acc
  | col :: rest =>
      sum_cells group rest (<[col := nansum (map (λ r, cell r col) group)]> acc)
  end.

(** The aggregate of one group: the sums, the ['first'] name and the
    ['size'] of the group under [num_games], which replaces a sum asked
    for under that key. *)
Definition raw_totals (keys : list string) (key : Z) (group : list Row)
    : result AggRow :=
  Ok (mkAgg key (agg_first group)
        (<["num_games" := of_Z (Z.of_nat (length group))]> (sum_cells group keys ∅))).

(** [df.groupby(...).agg(agg_dict)] checks that every key of
    [agg_dict] is a column of the table before it aggregates:
    [num_games] is the one key that is not there by construction. *)
Definition aggregate_raw_stats (df : DataFrame) (raw_stats : list string)
    : result AggFrame :=
  let kept := dict_keys (filter (λ col, has_column df col = true) raw_stats) in
  if has_column df "num_games" then
    out ← for_each_group (raw_totals kept) (groupby_player df);
    Ok (mkAggFrame
          (if bool_decide ("num_games" ∈ kept) then kept else kept ++ ["num_games"])
          out)
  else Raise (KeyError "Column(s) ['num_games'] do not exist").
End DataAggregator.

(** ** scikit-learn scalers

    The two estimators of [sklearn.preprocessing] that the scaler
    wraps, after the library's documentation: [StandardScaler] centres
    a column on its mean and divides by its standard deviation (a
    column of zero variance keeps a scaling factor of 1);
    [MinMaxScaler] maps the column range onto [0, 1].  Missing values
    are ignored when fitting and kept when transforming; an infinite
    entry, a table without rows and a table without columns are
    rejected by the input check (the message texts are abbreviated).
    The square root has no exact rational counterpart: the estimators
    are parametric in the function that computes it. *)

Module Sklearn.

Record Table : Type := mkTable {
  tcolumns : list string;
  tdata : list (list fval)
}.

Inductive estimator : Type :=
| StandardScaler (fitted : option (list fval * list fval))
| MinMaxScaler (fitted : option (list fval * list fval)).

Definition column_values (X : list (list fval)) (j : nat) : list fval :=
  map (λ row, default NaN (row !! j)) X.

Definition check_array (X : Table) : result unit :=
  if existsb (existsb is_inf) (tdata X) then
    Raise (ValueError "Input contains infinity")
  else if bool_decide (length (tdata X) = 0%nat) then
    Raise (ValueError "Found array with 0 sample(s)")
  else if bool_decide (length (tcolumns X) = 0%nat) then
    Raise (ValueError "Found array with 0 feature(s)")
  else Ok tt.

Definition is_zero (x : fval) : bool :=
  match x with Fin q => qzero q | _ => false end.

Definition one : fval := of_Z 1.

(** [np.nanmin] and [np.nanmax] of a column. *)
Definition fmin (x y : fval) : fval := if fgt x y then y else x.
Definition fmax (x y : fval) : fval := if fgt y x then y else x.

Definition nanfold (f : fval → fval → fval) (xs : list fval) : fval :=
  match filter (λ x, is_nan x = false) xs with
  | [] => NaN
  | x :: rest => foldl f x rest
  end.

Section Estimators.

Variable sqrt_fn : Qc → Qc.

Definition fsqrt (x : fval) : fval :=
  match x with
  | Fin v => if qneg v then NaN else Fin (sqrt_fn v)
  | PInf => PInf
  | _ => NaN
  end.

Definition column_mean (xs : list fval) : fval := nanmean xs.

Definition column_var (xs : list fval) : fval :=
  let mu := column_mean xs in
  nanmean (map (λ x, fmul (fsub x mu) (fsub x mu)) xs).

Definition column_scale (xs : list fval) : fval :=
  let var := column_var xs in
  if is_zero var then one else fsqrt var.

Definition standard_fit (X : Table) : list fval * list fval :=
  let cols := map (column_values (tdata X)) (seq 0 (length (tcolumns X))) in
  (map column_mean cols, map column_scale cols).

(** [X -= mean_; X /= scale_] *)
Definition standard_apply (params : list fval * list fval) (row : list fval) : list fval :=
  zip_with (λ x ms, fdiv (fsub x (fst ms)) (snd ms)) row (zip (fst params) (snd params)).

(** [X *= scale_; X += mean_] *)
Definition standard_invert (params : list fval * list fval) (row : list fval) : list fval :=
  zip_with (λ x ms, fadd (fmul x (snd ms)) (fst ms)) row (zip (fst params) (snd params)).

Definition minmax_scale (xs : list fval) : fval :=
  let range := fsub (nanfold fmax xs) (nanfold fmin xs) in
  fdiv one (if is_zero range then one else range).

Definition minmax_fit (X : Table) : list fval * list fval :=
  let cols := map (column_values (tdata X)) (seq 0 (length (tcolumns X))) in
  (map (λ xs, fsub zero (fmul (nanfold fmin xs) (minmax_scale xs))) cols,
   map minmax_scale cols).

(** [X *= scale_; X += min_] *)
Definition minmax_apply (params : list fval * list fval) (row : list fval) : list fval :=
  zip_with (λ x ms, fadd (fmul x (snd ms)) (fst ms)) row (zip (fst params) (snd params)).

(** [X -= min_; X /= scale_] *)
Definition minmax_invert (params : list fval * list fval) (row : list fval) : list fval :=
  zip_with (λ x ms, fdiv (fsub x (fst ms)) (snd ms)) row (zip (fst params) (snd params)).

Definition fit_transform (est : estimator) (X : Table)
    : result (estimator * list (list fval)) :=
  _ ← check_array X;
  match est with
  | StandardScaler _ =>
      let params := standard_fit X in
      Ok (StandardScaler (Some params), map (standard_apply params) (tdata X))
  | MinMaxScaler _ =>
      let params := minmax_fit X in
      Ok (MinMaxScaler (Some params), map (minmax_apply params) (tdata X))
  end.

Definition fitted_params (est : estimator) : result (list fval * list fval) :=
  match est with
  | StandardScaler (Some params) | MinMaxScaler (Some params) => Ok params
  | _ => Raise NotFittedError
  end.

Definition check_n_features (params : list fval * list fval) (X : Table) : result unit :=
  if bool_decide (length (tcolumns X) = length (fst params)) then Ok tt
  else Raise (ValueError "X has a different number of features than the fitted scaler").

Definition transform (est : estimator) (X : Table) : result (list (list fval)) :=
  params ← fitted_params est;
  _ ← check_array X;
  _ ← check_n_features params X;
  match est with
  | StandardScaler _ => Ok (map (standard_apply params) (tdata X))
  | MinMaxScaler _ => Ok (map (minmax_apply params) (tdata X))
  end.

Definition inverse_transform (est : estimator) (X : Table) : result (list (list fval)) :=
  params ← fitted_params est;
  _ ← check_array X;
  _ ← check_n_features params X;
  match est with
  | StandardScaler _ => Ok (map (standard_invert params) (tdata X))
  | MinMaxScaler _ => Ok (map (minmax_invert params) (tdata X))
  end.

End Estimators.

End Sklearn.

(** ** preprocessing/scaler.py *)

Module DataScaler.

Import Sklearn.

Record t : Type := mkScaler {
  scaler : estimator;
  scaler_type : string
}.

(** [DataScaler.__init__] *)
Definition init (scaler_type : string) : result t :=
  if bool_decide (scaler_type = "standard") then
    Ok (mkScaler (StandardScaler None) scaler_type)
  else if bool_decide (scaler_type = "minmax") then
    Ok (mkScaler (MinMaxScaler None) scaler_type)
  else Raise (ValueError ("Tipus d'escalador no vàlid: " +:+ scaler_type)).

(** [df.replace([np.inf, -np.inf], np.nan)] on one cell. *)
Definition replace_inf (x : fval) : fval := if is_inf x then NaN else x.

(** [df.fillna(fill_na)] on one cell. *)
Definition fillna (fill_na : fval) (x : fval) : fval := if is_nan x then fill_na else x.

Definition clean_table (df : Table) (handle_infinity : bool) (fill_na : fval) : Table :=
  let df_clean := df in
  let df_clean :=
    if handle_infinity
    then mkTable (tcolumns df_clean) (map (map replace_inf) (tdata df_clean))
    else df_clean in
  mkTable (tcolumns df_clean) (map (map (fillna fill_na)) (tdata df_clean)).

Section Methods.

Variable sqrt_fn : Qc → Qc.

(** Returns the scaler with its fitted estimator and the pair
    [(df_scaled, df_clean)]. *)
Definition fit_transform (self : t) (df : Table) (handle_infinity : bool)
    (fill_na : fval) : result (t * (Table * Table)) :=
  let df_clean := clean_table df handle_infinity fill_na in
  '(est, scaled_data) ← Sklearn.fit_transform sqrt_fn (scaler self) df_clean;
  let df_scaled := mkTable (tcolumns df_clean) scaled_data in
  Ok (mkScaler est (scaler_type self), (df_scaled, df_clean)).

Definition transform (self : t) (df : Table) (handle_infinity : bool)
    (fill_na : fval) : result Table :=
  let df_clean := clean_table df handle_infinity fill_na in
  scaled_data ← Sklearn.transform (scaler self) df_clean;
  Ok (mkTable (tcolumns df_clean) scaled_data).

Definition inverse_transform (self : t) (df_scaled : Table) : result Table :=
  original_data ← Sklearn.inverse_transform (scaler self) df_scaled;
  Ok (mkTable (tcolumns df_scaled) original_data).

End Methods.

End DataScaler.

(** ** pipeline/etl_pipeline.py *)

(** One row of the team-game table, with the columns the pipeline
    reads. *)
Module TeamStats.

Record t : Type := mk {
  match_feb_id : Z;
  team_feb_id : Z;
  pts : fval;
  fga : fval;
  fta : fval;
  orb : fval;
  tov : fval
}.

End TeamStats.

Module ETLPipeline.

Import Sklearn.

(** The constants the pipeline imports from [config.py], gathered so
    that a run can be stated for any threshold. *)
Record Settings : Type := mkSettings {
  min_games_threshold : Z;
  stats_to_normalize : list string;
  interior_zones_made : list string;
  interior_zones_attempted : list string;
  exterior_zones_made : list string;
  exterior_zones_attempted : list string;
  features_for_clustering : list string;
  features_for_eda : list string;
  minutes_normalization : Z;
  handle_infinity : bool;
  fill_na_value : fval
}.

Definition default_settings : Settings :=
  mkSettings Config.MIN_GAMES_THRESHOLD Config.STATS_TO_NORMALIZE
    Config.INTERIOR_ZONES_MADE Config.INTERIOR_ZONES_ATTEMPTED
    Config.EXTERIOR_ZONES_MADE Config.EXTERIOR_ZONES_ATTEMPTED
    Config.FEATURES_FOR_CLUSTERING Config.FEATURES_FOR_EDA
    Config.MINUTES_NORMALIZATION Config.HANDLE_INFINITY Config.FILL_NA_VALUE.

(** A row of [opponent_data]. *)
Record OpponentLink : Type := mkLink {
  link_match_feb_id : Z;
  link_team_feb_id : Z;
  opponent_possessions : fval;
  opponent_pts : fval
}.

(** [df_teams['team_possessions']] *)
Definition team_possessions (team : TeamStats.t) : fval :=
  fadd (fsub (fadd (TeamStats.fga team)
                   (fmul Config.FREE_THROW_POSSESSION_FACTOR (TeamStats.fta team)))
             (TeamStats.orb team))
       (TeamStats.tov team).

(** [frame.iloc[0]] *)
Definition iloc0 {A} (frame : list A) : result A :=
  match frame with
  | x :: _ => Ok x
  | [] => Raise IndexError
  end.

(** The inner loop [for idx, team_row in teams_in_match.iterrows()]. *)
Fixpoint links_of_match (match_id : Z) (teams_in_match todo : list TeamStats.t)
    : result (list OpponentLink) :=
  match todo with
  | [] => Ok []
  | team_row :: rest =>
      opponent_row ←
        iloc0 (filter (λ o, TeamStats.team_feb_id o ≠ TeamStats.team_feb_id team_row)
                      teams_in_match);
      others ← links_of_match match_id teams_in_match rest;
      Ok (mkLink match_id (TeamStats.team_feb_id team_row)
                 (team_possessions opponent_row) (TeamStats.pts opponent_row)
            :: others)
  end.

(** The outer loop [for match_id in df['match_feb_id'].unique()]. *)
Fixpoint links_of_matches (df_teams : list TeamStats.t) (match_ids : list Z)
    : result (list OpponentLink) :=
  match match_ids with
  | [] => Ok []
  | match_id :: rest =>
      let teams_in_match :=
        filter (λ o, TeamStats.match_feb_id o = match_id) df_teams in
      found ←
        (if bool_decide (length teams_in_match = 2%nat)
         then links_of_match match_id teams_in_match teams_in_match
         else Ok []);
      others ← links_of_matches df_teams rest;
      Ok (found ++ others)
  end.

Definition opponent_data (df : DataFrame) (df_teams : list TeamStats.t)
    : result (list OpponentLink) :=
  links_of_matches df_teams (unique (map Pandas.match_feb_id (rows df))).

Definition link_matches (r : Row) (l : OpponentLink) : Prop :=
  link_match_feb_id l = Pandas.match_feb_id r ∧
  link_team_feb_id l = Pandas.team_feb_id r.

#[global] Instance link_matches_dec r l : Decision (link_matches r l).
Proof. unfold link_matches. apply _. Defined.

Definition with_opponent (possessions points : fval) (r : Row) : Row :=
  set_cell "opponent_pts" points (set_cell "opponent_possessions" possessions r).

(** The left join of one player row: one output row per matching link,
    or the row with both opponent cells missing when there is none. *)
Definition join_row (df_opponents : list OpponentLink) (r : Row) : list Row :=
  match filter (link_matches r) df_opponents with
  | [] => [with_opponent NaN NaN r]
  | found => map (λ l, with_opponent (opponent_possessions l) (opponent_pts l) r) found
  end.

(** [df.merge(df_opponents, on=['match_feb_id', 'team_feb_id'], how='left')]
    where [df_opponents = pd.DataFrame(opponent_data)].  A frame built
    from an empty list has no columns at all, so the join keys are
    unknown labels.  The player-game table is taken to carry no
    opponent column of its own. *)
Definition merge_opponents (df : DataFrame) (df_opponents : list OpponentLink)
    : result DataFrame :=
  match df_opponents with
  | [] => Raise (KeyError "match_feb_id")
  | _ =>
      Ok (mkFrame (add_label "opponent_pts"
                     (add_label "opponent_possessions" (columns df)))
                  (flat_map (join_row df_opponents) (rows df)))
  end.

(** The list [features_for_clustering] after the DER validation. *)
Definition clustering_features (cfg : Settings) (df : DataFrame) : list string :=
  let features := features_for_clustering cfg in
  if has_column df "opponent_possessions" && has_column df "opponent_pts"
     && has_column df "der"
  then (if bool_decide ("der" ∈ features) then features else features ++ ["der"])
  else filter (λ f, f ≠ "der") features.

(** [all_features_to_aggregate] *)
Definition features_to_aggregate (cfg : Settings) (df : DataFrame) : list string :=
  let eda := filter (λ f, has_column df f = true) (features_for_eda cfg) in
  foldl (λ all f, if bool_decide (f ∈ all) then all else all ++ [f])
        (clustering_features cfg df) eda.

(** [df_aggregated[labels]] *)
Fixpoint check_labels (df : DataAggregator.AggFrame) (labels : list string) : result unit :=
  match labels with
  | [] => Ok tt
  | c :: rest =>
      if bool_decide (c ∈ DataAggregator.agg_columns df)
      then check_labels df rest
      else Raise (KeyError c)
  end.

Definition select_features (df : DataAggregator.AggFrame) (labels : list string)
    : result Table :=
  _ ← check_labels df labels;
  Ok (mkTable labels
        (map (λ r, map (DataAggregator.agg_cell r) labels) (DataAggregator.agg_rows df))).

(** The table of game rows that reaches the aggregator: opponent
    resolution, the games-played filter and feature engineering. *)
Definition enriched (cfg : Settings) (df : DataFrame) (df_teams : list TeamStats.t)
    : result DataFrame :=
  links ← opponent_data df df_teams;
  df ← merge_opponents df links;
  let df := DataCleaner.filter_by_games_played df (min_games_threshold cfg) in
  FeatureEngineer.apply_all_transformations df
    (stats_to_normalize cfg)
    (interior_zones_made cfg) (interior_zones_attempted cfg)
    (exterior_zones_made cfg) (exterior_zones_attempted cfg)
    (minutes_normalization cfg).

(** [df_aggregated] *)
Definition aggregated (cfg : Settings) (df : DataFrame) (df_teams : list TeamStats.t)
    : result DataAggregator.AggFrame :=
  df ← enriched cfg df df_teams;
  DataAggregator.aggregate_by_player df (features_to_aggregate cfg df) true.

(** The dictionary [transform] returns; [full_data] is the aggregated
    table once more. *)
Record Outputs : Type := mkOutputs {
  player_info : list (Z * string);
  features_raw : Table;
  features_scaled : Table;
  aggregated_table : DataAggregator.AggFrame;
  full_data : DataAggregator.AggFrame
}.

(** [df_final_scaled] of [load]: [pd.concat] along the columns of
    [player_info] and [features_scaled], both with a fresh index.  Rows
    are paired by position; the shorter table is padded with missing
    values. *)
Definition df_final_scaled (dataframes : Outputs)
    : list (option (Z * string) * list fval) :=
  let info := player_info dataframes in
  let scaled := features_scaled dataframes in
  map (λ i, (info !! i,
             default (replicate (length (tcolumns scaled)) NaN) (tdata scaled !! i)))
      (seq 0 (Nat.max (length info) (length (tdata scaled)))).

Section Transform.

Variable sqrt_fn : Qc → Qc.

(** [ETLPipeline.transform]; [scaler] is the pipeline's [self.scaler]. *)
Definition transform (cfg : Settings) (scaler : DataScaler.t)
    (df : DataFrame) (df_teams : list TeamStats.t)
    : result (DataScaler.t * Outputs) :=
  df ← enriched cfg df df_teams;
  let for_clustering := clustering_features cfg df in
  df_aggregated ←
    DataAggregator.aggregate_by_player df (features_to_aggregate cfg df) true;
  let info :=
    map (λ r, (DataAggregator.agg_player_feb_id r, DataAggregator.agg_player_name r))
        (DataAggregator.agg_rows df_aggregated) in
  features ← select_features df_aggregated for_clustering;
  '(scaler, (features_scaled, features_clean)) ←
    DataScaler.fit_transform sqrt_fn scaler features
      (handle_infinity cfg) (fill_na_value cfg);
  Ok (scaler,
      mkOutputs info features_clean features_scaled df_aggregated df_aggregated).

(** [ETLPipeline(...)] followed by [transform(data)]: the constructor
    builds the scaler from the configured type before any table is
    looked at. *)
Definition construct_and_transform (cfg : Settings) (scaler_type : string)
    (df : DataFrame) (df_teams : list TeamStats.t)
    : result (DataScaler.t * Outputs) :=
  scaler ← DataScaler.init scaler_type;
  transform cfg scaler df df_teams.

End Transform.

End ETLPipeline.

(** * Vocabulary of the specification

    The notions the statements below are written with. *)

(** What the specification asks of a guarded ratio column: the quotient
    when the denominator is positive, zero when it is zero, and a
    finite number whenever both counts are numbers. *)
Definition guarded_ratio_spec (out num den : fval) : Prop :=
  out = (if fgt den zero then fdiv num den else zero) ∧
  (den = zero → out = zero) ∧
  (∀ n d : Qc, num = Fin n → den = Fin d →
     is_finite out = true ∧
     ((Q2Qc 0 < d)%Qc → out = Fin (n / d)%Qc) ∧
     (d = Q2Qc 0 → out = zero)).

(** The games of one player, in table order. *)
Definition games_of (df : DataFrame) (p : Z) : list Row :=
  filter (λ r, player_feb_id r = p) (rows df).

(** The rational a finite cell holds. *)
Definition rational (x : fval) : Qc :=
  match x with Fin q => q | _ => Q2Qc 0 end.

(** An exact sum of rationals. *)
Definition Qc_sum (qs : list Qc) : Qc := foldr Qcplus (Q2Qc 0) qs.

(** The number of elements of a list, as a rational. *)
Definition Qc_length {A} (l : list A) : Qc := Q2Qc (inject_Z (Z.of_nat (length l))).

(** The sum of a column of numbers, none missing. *)
Definition nansum_all (qs : list Qc) : fval := foldr fadd zero (map Fin qs).

(** The row the weighted mode builds for player [p]. *)
Definition weighted_row (df : DataFrame) (features : list string) (p : Z)
    : DataAggregator.AggRow :=
  let group := games_of df p in
  let total := nansum (map (λ r, cell r "minutes_played") group) in
  DataAggregator.mkAgg p (DataAggregator.agg_first group)
    (<["minutes_played" := total]>
       (DataAggregator.weighted_cells df group total features ∅)).

(** The row the simple mode builds for player [p]. *)
Definition simple_row (df : DataFrame) (features : list string) (p : Z)
    : DataAggregator.AggRow :=
  let group := games_of df p in
  let result := DataAggregator.mean_cells df group features ∅ in
  DataAggregator.mkAgg p (DataAggregator.agg_first group)
    (if has_column df "minutes_played"
     then <["minutes_played" := nansum (map (λ r, cell r "minutes_played") group)]> result
     else result).

(** The number of game rows of a player. *)
Definition games_played (df : DataFrame) (p : Z) : Z :=
  Z.of_nat (length (games_of df p)).

(** The player ids of a table, row by row. *)
Definition players_of (df : DataFrame) : list Z := map player_feb_id (rows df).

Definition preserves_players (step : DataFrame → result DataFrame) : Prop :=
  ∀ df df', step df = Ok df' → players_of df' = players_of df.

Definition link_key (l : ETLPipeline.OpponentLink) : Z * Z :=
  (ETLPipeline.link_match_feb_id l, ETLPipeline.link_team_feb_id l).

(** The two links of a match played by [a] and [b]: each team points
    at the possessions and the points of the other. *)
Definition pair_links (match_id : Z) (a b : TeamStats.t)
    : list ETLPipeline.OpponentLink :=
  [ETLPipeline.mkLink match_id (TeamStats.team_feb_id a)
     (ETLPipeline.team_possessions b) (TeamStats.pts b);
   ETLPipeline.mkLink match_id (TeamStats.team_feb_id b)
     (ETLPipeline.team_possessions a) (TeamStats.pts a)].

(** The team rows of a match. *)
Definition teams_of_match (df_teams : list TeamStats.t) (match_id : Z)
    : list TeamStats.t :=
  filter (λ o, TeamStats.match_feb_id o = match_id) df_teams.

(** What one round of the outer loop contributes. *)
Definition match_links (df_teams : list TeamStats.t) (match_id : Z)
    : result (list ETLPipeline.OpponentLink) :=
  match teams_of_match df_teams match_id with
  | [a; b] =>
      if decide (TeamStats.team_feb_id a = TeamStats.team_feb_id b)
      then Raise IndexError
      else Ok (pair_links match_id a b)
  | _ => Ok []
  end.

(** The row a player row becomes in the left join when at most one
    link matches it. *)
Definition joined (links : list ETLPipeline.OpponentLink) (r : Row) : Row :=
  match filter (ETLPipeline.link_matches r) links with
  | [] => ETLPipeline.with_opponent NaN NaN r
  | l :: _ =>
      ETLPipeline.with_opponent
        (ETLPipeline.opponent_possessions l) (ETLPipeline.opponent_pts l) r
  end.

Definition same_outcome (x y : result DataFrame) : Prop :=
  match x, y with
  | Ok a, Ok b => columns a = columns b
  | Raise e1, Raise e2 => e1 = e2
  | _, _ => False
  end.

Definition columns_determined (step : DataFrame → result DataFrame) : Prop :=
  ∀ df1 df2, columns df1 = columns df2 → same_outcome (step df1) (step df2).

(** The settings with another threshold on games played. *)
Definition with_min_games (k : Z) (cfg : ETLPipeline.Settings) : ETLPipeline.Settings :=
  ETLPipeline.mkSettings k
    (ETLPipeline.stats_to_normalize cfg)
    (ETLPipeline.interior_zones_made cfg) (ETLPipeline.interior_zones_attempted cfg)
    (ETLPipeline.exterior_zones_made cfg) (ETLPipeline.exterior_zones_attempted cfg)
    (ETLPipeline.features_for_clustering cfg) (ETLPipeline.features_for_eda cfg)
    (ETLPipeline.minutes_normalization cfg)
    (ETLPipeline.handle_infinity cfg) (ETLPipeline.fill_na_value cfg).

(** The player ids of the aggregated table, row by row. *)
Definition aggregated_players_of (out : DataAggregator.AggFrame) : list Z :=
  map DataAggregator.agg_player_feb_id (DataAggregator.agg_rows out).

(** Every row of the table has one cell per column label. *)
Definition rectangular (X : Sklearn.Table) : Prop :=
  Forall (λ row, length row = length (Sklearn.tcolumns X)) (Sklearn.tdata X).

#[global] Instance rectangular_dec X : Decision (rectangular X).
Proof. unfold rectangular. apply _. Defined.

(** No cell of the table is infinite. *)
Definition no_infinity (data : list (list fval)) : Prop :=
  Forall (Forall (λ x, is_inf x = false)) data.

(** A cell that is a number or missing, and a non-negative one. *)
Definition number_or_missing (x : fval) : Prop := is_inf x = false.

Definition nonneg_or_missing (x : fval) : Prop :=
  match x with
  | Fin q => (Q2Qc 0 <= q)%Qc
  | NaN => True
  | _ => False
  end.

(** ** Vocabulary for the rest of the code *)



(** A cell that holds a number of the interval from 0 to 1. *)
Definition in_unit_interval (x : fval) : Prop :=
  ∃ q, x = Fin q ∧ (Q2Qc 0 <= q)%Qc ∧ (q <= Q2Qc 1)%Qc.

(** Two rows about the same player and game. *)
Definition same_identity (r r' : Row) : Prop :=
  player_feb_id r' = player_feb_id r ∧ player_name r' = player_name r ∧
  match_feb_id r' = match_feb_id r ∧ team_feb_id r' = team_feb_id r.

(** The box score of a row is consistent for a kind of shot: the shots
    made and the shots attempted are numbers, and no more shots are
    made than attempted, out of at most [total] shots. *)
Definition shots_consistent (r : Row) (made attempted total : string) : Prop :=
  ∃ m a t, cell r made = Fin m ∧ cell r attempted = Fin a ∧ cell r total = Fin t ∧
           (Q2Qc 0 <= m)%Qc ∧ (m <= a)%Qc ∧ (a <= t)%Qc.

(** A row without a missing value under the labels. *)
Definition complete (labels : list string) (r : Row) : Prop :=
  Forall (λ c, is_nan (cell r c) = false) labels.

#[global] Instance complete_dec labels r : Decision (complete labels r).
Proof. unfold complete. apply _. Defined.

(** The labels that [drop_duplicates] compares: all of them by default. *)
Definition compared_labels (df : DataFrame) (subset : option (string * list string))
    : list string :=
  match subset with
  | None => all_columns df
  | Some (c, rest) => c :: rest
  end.

(** The values of a row under the labels. *)
Definition key_of (labels : list string) (r : Row) : list value :=
  map (get_value r) labels.

(** The games of a list in which the cell under [c] is not missing. *)
Definition games_with (c : string) (games : list Row) : list Row :=
  filter (λ r, is_nan (cell r c) = false) games.

(** The label of a statistic normalised to [target_minutes]. *)
Definition per_label (target_minutes : Z) (stat : string) : string :=
  stat +:+ "_per" +:+ pretty target_minutes.

(** A step that may add the columns [fresh] and changes nothing else:
    the other columns stay, the rows keep their order and identity, and
    every cell outside [fresh] keeps its value. *)
Definition writes_only (fresh : list string) (step : DataFrame → result DataFrame)
    : Prop :=
  ∀ df df', step df = Ok df' →
    (∀ c, has_column df c = true → has_column df' c = true) ∧
    (∀ c, has_column df' c = true → has_column df c = true ∨ c ∈ fresh) ∧
    length (rows df') = length (rows df) ∧
    ∀ i r, rows df !! i = Some r →
      ∃ r', rows df' !! i = Some r' ∧ same_identity r r' ∧
            ∀ c, c ∉ fresh → cell r' c = cell r c.

(** The labels that feature engineering may write. *)
Definition engineered_labels (target_minutes : Z) (stats : list string) : list string :=
  ["minutes_played"] ++ map (per_label target_minutes) stats ++
  ["fg2_pct"; "fg3_pct"; "ft_pct"; "usage_2p"; "usage_3p";
   "interior_pct"; "interior_freq"; "exterior_pct"; "exterior_freq";
   "possessions"; "oer"; "true_shooting_pct"; "der"].

(** The labels among [zones] under which the row holds a value. *)
Definition zones_with_value (r : Row) (zones : list string) : list string :=
  filter (λ z, is_nan (cell r z) = false) zones.

(** A step that needs the columns [needed]: it returns a table when
    they are all there; when it returns one, those of them outside
    [derived] were columns of its input; and it raises nothing but a
    [KeyError]. *)
Definition needs (derived needed : list string) (step : DataFrame → result DataFrame)
    : Prop :=
  (∀ df, (∀ c, c ∈ needed → has_column df c = true) → is_ok (step df) = true) ∧
  (∀ df df', step df = Ok df' →
     ∀ c, c ∈ needed → c ∉ derived → has_column df c = true) ∧
  (∀ df e, step df = Raise e → ∃ label, e = KeyError label).

(** A step whose result has the columns [made]. *)
Definition produces (made : list string) (step : DataFrame → result DataFrame) : Prop :=
  ∀ df df', step df = Ok df' → ∀ c, c ∈ made → has_column df' c = true.

(** The raw columns that feature engineering reads. *)
Definition required_columns (interior_zones_made interior_zones_attempted
    exterior_zones_made exterior_zones_attempted : list string) : list string :=
  ["minutes"; "2pa"; "2pm"; "3pa"; "3pm"; "fta"; "ftm"; "fga"] ++
  interior_zones_made ++ interior_zones_attempted ++
  (if FeatureEngineer.nonempty exterior_zones_made
      && FeatureEngineer.nonempty exterior_zones_attempted
   then exterior_zones_made ++ exterior_zones_attempted else []) ++
  ["orb"; "tov"; "pts"].


(** * Sample data

    The small tables the sample runs are made on, and a concrete square
    root for them. *)

Definition box_score (stats : list (string * Z)) : gmap string fval :=
  list_to_map (map (λ e, (fst e, of_Z (snd e))) stats).

(** A game with no two-point attempt: 10 field-goal attempts, 5 free
    throws, 2 offensive rebounds, 3 turnovers, 20 points. *)
Definition sample_game : Row :=
  mkRow 1 "A. Garcia" 100 10
    (box_score [("minutes", 1200); ("pts", 20); ("fga", 10); ("fta", 5);
                ("ftm", 4); ("orb", 2); ("tov", 3); ("2pa", 0); ("2pm", 0);
                ("3pa", 10); ("3pm", 4)]).

Definition sample_frame : DataFrame :=
  mkFrame ["minutes"; "pts"; "fga"; "fta"; "ftm"; "orb"; "tov";
           "2pa"; "2pm"; "3pa"; "3pm"]
          [sample_game].

(** A season of three games: player 1 plays 20 and 10 minutes with an
    offensive rating of 100 and 130, player 2 plays 30 minutes with a
    rating of 90. *)
Definition rated_game (player : Z) (name : string) (game minutes oer : Z) : Row :=
  mkRow player name game 10
    (box_score [("minutes_played", minutes); ("oer", oer)]).

Definition sample_season : DataFrame :=
  mkFrame ["minutes_played"; "oer"]
    [rated_game 2 "B. Soler" 100 30 90;
     rated_game 1 "A. Garcia" 100 20 100;
     rated_game 1 "A. Garcia" 101 10 130].

(** The same players with 15 minutes in every game. *)
Definition sample_even_season : DataFrame :=
  mkFrame ["minutes_played"; "oer"]
    [rated_game 2 "B. Soler" 100 15 90;
     rated_game 1 "A. Garcia" 100 15 100;
     rated_game 1 "A. Garcia" 101 15 130].

Definition ratings (out : DataAggregator.AggFrame) : list (Z * fval * fval) :=
  map (λ row, (DataAggregator.agg_player_feb_id row,
               DataAggregator.agg_cell row "minutes_played",
               DataAggregator.agg_cell row "oer"))
      (DataAggregator.agg_rows out).

(** Heron's iteration for the square root, from 1. *)
Fixpoint heron (steps : nat) (v : Qc) : Qc :=
  match steps with
  | O => Q2Qc 1
  | S n => let x := heron n v in ((x + v / x) / Q2Qc 2)%Qc
  end.

Definition heron_sqrt (v : Qc) : Qc := heron 4 v.

Definition standard_scaler : DataScaler.t :=
  DataScaler.mkScaler (Sklearn.StandardScaler None) "standard".

(** Three players, with an infinite and a missing defensive rating. *)
Definition sample_features : Sklearn.Table :=
  Sklearn.mkTable ["oer"; "der"]
    [[of_Z 110; PInf]; [of_Z 90; NaN]; [of_Z 100; of_Z 105]].

(** The feature table of a run in which no player qualified. *)
Definition empty_features : Sklearn.Table := Sklearn.mkTable ["oer"; "der"] [].

Definition clean_cells (out : result (DataScaler.t * (Sklearn.Table * Sklearn.Table)))
    : result (list (list fval)) :=
  (λ o, Sklearn.tdata (snd (snd o))) <$> out.

Definition zone_columns : list string :=
  Config.INTERIOR_ZONES_MADE ++ Config.INTERIOR_ZONES_ATTEMPTED ++
  Config.EXTERIOR_ZONES_MADE ++ Config.EXTERIOR_ZONES_ATTEMPTED.

Definition counting_stats (minutes pts : Z) : list (string * Z) :=
  [("minutes", minutes); ("pts", pts); ("ast", 3); ("trb", 5); ("stl", 1);
   ("blk", 0); ("tov", 3); ("fga", 10); ("fgm", 5); ("3pa", 4); ("3pm", 1);
   ("2pa", 6); ("2pm", 4); ("fta", 5); ("ftm", 4); ("orb", 2); ("drb", 3);
   ("pf", 2)].

Definition stat_columns : list string :=
  map fst (counting_stats 0 0) ++ zone_columns.

(** One game of a player: [minutes] seconds on court and [pts] points. *)
Definition played (player : Z) (name : string) (game team minutes pts : Z) : Row :=
  mkRow player name game team
    (box_score (counting_stats minutes pts ++ map (λ z, (z, 1)) zone_columns)).

(** Player 1 (team 10) plays three games, player 2 (team 20) five. *)
Definition sample_players : DataFrame :=
  mkFrame stat_columns
    [played 1 "A. Garcia" 100 10 1200 20; played 2 "B. Soler" 100 20 1500 12;
     played 1 "A. Garcia" 101 10 900 8;   played 2 "B. Soler" 101 20 1800 15;
     played 1 "A. Garcia" 102 10 600 11;  played 2 "B. Soler" 102 20 1200 9;
     played 2 "B. Soler" 103 20 1500 14;  played 2 "B. Soler" 104 20 1000 10].

(** Team 10 scores 70 on 70 possessions, team 20 scores 60 on 65. *)
Definition home (game : Z) : TeamStats.t :=
  TeamStats.mk game 10 (of_Z 70) (of_Z 60) (of_Z 25) (of_Z 11) (of_Z 10).
Definition away (game : Z) : TeamStats.t :=
  TeamStats.mk game 20 (of_Z 60) (of_Z 55) (of_Z 25) (of_Z 11) (of_Z 10).

Definition sample_teams : list TeamStats.t :=
  flat_map (λ game, [home game; away game]) [100; 101; 102; 103; 104].

(** The opponent cells of the merged table, row by row. *)
Definition opponent_cells (df : DataFrame) : list (Z * Z * fval * fval) :=
  map (λ r, (Pandas.match_feb_id r, Pandas.team_feb_id r,
             cell r "opponent_pts", cell r "opponent_possessions"))
      (rows df).

Definition merged (df : DataFrame) (df_teams : list TeamStats.t) : result DataFrame :=
  ETLPipeline.opponent_data df df_teams ≫= ETLPipeline.merge_opponents df.

(** The players of the table [transform] returns, each with the
    minutes of the aggregate. *)
Definition minutes_by_player (out : result (DataScaler.t * ETLPipeline.Outputs))
    : result (list (Z * fval)) :=
  (λ o, map (λ row, (DataAggregator.agg_player_feb_id row,
                     DataAggregator.agg_cell row "minutes_played"))
            (DataAggregator.agg_rows (ETLPipeline.aggregated_table (snd o))))
    <$> out.

(** A season of which the team table holds one row only. *)
Definition unpaired_players : DataFrame :=
  mkFrame stat_columns [played 1 "A. Garcia" 100 10 1200 20].
Definition unpaired_teams : list TeamStats.t := [home 100].

(** A game of 18 minutes and a game without minutes. *)
Definition sample_minutes : DataFrame :=
  mkFrame ["minutes_played"; "pts"; "ast"]
    [mkRow 1 "A. Garcia" 100 10
       (box_score [("minutes_played", 18); ("pts", 9); ("ast", 3)]);
     mkRow 1 "A. Garcia" 101 10
       (box_score [("minutes_played", 0); ("pts", 0); ("ast", 0)])].

(** A game against a rival of 60 points on 65 possessions, and a game
    the join found no rival for. *)
Definition sample_rivals : DataFrame :=
  mkFrame ["opponent_possessions"; "opponent_pts"]
    [mkRow 1 "A. Garcia" 100 10
       (box_score [("opponent_possessions", 65); ("opponent_pts", 60)]);
     mkRow 1 "A. Garcia" 101 10
       (<["opponent_possessions" := NaN]> (<["opponent_pts" := NaN]> ∅))].

(** Percentages as another source might deliver them: one above 1, one
    below 0, one missing. *)
Definition sample_percentages : DataFrame :=
  mkFrame ["fg2_pct"; "pts"]
    [mkRow 1 "A. Garcia" 100 10 (<["fg2_pct" := Fin (qc 3 2)]> (box_score [("pts", 9)]));
     mkRow 1 "A. Garcia" 101 10 (<["fg2_pct" := Fin (qc (-1) 4)]> (box_score [("pts", 7)]));
     mkRow 2 "B. Soler" 100 20 (<["fg2_pct" := NaN]> (box_score [("pts", 5)]));
     mkRow 2 "B. Soler" 101 20 (<["fg2_pct" := Fin (qc 1 2)]> (box_score [("pts", 5)]))].

(** The values of a column, row by row. *)
Definition column_cells (c : string) (df : DataFrame) : list fval :=
  map (λ r, cell r c) (rows df).

(** Feature engineering with the configured lists. *)
Definition engineer (df : DataFrame) : result DataFrame :=
  FeatureEngineer.apply_all_transformations df
    Config.STATS_TO_NORMALIZE
    Config.INTERIOR_ZONES_MADE Config.INTERIOR_ZONES_ATTEMPTED
    Config.EXTERIOR_ZONES_MADE Config.EXTERIOR_ZONES_ATTEMPTED
    Config.MINUTES_NORMALIZATION.

(** The player table with a [num_games] column, and with a repeated
    row. *)
Definition sample_counted : DataFrame :=
  mkFrame (stat_columns ++ ["num_games"]) (rows sample_players).

Definition sample_repeated : DataFrame :=
  mkFrame stat_columns
    [played 1 "A. Garcia" 100 10 1200 20; played 2 "B. Soler" 100 20 1500 12;
     played 1 "A. Garcia" 100 10 1200 20; played 1 "A. Garcia" 101 10 900 8].

(** The identifying values of a table, row by row. *)
Definition games (df : DataFrame) : list (Z * Z) :=
  map (λ r, (player_feb_id r, Pandas.match_feb_id r)) (rows df).

Definition minmax_scaler : DataScaler.t :=
  DataScaler.mkScaler (Sklearn.MinMaxScaler None) "minmax".

Definition scaled_cells (out : result (DataScaler.t * (Sklearn.Table * Sklearn.Table)))
    : result (list (list fval)) :=
  (λ o, Sklearn.tdata (fst (snd o))) <$> out.

(** The sample season with the threshold at three games. *)
Definition sample_settings : ETLPipeline.Settings :=
  with_min_games 3 ETLPipeline.default_settings.

(** * Properties *)

(** Reduction of the exception monad, and closed goals decided by
    evaluation. *)
Ltac step_result :=
  unfold mbind, result_bind, mret, result_ret in *; simpl in *.

Ltac by_computation :=
  match goal with
  | |- ?P => apply (bool_decide_eq_true_1 P); vm_compute; reflexivity
  end.

(** ** Facts about the extended numbers *)

Arguments fadd : simpl never.
Arguments fsub : simpl never.
Arguments fmul : simpl never.
Arguments fdiv : simpl never.
Arguments fgt : simpl never.
Arguments nansum : simpl never.
Arguments nanmean : simpl never.

Section NumericFacts.

Implicit Types a b : Qc.

Lemma qzero_true a : qzero a = true ↔ a = Q2Qc 0.
Proof. unfold qzero. apply bool_decide_eq_true. Qed.

Lemma qzero_false a : qzero a = false ↔ a ≠ Q2Qc 0.
Proof. unfold qzero. apply bool_decide_eq_false. Qed.

Lemma fgt_zero_fin a : fgt (Fin a) zero = true ↔ (Q2Qc 0 < a)%Qc.
Proof. unfold fgt, zero, of_Z. apply bool_decide_eq_true. Qed.

Lemma fgt_zero_fin_false a : fgt (Fin a) zero = false ↔ (a <= Q2Qc 0)%Qc.
Proof.
  unfold fgt, zero, of_Z. rewrite bool_decide_eq_false.
  split; [apply Qcnot_lt_le | apply Qcle_not_lt].
Qed.

Lemma fdiv_fin a b : b ≠ Q2Qc 0 → fdiv (Fin a) (Fin b) = Fin (a / b)%Qc.
Proof. intros Hb. unfold fdiv. apply qzero_false in Hb. by rewrite Hb. Qed.

Lemma Qc_pos_nonzero a : (Q2Qc 0 < a)%Qc → a ≠ Q2Qc 0.
Proof. intros Hlt ->. by apply (Qclt_not_eq _ _ Hlt). Qed.

Lemma fdiv_fin_pos a b : (Q2Qc 0 < b)%Qc → fdiv (Fin a) (Fin b) = Fin (a / b)%Qc.
Proof. intros Hb. apply fdiv_fin, Qc_pos_nonzero, Hb. Qed.

(** A quotient guarded by [den > 0] is finite on finite operands. *)
Lemma guarded_quotient_finite a b :
  is_finite (np_where (fgt (Fin b) zero) (fdiv (Fin a) (Fin b)) zero) = true.
Proof.
  unfold np_where. destruct (fgt (Fin b) zero) eqn:Hgt; [|done].
  apply fgt_zero_fin in Hgt. by rewrite fdiv_fin_pos.
Qed.

End NumericFacts.

(** ** Facts about tables *)

Section FrameFacts.

Implicit Types (df : DataFrame) (r : Row) (c : string).

Lemma cell_set_cell_eq c v r : cell (set_cell c v r) c = v.
Proof. unfold cell, set_cell. simpl. by rewrite lookup_insert_eq. Qed.

Lemma cell_set_cell_ne c c' v r : c ≠ c' → cell (set_cell c v r) c' = cell r c'.
Proof. intros Hne. unfold cell, set_cell. simpl. by rewrite lookup_insert_ne. Qed.

Lemma player_of_set_cell c v r : player_feb_id (set_cell c v r) = player_feb_id r.
Proof. done. Qed.

Lemma column_ok df c : has_column df c = true → column df c = Ok (λ r, cell r c).
Proof. intros Hc. unfold column. by rewrite Hc. Qed.

Lemma has_column_assign c f df c' :
  has_column (assign c f df) c' = has_column df c' || bool_decide (c' = c).
Proof.
  unfold assign, has_column, add_label. simpl.
  destruct (bool_decide (c ∈ columns df)) eqn:Hc.
  - apply bool_decide_eq_true in Hc.
    destruct (bool_decide (c' = c)) eqn:Heq.
    + apply bool_decide_eq_true in Heq. subst.
      rewrite orb_true_r. by apply bool_decide_eq_true.
    + by rewrite orb_false_r.
  - apply eq_true_iff_eq. rewrite orb_true_iff, !bool_decide_eq_true.
    rewrite elem_of_app, list_elem_of_singleton. done.
Qed.

Lemma has_column_assign_keep c f df c' :
  has_column df c' = true → has_column (assign c f df) c' = true.
Proof. intros Hc. by rewrite has_column_assign, Hc. Qed.

Lemma rows_assign_lookup c f df i r :
  rows df !! i = Some r →
  rows (assign c f df) !! i = Some (set_cell c (f r) r).
Proof. intros Hr. unfold assign. simpl. by rewrite list_lookup_fmap, Hr. Qed.

Lemma rows_assign_length c f df : length (rows (assign c f df)) = length (rows df).
Proof. unfold assign. simpl. apply length_map. Qed.

End FrameFacts.

(** ** Feature engineering *)

Section FeatureFacts.

Import FeatureEngineer.

Lemma guarded_ratio_ok target num den df :
  has_column df den = true → has_column df num = true →
  guarded_ratio target num den df =
    Ok (assign target
          (λ r, np_where (fgt (cell r den) zero)
                         (fdiv (cell r num) (cell r den)) zero) df).
Proof.
  intros Hd Hn. unfold guarded_ratio.
  rewrite (column_ok _ _ Hd), (column_ok _ _ Hn). done.
Qed.

End FeatureFacts.

Ltac cell_simpl :=
  repeat (rewrite cell_set_cell_eq || rewrite cell_set_cell_ne by discriminate).

Lemma guarded_ratio_spec_intro num den :
  guarded_ratio_spec (np_where (fgt den zero) (fdiv num den) zero) num den.
Proof.
  unfold guarded_ratio_spec, np_where. split; [done|]. split.
  - intros ->. done.
  - intros n d -> ->. split; [apply guarded_quotient_finite|]. split.
    + intros Hd. rewrite (proj2 (fgt_zero_fin d) Hd). by apply fdiv_fin_pos.
    + intros ->. done.
Qed.

Section ShootingAndUsage.

Import FeatureEngineer.

Lemma calculate_shooting_percentages_ok df :
  has_column df "2pa" = true → has_column df "2pm" = true →
  has_column df "3pa" = true → has_column df "3pm" = true →
  has_column df "fta" = true → has_column df "ftm" = true →
  ∃ df1, calculate_shooting_percentages df = Ok df1 ∧
    (∀ c, has_column df c = true → has_column df1 c = true) ∧
    length (rows df1) = length (rows df) ∧
    ∀ i r, rows df !! i = Some r →
      ∃ r1, rows df1 !! i = Some r1 ∧
        cell r1 "fg2_pct" =
          np_where (fgt (cell r "2pa") zero) (fdiv (cell r "2pm") (cell r "2pa")) zero ∧
        cell r1 "fg3_pct" =
          np_where (fgt (cell r "3pa") zero) (fdiv (cell r "3pm") (cell r "3pa")) zero ∧
        cell r1 "ft_pct" =
          np_where (fgt (cell r "fta") zero) (fdiv (cell r "ftm") (cell r "fta")) zero ∧
        ∀ c, c ∉ ["fg2_pct"; "fg3_pct"; "ft_pct"] → cell r1 c = cell r c.
Proof.
  intros H2a H2m H3a H3m Hfa Hfm.
  unfold calculate_shooting_percentages.
  rewrite (guarded_ratio_ok _ _ _ _ H2a H2m). step_result.
  rewrite guarded_ratio_ok by (by apply has_column_assign_keep).
  rewrite guarded_ratio_ok by (by do 2 apply has_column_assign_keep).
  eexists. split; [reflexivity|]. split; [|split].
  - intros c Hc. by do 3 apply has_column_assign_keep.
  - by rewrite !rows_assign_length.
  - intros i r Hr.
    eexists. split.
    { repeat apply rows_assign_lookup. exact Hr. }
    cell_simpl. repeat split.
    intros c Hc. rewrite !cell_set_cell_ne; [done|..];
      intros <-; apply Hc; set_solver.
Qed.

Lemma calculate_usage_rates_ok df :
  has_column df "fga" = true → has_column df "2pa" = true →
  has_column df "3pa" = true →
  ∃ df1, calculate_usage_rates df = Ok df1 ∧
    length (rows df1) = length (rows df) ∧
    ∀ i r, rows df !! i = Some r →
      ∃ r1, rows df1 !! i = Some r1 ∧
        cell r1 "usage_2p" =
          np_where (fgt (cell r "fga") zero) (fdiv (cell r "2pa") (cell r "fga")) zero ∧
        cell r1 "usage_3p" =
          np_where (fgt (cell r "fga") zero) (fdiv (cell r "3pa") (cell r "fga")) zero ∧
        ∀ c, c ∉ ["usage_2p"; "usage_3p"] → cell r1 c = cell r c.
Proof.
  intros Hfga H2a H3a.
  unfold calculate_usage_rates.
  rewrite (guarded_ratio_ok _ _ _ _ Hfga H2a). step_result.
  rewrite guarded_ratio_ok by (by apply has_column_assign_keep).
  eexists. split; [reflexivity|]. split.
  - by rewrite !rows_assign_length.
  - intros i r Hr.
    eexists. split.
    { repeat apply rows_assign_lookup. exact Hr. }
    cell_simpl. repeat split.
    intros c Hc. rewrite !cell_set_cell_ne; [done|..];
      intros <-; apply Hc; set_solver.
Qed.

End ShootingAndUsage.

Section ShootingAndUsageClaim.

Import FeatureEngineer.

(** C5.  On every table that has the seven shooting columns, the
    shooting percentages and usage rates are computed for each row as
    the guarded ratios [2pm/2pa], [3pm/3pa], [ftm/fta], [2pa/fga] and
    [3pa/fga]: the quotient when the denominator is positive, exactly 0
    when it is 0, so that a division by zero never leaves a NaN or an
    infinity in these five columns. *)
Theorem shooting_and_usage_guard_zero_denominators (df : DataFrame) :
  has_column df "2pa" = true → has_column df "2pm" = true →
  has_column df "3pa" = true → has_column df "3pm" = true →
  has_column df "fta" = true → has_column df "ftm" = true →
  has_column df "fga" = true →
  ∃ df1 df2,
    calculate_shooting_percentages df = Ok df1 ∧
    calculate_usage_rates df1 = Ok df2 ∧
    length (rows df2) = length (rows df) ∧
    ∀ i r, rows df !! i = Some r →
      ∃ r2, rows df2 !! i = Some r2 ∧
        guarded_ratio_spec (cell r2 "fg2_pct") (cell r "2pm") (cell r "2pa") ∧
        guarded_ratio_spec (cell r2 "fg3_pct") (cell r "3pm") (cell r "3pa") ∧
        guarded_ratio_spec (cell r2 "ft_pct") (cell r "ftm") (cell r "fta") ∧
        guarded_ratio_spec (cell r2 "usage_2p") (cell r "2pa") (cell r "fga") ∧
        guarded_ratio_spec (cell r2 "usage_3p") (cell r "3pa") (cell r "fga").
Proof.
  intros H2a H2m H3a H3m Hfa Hfm Hfga.
  destruct (calculate_shooting_percentages_ok df H2a H2m H3a H3m Hfa Hfm)
    as (df1 & Hdf1 & Hcols & Hlen1 & Hrows1).
  destruct (calculate_usage_rates_ok df1 (Hcols _ Hfga) (Hcols _ H2a) (Hcols _ H3a))
    as (df2 & Hdf2 & Hlen2 & Hrows2).
  exists df1, df2. split; [done|]. split; [done|]. split; [congruence|].
  intros i r Hr.
  destruct (Hrows1 i r Hr) as (r1 & Hr1 & Hfg2 & Hfg3 & Hft & Hother1).
  destruct (Hrows2 i r1 Hr1) as (r2 & Hr2 & Hu2 & Hu3 & Hother2).
  exists r2. split; [done|].
  rewrite (Hother2 "fg2_pct"), (Hother2 "fg3_pct"), (Hother2 "ft_pct")
    by (apply not_elem_of_cons; split; [discriminate|];
        apply not_elem_of_cons; split; [discriminate|]; apply not_elem_of_nil).
  rewrite Hfg2, Hfg3, Hft, Hu2, Hu3.
  rewrite !(Hother1 "fga"), !(Hother1 "2pa"), !(Hother1 "3pa")
    by (repeat (apply not_elem_of_cons; split; [discriminate|]); apply not_elem_of_nil).
  repeat (split; [apply guarded_ratio_spec_intro|]).
  apply guarded_ratio_spec_intro.
Qed.

End ShootingAndUsageClaim.

Lemma shooting_and_usage_witness :
  ∃ df1 df2,
    FeatureEngineer.calculate_shooting_percentages sample_frame = Ok df1 ∧
    FeatureEngineer.calculate_usage_rates df1 = Ok df2 ∧
    length (rows df2) = length (rows sample_frame) ∧
    ∀ i r, rows sample_frame !! i = Some r →
      ∃ r2, rows df2 !! i = Some r2 ∧
        guarded_ratio_spec (cell r2 "fg2_pct") (cell r "2pm") (cell r "2pa") ∧
        guarded_ratio_spec (cell r2 "fg3_pct") (cell r "3pm") (cell r "3pa") ∧
        guarded_ratio_spec (cell r2 "ft_pct") (cell r "ftm") (cell r "fta") ∧
        guarded_ratio_spec (cell r2 "usage_2p") (cell r "2pa") (cell r "fga") ∧
        guarded_ratio_spec (cell r2 "usage_3p") (cell r "3pa") (cell r "fga").
Proof.
  apply (shooting_and_usage_guard_zero_denominators sample_frame);
    vm_compute; reflexivity.
Defined.

Section PossessionsAndOer.

Import FeatureEngineer.

Lemma efficiency_fin (pts possessions : Qc) :
  ((Q2Qc 0 < possessions)%Qc →
     efficiency (Fin pts) (Fin possessions) =
       Fin (Q2Qc 100 * (pts / possessions))%Qc) ∧
  ((possessions <= Q2Qc 0)%Qc → efficiency (Fin pts) (Fin possessions) = zero).
Proof.
  unfold efficiency, np_where. split.
  - intros Hpos. rewrite (proj2 (fgt_zero_fin _) Hpos).
    by rewrite fdiv_fin_pos.
  - intros Hle. by rewrite (proj2 (fgt_zero_fin_false _) Hle).
Qed.

(** C4.  On every table that has the columns [fga], [fta], [orb], [tov]
    and [pts], each row receives
    [possessions = fga + 0.44 * fta - orb + tov] and
    [oer = 100 * pts / possessions] when the possessions are positive,
    0 otherwise. *)
Theorem possessions_and_oer_formulas (df : DataFrame) :
  has_column df "fga" = true → has_column df "fta" = true →
  has_column df "orb" = true → has_column df "tov" = true →
  has_column df "pts" = true →
  ∃ df1 df2,
    calculate_possessions df = Ok df1 ∧
    calculate_oer df1 = Ok df2 ∧
    length (rows df2) = length (rows df) ∧
    ∀ i r, rows df !! i = Some r →
      ∃ r2, rows df2 !! i = Some r2 ∧
        cell r2 "possessions" =
          fadd (fsub (fadd (cell r "fga") (fmul (Fin (qc 44 100)) (cell r "fta")))
                     (cell r "orb"))
               (cell r "tov") ∧
        cell r2 "oer" =
          (if fgt (cell r2 "possessions") zero
           then fmul (of_Z 100) (fdiv (cell r "pts") (cell r2 "possessions"))
           else zero) ∧
        ∀ fga fta orb tov pts : Qc,
          cell r "fga" = Fin fga → cell r "fta" = Fin fta →
          cell r "orb" = Fin orb → cell r "tov" = Fin tov →
          cell r "pts" = Fin pts →
          let possessions := (fga + qc 44 100 * fta - orb + tov)%Qc in
          cell r2 "possessions" = Fin possessions ∧
          ((Q2Qc 0 < possessions)%Qc →
             cell r2 "oer" = Fin (Q2Qc 100 * (pts / possessions))%Qc) ∧
          ((possessions <= Q2Qc 0)%Qc → cell r2 "oer" = zero).
Proof.
  intros Hfga Hfta Horb Htov Hpts.
  unfold calculate_possessions.
  rewrite (column_ok _ _ Hfga), (column_ok _ _ Hfta),
    (column_ok _ _ Horb), (column_ok _ _ Htov).
  step_result. eexists. eexists. split; [reflexivity|].
  unfold calculate_oer.
  rewrite (column_ok _ "possessions")
    by (rewrite has_column_assign; apply orb_true_r).
  rewrite (column_ok _ "pts") by (by apply has_column_assign_keep).
  step_result. split; [reflexivity|]. split.
  { by rewrite !rows_assign_length. }
  intros i r Hr. eexists. split.
  { repeat apply rows_assign_lookup. exact Hr. }
  cell_simpl. unfold possessions_formula, efficiency, np_where,
    Config.FREE_THROW_POSSESSION_FACTOR, Config.EFFICIENCY_MULTIPLIER.
  split; [done|]. split; [done|].
  intros fga fta orb tov pts -> -> -> -> ->.
  split; [reflexivity|].
  exact (efficiency_fin pts (fga + qc 44 100 * fta - orb + tov)%Qc).
Qed.

End PossessionsAndOer.

Lemma possessions_and_oer_witness :
  ∃ df2 r2,
    (FeatureEngineer.calculate_possessions sample_frame
       ≫= FeatureEngineer.calculate_oer) = Ok df2 ∧
    rows df2 !! 0%nat = Some r2 ∧
    cell r2 "possessions" = Fin (qc 132 10) ∧
    cell r2 "oer" = Fin (qc 5000 33) ∧
    (qc 151515 1000 < qc 5000 33)%Qc ∧ (qc 5000 33 < qc 151525 1000)%Qc.
Proof.
  destruct (possessions_and_oer_formulas sample_frame)
    as (df1 & df2 & Hdf1 & Hdf2 & _ & Hrows); try (vm_compute; reflexivity).
  destruct (Hrows 0%nat sample_game eq_refl) as (r2 & Hr2 & _ & _ & Hfinite).
  destruct (Hfinite (Q2Qc 10) (Q2Qc 5) (Q2Qc 2) (Q2Qc 3) (Q2Qc 20))
    as (Hposs & Hoer & _); [by_computation..|].
  exists df2, r2. split.
  { rewrite Hdf1. exact Hdf2. }
  split; [exact Hr2|]. split.
  { rewrite Hposs. by_computation. }
  split.
  { rewrite Hoer; by_computation. }
  split; by_computation.
Defined.

(** ** Aggregation *)

Section ListFacts.

Context {A B : Type}.

Lemma elem_of_map (f : A → B) (l : list A) (y : B) :
  y ∈ map f l ↔ ∃ x, y = f x ∧ x ∈ l.
Proof. apply (list_elem_of_fmap f). Qed.

Lemma lookup_map (f : A → B) (l : list A) (i : nat) :
  map f l !! i = f <$> (l !! i).
Proof. apply (list_lookup_fmap f). Qed.

Lemma map_ext_elem_of (f g : A → B) (l : list A) :
  (∀ x, x ∈ l → f x = g x) → map f l = map g l.
Proof.
  intros Hfg. apply map_ext_in. intros x Hx. apply Hfg. by apply list_elem_of_In.
Qed.

End ListFacts.

Section GroupKeys.

Lemma elem_of_unique (x : Z) (l : list Z) : x ∈ unique l ↔ x ∈ l.
Proof.
  induction l as [|y l IH]; simpl; [done|].
  rewrite !elem_of_cons, list_elem_of_filter, IH.
  destruct (decide (x = y)) as [->|Hne]; [by split; [left|left]|].
  split; [intros [?|[_ ?]]; [by left|by right]|].
  intros [?|?]; [by left|by right].
Qed.

Lemma NoDup_unique (l : list Z) : NoDup (unique l).
Proof.
  induction l as [|y l IH]; simpl; [constructor|].
  apply NoDup_cons. split.
  - rewrite list_elem_of_filter. intros [Hne _]. by apply Hne.
  - by apply NoDup_filter.
Qed.

Lemma elem_of_group_keys (x : Z) (l : list Z) : x ∈ group_keys l ↔ x ∈ l.
Proof.
  unfold group_keys. rewrite merge_sort_Permutation. apply elem_of_unique.
Qed.

Lemma NoDup_group_keys (l : list Z) : NoDup (group_keys l).
Proof.
  unfold group_keys. rewrite merge_sort_Permutation. apply NoDup_unique.
Qed.

End GroupKeys.

Section SumFacts.

Lemma nansum_fins (qs : list Qc) : nansum (map Fin qs) = Fin (Qc_sum qs).
Proof.
  unfold nansum. induction qs as [|q qs IH]; [done|].
  simpl map. rewrite filter_cons.
  destruct (decide (false = false)) as [_|]; [|done].
  simpl. by rewrite IH.
Qed.

Lemma filter_present_fins (qs : list Qc) :
  filter (λ x, is_nan x = false) (map Fin qs) = map Fin qs.
Proof.
  induction qs as [|q qs IH]; [done|].
  simpl map. rewrite filter_cons.
  destruct (decide (is_nan (Fin q) = false)) as [_|]; [|done].
  by rewrite IH.
Qed.

Lemma Qc_length_nonzero {A} (l : list A) : l ≠ [] → Qc_length l ≠ Q2Qc 0.
Proof.
  unfold Qc_length. destruct l as [|x l]; [done|]. intros _ Heq.
  apply Q2Qc_eq_iff in Heq. unfold Qeq in Heq. simpl in Heq. lia.
Qed.

Lemma nanmean_fins (qs : list Qc) :
  qs ≠ [] → nanmean (map Fin qs) = Fin (Qc_sum qs / Qc_length qs)%Qc.
Proof.
  intros Hne. unfold nanmean. rewrite filter_present_fins.
  destruct qs as [|q qs]; [done|].
  change (foldr fadd zero (map Fin (q :: qs))) with (nansum_all (q :: qs)).
  rewrite length_map.
  change (of_Z (Z.of_nat (length (q :: qs)))) with (Fin (Qc_length (q :: qs))).
  assert (nansum_all (q :: qs) = Fin (Qc_sum (q :: qs))) as ->.
  { unfold nansum_all. generalize (q :: qs). intros l.
    induction l as [|x l IH]; [done|]. simpl. by rewrite IH. }
  simpl map. by rewrite fdiv_fin by (by apply Qc_length_nonzero).
Qed.

Lemma finite_rational (x : fval) : is_finite x = true → x = Fin (rational x).
Proof. by destruct x. Qed.

Lemma nansum_finite {A} (g : A → fval) (l : list A) :
  (∀ x, x ∈ l → is_finite (g x) = true) →
  nansum (map g l) = Fin (Qc_sum (map (λ x, rational (g x)) l)).
Proof.
  intros Hfin. rewrite <- nansum_fins, map_map.
  f_equal. apply map_ext_elem_of. intros x Hx. by apply finite_rational, Hfin.
Qed.

Lemma Qc_sum_scale {A} (f : A → Qc) (m : Qc) (l : list A) :
  Qc_sum (map (λ x, f x * m)%Qc l) = (Qc_sum (map f l) * m)%Qc.
Proof.
  induction l as [|x l IH]; simpl.
  - by rewrite Qcmult_0_l.
  - fold (Qc_sum (map (λ x, f x * m)%Qc l)). fold (Qc_sum (map f l)).
    rewrite IH. ring.
Qed.

Lemma Qc_of_Z_plus (x y : Z) :
  Q2Qc (inject_Z (x + y)) = (Q2Qc (inject_Z x) + Q2Qc (inject_Z y))%Qc.
Proof.
  apply Qc_is_canon. simpl.
  rewrite !Qred_correct, inject_Z_plus. reflexivity.
Qed.

Lemma Qc_length_cons {A} (x : A) (l : list A) :
  Qc_length (x :: l) = (Qc_length l + Q2Qc 1)%Qc.
Proof.
  unfold Qc_length. simpl length. rewrite Nat2Z.inj_succ, <- Z.add_1_r.
  apply Qc_of_Z_plus.
Qed.

Lemma Qc_sum_const {A} (m : Qc) (l : list A) :
  Qc_sum (map (λ _, m) l) = (Qc_length l * m)%Qc.
Proof.
  induction l as [|x l IH].
  - simpl. unfold Qc_length. simpl. by rewrite Qcmult_0_l.
  - rewrite Qc_length_cons. simpl. fold (Qc_sum (map (λ _ : A, m) l)).
    rewrite IH. ring.
Qed.

Lemma Qc_length_nonneg {A} (l : list A) : (Q2Qc 0 <= Qc_length l)%Qc.
Proof.
  induction l as [|x l IH]; [done|].
  rewrite Qc_length_cons.
  replace (Q2Qc 0) with (Q2Qc 0 + Q2Qc 0)%Qc by ring.
  apply Qcplus_le_compat; [done|]. done.
Qed.

Lemma Qc_length_pos {A} (l : list A) : l ≠ [] → (Q2Qc 0 < Qc_length l)%Qc.
Proof.
  destruct l as [|x l]; [done|]. intros _.
  rewrite Qc_length_cons.
  apply Qcle_lt_trans with (Qc_length l + Q2Qc 0)%Qc.
  - rewrite Qcplus_0_r. apply Qc_length_nonneg.
  - apply Qcplus_lt_mono_l. done.
Qed.

Lemma Qc_sum_pos {A} (m : A → Qc) (l : list A) :
  l ≠ [] → (∀ x, x ∈ l → (Q2Qc 0 < m x)%Qc) → (Q2Qc 0 < Qc_sum (map m l))%Qc.
Proof.
  induction l as [|x l IH]; [done|]. intros _ Hpos. simpl.
  fold (Qc_sum (map m l)).
  destruct l as [|y l].
  - simpl. rewrite Qcplus_0_r. apply Hpos. by left.
  - apply Qclt_trans with (Q2Qc 0 + Qc_sum (map m (y :: l)))%Qc.
    + rewrite Qcplus_0_l. apply IH; [done|]. intros z Hz. apply Hpos. by right.
    + apply Qcplus_lt_mono_r. apply Hpos. by left.
Qed.

End SumFacts.

Section AggregatorFacts.

Import DataAggregator.

Implicit Types (df : DataFrame) (features : list string) (group : list Row).

Lemma weighted_cells_lookup df group total features acc c :
  weighted_cells df group total features acc !! c =
    if bool_decide (c ∈ features) && has_column df c
    then Some (weighted_value group total c)
    else acc !! c.
Proof.
  revert acc. induction features as [|f features IH]; intros acc; simpl; [done|].
  rewrite IH. destruct (decide (c = f)) as [->|Hne].
  - rewrite (bool_decide_eq_true_2 (f ∈ f :: features)) by (by left). simpl.
    destruct (has_column df f) eqn:Hf.
    + rewrite lookup_insert_eq. by destruct (bool_decide (f ∈ features)).
    + by rewrite andb_false_r.
  - assert (bool_decide (c ∈ f :: features) = bool_decide (c ∈ features)) as ->.
    { apply bool_decide_ext. rewrite elem_of_cons. by intuition. }
    destruct (bool_decide (c ∈ features) && has_column df c); [done|].
    destruct (has_column df f); [by rewrite lookup_insert_ne|done].
Qed.

Lemma mean_cells_lookup df group features acc c :
  mean_cells df group features acc !! c =
    if bool_decide (c ∈ features) && has_column df c
    then Some (nanmean (map (λ r, cell r c) group))
    else acc !! c.
Proof.
  revert acc. induction features as [|f features IH]; intros acc; simpl; [done|].
  rewrite IH. destruct (decide (c = f)) as [->|Hne].
  - rewrite (bool_decide_eq_true_2 (f ∈ f :: features)) by (by left). simpl.
    destruct (has_column df f) eqn:Hf.
    + rewrite lookup_insert_eq. by destruct (bool_decide (f ∈ features)).
    + by rewrite andb_false_r.
  - assert (bool_decide (c ∈ f :: features) = bool_decide (c ∈ features)) as ->.
    { apply bool_decide_ext. rewrite elem_of_cons. by intuition. }
    destruct (bool_decide (c ∈ features) && has_column df c); [done|].
    destruct (has_column df f); [by rewrite lookup_insert_ne|done].
Qed.

Lemma games_of_nonempty df p : p ∈ map player_feb_id (rows df) → games_of df p ≠ [].
Proof.
  intros Hp Hnil. apply elem_of_map in Hp as (r & -> & Hr).
  assert (Hin : r ∈ games_of df (player_feb_id r)).
  { unfold games_of. by apply list_elem_of_filter. }
  rewrite Hnil in Hin. by apply elem_of_nil in Hin.
Qed.

Lemma weighted_mean_ok df features p :
  games_of df p ≠ [] →
  weighted_mean df features p (games_of df p) = Ok (weighted_row df features p).
Proof.
  intros Hne. unfold weighted_mean, weighted_row.
  destruct (games_of df p) as [|r group]; [done|]. done.
Qed.

Lemma for_each_group_keys (f : Z → list Row → result AggRow)
    (g : Z → AggRow) df (keys : list Z) :
  (∀ p, p ∈ keys → f p (games_of df p) = Ok (g p)) →
  for_each_group f (map (λ p, (p, filter (λ r, player_feb_id r = p) (rows df))) keys)
    = Ok (map g keys).
Proof.
  induction keys as [|p keys IH]; intros Hf; simpl; [done|].
  change (filter (λ r, player_feb_id r = p) (rows df)) with (games_of df p).
  rewrite Hf by (by left). step_result.
  rewrite IH by (intros q Hq; apply Hf; by right). done.
Qed.

Lemma aggregate_weighted_ok df features :
  has_column df "minutes_played" = true →
  aggregate_by_player df features true =
    Ok (mkAggFrame (aggregated_labels df features)
          (map (weighted_row df features)
               (group_keys (map player_feb_id (rows df))))).
Proof.
  intros Hmp. unfold aggregate_by_player, groupby_player. rewrite Hmp. simpl.
  rewrite (for_each_group_keys _ (weighted_row df features)); [done|].
  intros p Hp. apply weighted_mean_ok, games_of_nonempty.
  by apply elem_of_group_keys.
Qed.

Lemma aggregate_simple_ok df features :
  aggregate_by_player df features false =
    Ok (mkAggFrame (aggregated_labels df features)
          (map (simple_row df features)
               (group_keys (map player_feb_id (rows df))))).
Proof.
  unfold aggregate_by_player, groupby_player. simpl.
  rewrite (for_each_group_keys _ (simple_row df features)); [done|].
  intros p Hp. done.
Qed.

Lemma weighted_row_minutes df features p :
  agg_cell (weighted_row df features p) "minutes_played" =
    nansum (map (λ r, cell r "minutes_played") (games_of df p)).
Proof. unfold agg_cell, weighted_row. simpl. by rewrite lookup_insert_eq. Qed.

Lemma weighted_row_feature df features p c :
  c ∈ features → has_column df c = true → c ≠ "minutes_played" →
  agg_cell (weighted_row df features p) c =
    fdiv (nansum (map (λ r, fmul (cell r c) (cell r "minutes_played")) (games_of df p)))
         (nansum (map (λ r, cell r "minutes_played") (games_of df p))).
Proof.
  intros Hc Hcol Hne. unfold agg_cell, weighted_row. simpl.
  rewrite lookup_insert_ne by done.
  rewrite weighted_cells_lookup, Hcol, (bool_decide_eq_true_2 _ Hc). done.
Qed.

Lemma simple_row_feature df features p c :
  c ∈ features → has_column df c = true → c ≠ "minutes_played" →
  agg_cell (simple_row df features p) c =
    nanmean (map (λ r, cell r c) (games_of df p)).
Proof.
  intros Hc Hcol Hne. unfold agg_cell, simple_row. simpl.
  assert (Hlook : mean_cells df (games_of df p) features ∅ !! c =
                  Some (nanmean (map (λ r, cell r c) (games_of df p)))).
  { rewrite mean_cells_lookup, Hcol, (bool_decide_eq_true_2 _ Hc). done. }
  destruct (has_column df "minutes_played").
  - rewrite lookup_insert_ne by done. by rewrite Hlook.
  - by rewrite Hlook.
Qed.

End AggregatorFacts.

Section AggregatorClaims.

Import DataAggregator.

Implicit Types (df : DataFrame) (features : list string).

Lemma aggregated_players df features (g : DataFrame → list string → Z → AggRow) :
  (∀ p, agg_player_feb_id (g df features p) = p) →
  map agg_player_feb_id
      (map (g df features) (group_keys (map player_feb_id (rows df))))
    = group_keys (map player_feb_id (rows df)).
Proof.
  intros Hg. rewrite map_map. rewrite <- (map_id (group_keys _)) at 2.
  apply map_ext. intros p. apply Hg.
Qed.

Lemma weighted_products_finite (games : list Row) c :
  (∀ r, r ∈ games → is_finite (cell r "minutes_played") = true) →
  (∀ r, r ∈ games → is_finite (cell r c) = true) →
  nansum (map (λ r, fmul (cell r c) (cell r "minutes_played")) games) =
    Fin (Qc_sum (map (λ r, rational (cell r c) * rational (cell r "minutes_played"))%Qc
                     games)).
Proof.
  intros Hm Hc. rewrite nansum_finite.
  - f_equal. f_equal. apply map_ext_elem_of. intros r Hr.
    rewrite (finite_rational _ (Hm r Hr)), (finite_rational _ (Hc r Hr)). done.
  - intros r Hr.
    rewrite (finite_rational _ (Hm r Hr)), (finite_rational _ (Hc r Hr)). done.
Qed.

Lemma weighted_aggregate_rows df features :
  has_column df "minutes_played" = true →
  ∃ out,
    aggregate_by_player df features true = Ok out ∧
    NoDup (map agg_player_feb_id (agg_rows out)) ∧
    (∀ p, p ∈ map agg_player_feb_id (agg_rows out) ↔
          p ∈ map player_feb_id (rows df)) ∧
    ∀ row games, row ∈ agg_rows out →
      games = games_of df (agg_player_feb_id row) →
      (∀ r, r ∈ games → is_finite (cell r "minutes_played") = true) →
      let minutes := λ r, rational (cell r "minutes_played") in
      agg_cell row "minutes_played" = Fin (Qc_sum (map minutes games)) ∧
      ∀ c, c ∈ features → has_column df c = true → c ≠ "minutes_played" →
        (∀ r, r ∈ games → is_finite (cell r c) = true) →
        let value := λ r, rational (cell r c) in
        agg_cell row c =
          fdiv (Fin (Qc_sum (map (λ r, value r * minutes r)%Qc games)))
               (Fin (Qc_sum (map minutes games))) ∧
        (Qc_sum (map minutes games) ≠ Q2Qc 0 →
         agg_cell row c =
           Fin (Qc_sum (map (λ r, value r * minutes r) games)
                / Qc_sum (map minutes games))%Qc).
Proof.
  intros Hmp. rewrite (aggregate_weighted_ok _ _ Hmp).
  eexists. split; [reflexivity|]. simpl.
  rewrite (aggregated_players df features weighted_row) by done.
  split; [apply NoDup_group_keys|]. split; [intros p; apply elem_of_group_keys|].
  intros row games Hrow -> Hfin.
  apply elem_of_map in Hrow as (p & -> & _). simpl in *.
  split.
  { rewrite weighted_row_minutes. by apply nansum_finite. }
  intros c Hc Hcol Hne Hfinc.
  assert (Hvalue :
    agg_cell (weighted_row df features p) c =
      fdiv (Fin (Qc_sum (map (λ r, rational (cell r c)
                                   * rational (cell r "minutes_played"))%Qc
                             (games_of df p))))
           (Fin (Qc_sum (map (λ r, rational (cell r "minutes_played"))
                             (games_of df p))))).
  { rewrite weighted_row_feature by done.
    rewrite weighted_products_finite by done.
    by rewrite (nansum_finite (λ r, cell r "minutes_played")). }
  split; [exact Hvalue|].
  intros Hnz. rewrite Hvalue. by apply fdiv_fin.
Qed.

(** C2.  In weighted mode (the table has a [minutes_played] column)
    the aggregated table has exactly one row per distinct player id;
    for a player whose games have minutes [m_i] and values [f_i] of a
    feature, the row holds [Σ m_i] as [minutes_played] and
    [Σ (f_i * m_i) / Σ m_i] for the feature. *)
Theorem weighted_aggregate_is_minutes_weighted_mean df features :
  has_column df "minutes_played" = true →
  ∃ out,
    aggregate_by_player df features true = Ok out ∧
    NoDup (map agg_player_feb_id (agg_rows out)) ∧
    (∀ p, p ∈ map agg_player_feb_id (agg_rows out) ↔
          p ∈ map player_feb_id (rows df)) ∧
    ∀ row games, row ∈ agg_rows out →
      games = games_of df (agg_player_feb_id row) →
      (∀ r, r ∈ games → is_finite (cell r "minutes_played") = true) →
      let minutes := λ r, rational (cell r "minutes_played") in
      agg_cell row "minutes_played" = Fin (Qc_sum (map minutes games)) ∧
      ∀ c, c ∈ features → has_column df c = true → c ≠ "minutes_played" →
        (∀ r, r ∈ games → is_finite (cell r c) = true) →
        let value := λ r, rational (cell r c) in
        agg_cell row c =
          fdiv (Fin (Qc_sum (map (λ r, value r * minutes r)%Qc games)))
               (Fin (Qc_sum (map minutes games))) ∧
        (Qc_sum (map minutes games) ≠ Q2Qc 0 →
         agg_cell row c =
           Fin (Qc_sum (map (λ r, value r * minutes r) games)
                / Qc_sum (map minutes games))%Qc).
Proof. apply weighted_aggregate_rows. Qed.

(** The division by the total minutes, player by player. *)
Lemma weighted_division_by_total_minutes df features :
  has_column df "minutes_played" = true →
  ∃ out,
    aggregate_by_player df features true = Ok out ∧
    ∀ row games, row ∈ agg_rows out →
      games = games_of df (agg_player_feb_id row) →
      games ≠ [] ∧
      ∀ c, c ∈ features → has_column df c = true → c ≠ "minutes_played" →
        (∀ r, r ∈ games → is_finite (cell r c) = true) →
        ((∀ r, r ∈ games → cell r "minutes_played" = zero) →
           agg_cell row c = NaN) ∧
        ((∀ r, r ∈ games →
             ∃ m, cell r "minutes_played" = Fin m ∧ (Q2Qc 0 < m)%Qc) →
           ∃ total q,
             agg_cell row "minutes_played" = Fin total ∧ (Q2Qc 0 < total)%Qc ∧
             agg_cell row c = Fin q).
Proof.
  intros Hmp.
  destruct (weighted_aggregate_rows df features Hmp)
    as (out & Hout & _ & Hplayers & Hrows).
  exists out. split; [exact Hout|].
  intros row games Hrow ->.
  assert (Hne : games_of df (agg_player_feb_id row) ≠ []).
  { apply games_of_nonempty, Hplayers, elem_of_map. by exists row. }
  split; [exact Hne|].
  intros c Hc Hcol Hnemp Hfinc. split.
  - intros Hzero.
    destruct (Hrows row _ Hrow eq_refl) as [_ Hfeat].
    { intros r Hr. by rewrite (Hzero r Hr). }
    destruct (Hfeat c Hc Hcol Hnemp Hfinc) as [-> _].
    assert (Hsum0 : Qc_sum (map (λ r, rational (cell r "minutes_played"))
                                (games_of df (agg_player_feb_id row))) = Q2Qc 0).
    { rewrite (map_ext_elem_of _ (λ _, Q2Qc 0)).
      - rewrite Qc_sum_const. ring.
      - intros r Hr. by rewrite (Hzero r Hr). }
    assert (Hprod0 : Qc_sum (map (λ r, rational (cell r c)
                                       * rational (cell r "minutes_played"))%Qc
                                 (games_of df (agg_player_feb_id row))) = Q2Qc 0).
    { rewrite (map_ext_elem_of _ (λ r, rational (cell r c) * Q2Qc 0)%Qc).
      - rewrite Qc_sum_scale. ring.
      - intros r Hr. by rewrite (Hzero r Hr). }
    by rewrite Hsum0, Hprod0.
  - intros Hpos.
    destruct (Hrows row _ Hrow eq_refl) as [Hmin Hfeat].
    { intros r Hr. by destruct (Hpos r Hr) as (m & -> & _). }
    destruct (Hfeat c Hc Hcol Hnemp Hfinc) as [_ Hq].
    assert (Htotal : (Q2Qc 0 < Qc_sum (map (λ r, rational (cell r "minutes_played"))
                                       (games_of df (agg_player_feb_id row))))%Qc).
    { apply Qc_sum_pos; [exact Hne|].
      intros r Hr. by destruct (Hpos r Hr) as (m & -> & Hm). }
    eexists. eexists. split; [exact Hmin|]. split; [exact Htotal|].
    apply Hq. by apply Qc_pos_nonzero.
Qed.

(** What [filter_by_minutes] with the default threshold leaves, once
    the seconds are converted: positive minutes in every row. *)
Lemma positive_minutes_after_filter (raw df1 df2 : DataFrame) :
  DataCleaner.filter_by_minutes raw Config.MIN_MINUTES_THRESHOLD = Ok df1 →
  FeatureEngineer.convert_seconds_to_minutes df1 = Ok df2 →
  ∀ r, r ∈ rows df2 → is_inf (cell r "minutes") = false →
       ∃ m, cell r "minutes_played" = Fin m ∧ (Q2Qc 0 < m)%Qc.
Proof.
  unfold DataCleaner.filter_by_minutes, FeatureEngineer.convert_seconds_to_minutes,
    column.
  destruct (has_column raw "minutes"); [|done]. step_result.
  intros [= <-]. simpl. destruct (has_column _ "minutes"); [|done].
  intros [= <-]. simpl. intros r Hr.
  apply elem_of_map in Hr as (r1 & -> & Hr1).
  apply list_elem_of_filter in Hr1 as [Hpos _].
  rewrite cell_set_cell_eq, cell_set_cell_ne by discriminate.
  destruct (cell r1 "minutes") as [m| | |]; try done. intros _.
  apply (fgt_zero_fin m) in Hpos.
  exists (m / Q2Qc (inject_Z 60))%Qc. split.
  - apply fdiv_fin. intros Hsixty. apply (f_equal this) in Hsixty.
    discriminate Hsixty.
  - unfold Qcdiv. apply Qcmult_pos_pos; [done|]. by apply Qcinv_pos.
Qed.

(** C10.  The weighted mode divides by the player's total minutes with
    no guard: a player whose games all have zero minutes gets [NaN].
    When every game of the player has positive minutes, which is what
    [filter_by_minutes] leaves, the total is positive and every
    aggregated feature with finite game values is a finite number. *)
Theorem weighted_division_is_safe_on_positive_minutes :
  (∀ raw df1 df2 : DataFrame,
     DataCleaner.filter_by_minutes raw Config.MIN_MINUTES_THRESHOLD = Ok df1 →
     FeatureEngineer.convert_seconds_to_minutes df1 = Ok df2 →
     ∀ r, r ∈ rows df2 → is_inf (cell r "minutes") = false →
          ∃ m, cell r "minutes_played" = Fin m ∧ (Q2Qc 0 < m)%Qc) ∧
  (∀ df features,
     has_column df "minutes_played" = true →
     ∃ out,
       aggregate_by_player df features true = Ok out ∧
       ∀ row games, row ∈ agg_rows out →
         games = games_of df (agg_player_feb_id row) →
         games ≠ [] ∧
         ∀ c, c ∈ features → has_column df c = true → c ≠ "minutes_played" →
           (∀ r, r ∈ games → is_finite (cell r c) = true) →
           ((∀ r, r ∈ games → cell r "minutes_played" = zero) →
              agg_cell row c = NaN) ∧
           ((∀ r, r ∈ games →
                ∃ m, cell r "minutes_played" = Fin m ∧ (Q2Qc 0 < m)%Qc) →
              ∃ total q,
                agg_cell row "minutes_played" = Fin total ∧ (Q2Qc 0 < total)%Qc ∧
                agg_cell row c = Fin q)).
Proof.
  split; [exact positive_minutes_after_filter|].
  exact weighted_division_by_total_minutes.
Qed.

End AggregatorClaims.

Section EqualMinutes.

Import DataAggregator.

Implicit Types (df : DataFrame) (features : list string).

Lemma nanmean_finite {A} (g : A → fval) (l : list A) :
  l ≠ [] → (∀ x, x ∈ l → is_finite (g x) = true) →
  nanmean (map g l) =
    Fin (Qc_sum (map (λ x, rational (g x)) l) / Qc_length l)%Qc.
Proof.
  intros Hne Hfin.
  rewrite (map_ext_elem_of g (λ x, Fin (rational (g x))))
    by (intros x Hx; by apply finite_rational, Hfin).
  rewrite <- (map_map (λ x, rational (g x)) Fin).
  rewrite nanmean_fins by (by destruct l).
  unfold Qc_length. by rewrite length_map.
Qed.




End EqualMinutes.

Example sample_season_weighted :
  (ratings <$> DataAggregator.aggregate_by_player sample_season ["oer"] true) =
    Ok [(1, of_Z 30, of_Z 110); (2, of_Z 30, of_Z 90)].
Proof. by_computation. Qed.

Example sample_even_season_both_modes :
  (ratings <$> DataAggregator.aggregate_by_player sample_even_season ["oer"] true) =
    Ok [(1, of_Z 30, of_Z 115); (2, of_Z 15, of_Z 90)] ∧
  (ratings <$> DataAggregator.aggregate_by_player sample_even_season ["oer"] false) =
    Ok [(1, of_Z 30, of_Z 115); (2, of_Z 15, of_Z 90)].
Proof. split; by_computation. Qed.

Lemma weighted_aggregate_witness :
  has_column sample_season "minutes_played" = true ∧
  ∃ out,
    DataAggregator.aggregate_by_player sample_season ["oer"] true = Ok out ∧
    NoDup (map DataAggregator.agg_player_feb_id (DataAggregator.agg_rows out)) ∧
    ∀ p, p ∈ map DataAggregator.agg_player_feb_id (DataAggregator.agg_rows out) ↔
         p ∈ map player_feb_id (rows sample_season).
Proof.
  split; [reflexivity|].
  destruct (weighted_aggregate_is_minutes_weighted_mean sample_season ["oer"] eq_refl)
    as (out & Hout & Hnodup & Hplayers & _).
  exists out. split; [exact Hout|]. split; [exact Hnodup|exact Hplayers].
Defined.

Lemma weighted_division_witness :
  has_column sample_season "minutes_played" = true ∧
  ∃ out,
    DataAggregator.aggregate_by_player sample_season ["oer"] true = Ok out ∧
    ∀ row, row ∈ DataAggregator.agg_rows out →
      games_of sample_season (DataAggregator.agg_player_feb_id row) ≠ [].
Proof.
  split; [reflexivity|].
  destruct (proj2 weighted_division_is_safe_on_positive_minutes
              sample_season ["oer"] eq_refl)
    as (out & Hout & Hrows).
  exists out. split; [exact Hout|].
  intros row Hrow. exact (proj1 (Hrows row _ Hrow eq_refl)).
Defined.


(** ** The games-played filter *)

Section GamesPlayedFilter.

Import DataCleaner.

Lemma filter_ext_elem_of {A} (P Q : A → Prop)
    `{!∀ x, Decision (P x), !∀ x, Decision (Q x)} (l : list A) :
  (∀ x, x ∈ l → P x ↔ Q x) → filter P l = filter Q l.
Proof.
  induction l as [|a l IH]; intros HPQ; [done|].
  assert (filter P l = filter Q l) as IH'.
  { apply IH. intros x Hx. apply HPQ. by right. }
  destruct (decide (P a)) as [HP|HP].
  - rewrite !filter_cons_True; [by rewrite IH'|by apply HPQ; [left|]|done].
  - rewrite !filter_cons_False; [done| |done].
    intros HQ. apply HP, HPQ; [by left|done].
Qed.

Lemma elem_of_valid_players df (k p : Z) :
  p ∈ map fst (filter (λ e : Z * Z, (k ≤ snd e)%Z) (games_per_player df)) ↔
  p ∈ players_of df ∧ (k ≤ games_played df p)%Z.
Proof.
  unfold games_per_player, players_of, games_played, games_of.
  rewrite elem_of_map. split.
  - intros ([q n] & -> & Hin). apply list_elem_of_filter in Hin as [Hle Hin].
    apply elem_of_map in Hin as (q' & [= -> ->] & Hq'). simpl in *.
    split; [by apply elem_of_group_keys|done].
  - intros [Hp Hle]. eexists (p, _). split; [done|].
    apply list_elem_of_filter. split; [exact Hle|].
    apply elem_of_map. exists p. split; [done|]. by apply elem_of_group_keys.
Qed.

Lemma filter_by_games_played_rows df (k : Z) :
  rows (filter_by_games_played df k) =
    filter (λ r, (k ≤ games_played df (player_feb_id r))%Z) (rows df).
Proof.
  unfold filter_by_games_played, select. simpl.
  apply filter_ext_elem_of. intros r Hr.
  rewrite bool_decide_eq_true, elem_of_valid_players. split; [by intros [_ ?]|].
  intros Hle. split; [|done]. apply elem_of_map. by exists r.
Qed.

Lemma filter_by_games_played_columns df (k : Z) :
  columns (filter_by_games_played df k) = columns df.
Proof. done. Qed.

Lemma elem_of_filtered_players df (k p : Z) :
  p ∈ players_of (filter_by_games_played df k) ↔
  p ∈ players_of df ∧ (k ≤ games_played df p)%Z.
Proof.
  unfold players_of. rewrite filter_by_games_played_rows, !elem_of_map. split.
  - intros (r & -> & Hr). apply list_elem_of_filter in Hr as [Hle Hr].
    split; [by exists r|done].
  - intros [(r & -> & Hr) Hle]. exists r. split; [done|].
    by apply list_elem_of_filter.
Qed.

End GamesPlayedFilter.

(** ** Feature engineering keeps the rows of the players *)

Section PreservesPlayers.

Import FeatureEngineer.

Lemma preserves_players_bind (f g : DataFrame → result DataFrame) :
  preserves_players f → preserves_players g →
  preserves_players (λ df, f df ≫= g).
Proof.
  intros Hf Hg df df' Hstep. step_result.
  destruct (f df) as [df1|] eqn:Hf1; [|done].
  rewrite (Hg _ _ Hstep). by apply Hf.
Qed.

Lemma preserves_players_ok : preserves_players Ok.
Proof. by intros df df' [= <-]. Qed.

Lemma assign_players c f df : players_of (assign c f df) = players_of df.
Proof. unfold players_of, assign. simpl. by rewrite map_map. Qed.

Ltac column_step :=
  intros df df'; unfold column;
  repeat (match goal with
          | |- context [if has_column ?d ?c then Ok _ else Raise _] =>
              destruct (has_column d c)
          end; step_result; try discriminate);
  intros [= <-]; rewrite ?assign_players; try done.

Lemma convert_seconds_to_minutes_players :
  preserves_players convert_seconds_to_minutes.
Proof. unfold convert_seconds_to_minutes. column_step. Qed.

Lemma normalize_per_minutes_players stats target :
  preserves_players (λ df, normalize_per_minutes df stats target).
Proof.
  induction stats as [|stat stats IH]; intros df df'; simpl.
  - by intros [= <-].
  - destruct (has_column df stat); [|apply IH].
    unfold column. destruct (has_column df "minutes_played"); [|done].
    step_result. intros Hrest. rewrite (IH _ _ Hrest). apply assign_players.
Qed.

Lemma guarded_ratio_players target num den :
  preserves_players (guarded_ratio target num den).
Proof. unfold guarded_ratio. column_step. Qed.

Lemma calculate_shooting_percentages_players :
  preserves_players calculate_shooting_percentages.
Proof.
  unfold calculate_shooting_percentages.
  repeat apply preserves_players_bind; apply guarded_ratio_players.
Qed.

Lemma calculate_usage_rates_players : preserves_players calculate_usage_rates.
Proof.
  unfold calculate_usage_rates.
  repeat apply preserves_players_bind; apply guarded_ratio_players.
Qed.

Lemma calculate_zone_stats_players pct freq made attempted :
  preserves_players (calculate_zone_stats pct freq made attempted).
Proof.
  intros df df'. unfold calculate_zone_stats.
  destruct (check_columns df made) as [[]|]; [|done].
  destruct (check_columns df attempted) as [[]|]; [|done].
  step_result.
  destruct (bool_decide ("fga" ∈ add_label pct (columns df))); [|done].
  intros [= <-]. unfold players_of. simpl. by rewrite map_map.
Qed.

Lemma calculate_possessions_players : preserves_players calculate_possessions.
Proof. unfold calculate_possessions. column_step. Qed.

Lemma calculate_oer_players : preserves_players calculate_oer.
Proof. unfold calculate_oer. column_step. Qed.

Lemma calculate_true_shooting_pct_players :
  preserves_players calculate_true_shooting_pct.
Proof. unfold calculate_true_shooting_pct. column_step. Qed.

Lemma calculate_der_players : preserves_players calculate_der.
Proof. unfold calculate_der. column_step. Qed.

Lemma apply_all_transformations_players stats im ia em ea target :
  preserves_players
    (λ df, apply_all_transformations df stats im ia em ea target).
Proof.
  unfold apply_all_transformations.
  apply preserves_players_bind; [apply convert_seconds_to_minutes_players|].
  apply preserves_players_bind; [apply normalize_per_minutes_players|].
  apply preserves_players_bind; [apply calculate_shooting_percentages_players|].
  apply preserves_players_bind; [apply calculate_usage_rates_players|].
  apply preserves_players_bind; [apply calculate_zone_stats_players|].
  apply preserves_players_bind.
  { destruct (nonempty em && nonempty ea);
      [apply calculate_zone_stats_players|apply preserves_players_ok]. }
  apply preserves_players_bind; [apply calculate_possessions_players|].
  apply preserves_players_bind; [apply calculate_oer_players|].
  apply preserves_players_bind; [apply calculate_true_shooting_pct_players|].
  intros df df'.
  destruct (has_column df "opponent_possessions" && has_column df "opponent_pts");
    [apply calculate_der_players|apply preserves_players_ok].
Qed.

End PreservesPlayers.

(** ** Opponent resolution *)

Section OpponentFacts.

Import ETLPipeline.

Lemma links_of_match_pair (match_id : Z) (a b : TeamStats.t) :
  links_of_match match_id [a; b] [a; b] =
    if decide (TeamStats.team_feb_id a = TeamStats.team_feb_id b)
    then Raise IndexError
    else Ok (pair_links match_id a b).
Proof.
  unfold links_of_match.
  rewrite !filter_cons, !filter_nil.
  repeat case_decide; try congruence; done.
Qed.

Lemma links_of_matches_cons df_teams match_id rest :
  links_of_matches df_teams (match_id :: rest) =
    (found ← match_links df_teams match_id;
     others ← links_of_matches df_teams rest;
     Ok (found ++ others)).
Proof.
  simpl. unfold match_links, teams_of_match.
  destruct (filter (λ o, TeamStats.match_feb_id o = match_id) df_teams)
    as [|a [|b [|c l]]] eqn:Hteams; try done.
  rewrite bool_decide_eq_true_2 by done.
  by rewrite links_of_match_pair.
Qed.

Lemma match_links_keys df_teams match_id found :
  match_links df_teams match_id = Ok found →
  NoDup (map link_key found) ∧
  ∀ l, l ∈ found → link_match_feb_id l = match_id.
Proof.
  unfold match_links.
  destruct (teams_of_match df_teams match_id) as [|a [|b [|c l]]];
    try (intros [= <-]; split; [constructor|by intros l' ?%elem_of_nil]).
  destruct (decide _) as [|Hne]; [done|].
  intros [= <-]. split.
  - simpl. unfold link_key. simpl. apply NoDup_cons. split.
    + intros Hin%list_elem_of_singleton. by injection Hin.
    + apply NoDup_singleton.
  - intros l Hl. unfold pair_links in Hl.
    apply elem_of_cons in Hl as [->|Hl]; [done|].
    apply list_elem_of_singleton in Hl as ->. done.
Qed.

Lemma links_of_matches_keys df_teams match_ids links :
  NoDup match_ids →
  links_of_matches df_teams match_ids = Ok links →
  NoDup (map link_key links) ∧
  ∀ l, l ∈ links → link_match_feb_id l ∈ match_ids.
Proof.
  revert links. induction match_ids as [|m rest IH]; intros links Hnodup.
  - intros [= <-]. split; [constructor|by intros l ?%elem_of_nil].
  - rewrite links_of_matches_cons. step_result.
    destruct (match_links df_teams m) as [found|] eqn:Hfound; [|done].
    destruct (links_of_matches df_teams rest) as [others|] eqn:Hothers; [|done].
    intros [= <-].
    apply NoDup_cons in Hnodup as [Hm Hrest].
    destruct (match_links_keys _ _ _ Hfound) as [Hfk Hfm].
    destruct (IH others Hrest eq_refl) as [Hok Hom].
    split.
    + rewrite map_app. apply NoDup_app. split; [done|]. split; [|done].
      intros key Hkf Hko.
      apply elem_of_map in Hkf as (l1 & -> & Hl1).
      apply elem_of_map in Hko as (l2 & Hkey & Hl2).
      apply Hm. rewrite <- (Hfm l1 Hl1).
      unfold link_key in Hkey. injection Hkey as -> _. by apply Hom.
    + intros l Hl. apply elem_of_app in Hl as [Hl|Hl].
      * rewrite (Hfm l Hl). by left.
      * right. by apply Hom.
Qed.

Lemma opponent_data_keys df df_teams links :
  opponent_data df df_teams = Ok links → NoDup (map link_key links).
Proof.
  unfold opponent_data. intros Hlinks.
  by destruct (links_of_matches_keys _ _ _ (NoDup_unique _) Hlinks).
Qed.

Lemma unique_key_matches_once links (r : Row) :
  NoDup (map link_key links) →
  (length (filter (link_matches r) links) ≤ 1)%nat.
Proof.
  induction links as [|l links IH]; intros Hnodup; [simpl; lia|].
  simpl in Hnodup. apply NoDup_cons in Hnodup as [Hl Hrest].
  destruct (decide (link_matches r l)) as [Hmatch|Hmatch].
  - rewrite filter_cons_True by done.
    assert (filter (link_matches r) links = []) as ->; [|simpl; lia].
    apply elem_of_nil_inv. intros l' Hl'.
    apply list_elem_of_filter in Hl' as [Hmatch' Hin].
    apply Hl. apply elem_of_map. exists l'. split; [|done].
    unfold link_key. destruct Hmatch as [-> ->], Hmatch' as [-> ->]. done.
  - rewrite filter_cons_False by done. by apply IH.
Qed.

Lemma join_row_joined links (r : Row) :
  NoDup (map link_key links) → join_row links r = [joined links r].
Proof.
  intros Hnodup. unfold join_row, joined.
  pose proof (unique_key_matches_once links r Hnodup) as Hlen.
  destruct (filter (link_matches r) links) as [|l [|l' rest]]; try done.
  simpl in Hlen. lia.
Qed.

Lemma merge_opponents_rows df links df' :
  NoDup (map link_key links) →
  merge_opponents df links = Ok df' →
  links ≠ [] ∧ rows df' = map (joined links) (rows df).
Proof.
  intros Hnodup. unfold merge_opponents.
  destruct links as [|l links]; [done|]. intros [= <-]. split; [done|].
  simpl rows. generalize (l :: links) Hnodup. clear. intros links Hnodup.
  induction (rows df) as [|r rs IH]; [done|].
  simpl. rewrite join_row_joined by done. simpl. by rewrite IH.
Qed.

Lemma joined_player links (r : Row) :
  player_feb_id (joined links r) = player_feb_id r.
Proof. unfold joined. by destruct (filter _ links). Qed.

End OpponentFacts.

(** ** Whether feature engineering succeeds depends on the columns only *)

Section ColumnsDetermined.

Import FeatureEngineer.

Lemma columns_determined_bind (f g : DataFrame → result DataFrame) :
  columns_determined f → columns_determined g →
  columns_determined (λ df, f df ≫= g).
Proof.
  intros Hf Hg df1 df2 Hcols. specialize (Hf df1 df2 Hcols).
  unfold same_outcome in *. step_result.
  destruct (f df1) as [a|e1], (f df2) as [b|e2]; try done.
  by apply Hg.
Qed.

Lemma columns_determined_ok : columns_determined Ok.
Proof. by intros df1 df2 Hcols. Qed.

Lemma has_column_same df1 df2 c :
  columns df1 = columns df2 → has_column df1 c = has_column df2 c.
Proof. unfold has_column. by intros ->. Qed.

Lemma assign_columns_same c f g df1 df2 :
  columns df1 = columns df2 →
  columns (assign c f df1) = columns (assign c g df2).
Proof. intros Hcols. unfold assign. simpl. by rewrite Hcols. Qed.

Lemma check_columns_same df1 df2 labels :
  columns df1 = columns df2 → check_columns df1 labels = check_columns df2 labels.
Proof.
  intros Hcols. induction labels as [|c labels IH]; [done|]. simpl.
  rewrite (has_column_same _ _ c Hcols). by rewrite IH.
Qed.

Ltac columns_step :=
  intros df1 df2 Hcols; unfold same_outcome, column;
  repeat (match goal with
          | |- context [if has_column df1 ?c then Ok _ else Raise _] =>
              rewrite (has_column_same df1 df2 c Hcols);
              destruct (has_column df2 c)
          end; step_result; try done);
  unfold assign; simpl; by rewrite Hcols.

Lemma convert_seconds_to_minutes_columns :
  columns_determined convert_seconds_to_minutes.
Proof. unfold convert_seconds_to_minutes. columns_step. Qed.

Lemma normalize_per_minutes_columns stats target :
  columns_determined (λ df, normalize_per_minutes df stats target).
Proof.
  induction stats as [|stat stats IH]; intros df1 df2 Hcols; simpl; [done|].
  rewrite (has_column_same _ _ stat Hcols).
  destruct (has_column df2 stat); [|by apply IH].
  unfold column. rewrite (has_column_same _ _ "minutes_played" Hcols).
  destruct (has_column df2 "minutes_played"); [|done].
  step_result. apply IH. unfold assign. simpl. by rewrite Hcols.
Qed.

Lemma guarded_ratio_columns target num den :
  columns_determined (guarded_ratio target num den).
Proof. unfold guarded_ratio. columns_step. Qed.

Lemma calculate_zone_stats_columns pct freq made attempted :
  columns_determined (calculate_zone_stats pct freq made attempted).
Proof.
  intros df1 df2 Hcols. unfold same_outcome, calculate_zone_stats.
  rewrite (check_columns_same _ _ made Hcols),
    (check_columns_same _ _ attempted Hcols).
  destruct (check_columns df2 made) as [[]|]; [|done].
  destruct (check_columns df2 attempted) as [[]|]; [|done].
  step_result. rewrite Hcols.
  destruct (bool_decide ("fga" ∈ add_label pct (columns df2))); [|done].
  simpl. done.
Qed.

Lemma apply_all_transformations_columns stats im ia em ea target :
  columns_determined
    (λ df, apply_all_transformations df stats im ia em ea target).
Proof.
  unfold apply_all_transformations.
  apply columns_determined_bind; [apply convert_seconds_to_minutes_columns|].
  apply columns_determined_bind; [apply normalize_per_minutes_columns|].
  apply columns_determined_bind.
  { unfold calculate_shooting_percentages.
    repeat apply columns_determined_bind; apply guarded_ratio_columns. }
  apply columns_determined_bind.
  { unfold calculate_usage_rates.
    repeat apply columns_determined_bind; apply guarded_ratio_columns. }
  apply columns_determined_bind; [apply calculate_zone_stats_columns|].
  apply columns_determined_bind.
  { destruct (nonempty em && nonempty ea);
      [apply calculate_zone_stats_columns|apply columns_determined_ok]. }
  apply columns_determined_bind.
  { unfold calculate_possessions. columns_step. }
  apply columns_determined_bind.
  { unfold calculate_oer. columns_step. }
  apply columns_determined_bind.
  { unfold calculate_true_shooting_pct. columns_step. }
  intros df1 df2 Hcols.
  rewrite (has_column_same _ _ "opponent_possessions" Hcols),
    (has_column_same _ _ "opponent_pts" Hcols).
  destruct (has_column df2 "opponent_possessions" && has_column df2 "opponent_pts");
    [|done].
  revert df1 df2 Hcols. unfold calculate_der. columns_step.
Qed.

End ColumnsDetermined.

(** ** The threshold on games played, through the pipeline *)

Section ThresholdThroughPipeline.

Import DataAggregator ETLPipeline.

Lemma aggregate_by_player_players df features weighted out :
  aggregate_by_player df features weighted = Ok out →
  aggregated_players_of out = group_keys (players_of df).
Proof.
  unfold aggregated_players_of, players_of.
  destruct weighted, (has_column df "minutes_played") eqn:Hmp.
  - rewrite (aggregate_weighted_ok _ _ Hmp). intros [= <-]. simpl.
    by apply (aggregated_players df features weighted_row).
  - assert (aggregate_by_player df features true =
            aggregate_by_player df features false) as ->.
    { unfold aggregate_by_player. by rewrite Hmp. }
    rewrite aggregate_simple_ok. intros [= <-]. simpl.
    by apply (aggregated_players df features simple_row).
  - rewrite aggregate_simple_ok. intros [= <-]. simpl.
    by apply (aggregated_players df features simple_row).
  - rewrite aggregate_simple_ok. intros [= <-]. simpl.
    by apply (aggregated_players df features simple_row).
Qed.

Lemma aggregate_by_player_total df features weighted :
  ∃ out, aggregate_by_player df features weighted = Ok out.
Proof.
  destruct weighted, (has_column df "minutes_played") eqn:Hmp.
  - rewrite (aggregate_weighted_ok _ _ Hmp). by eexists.
  - assert (aggregate_by_player df features true =
            aggregate_by_player df features false) as ->.
    { unfold aggregate_by_player. by rewrite Hmp. }
    rewrite aggregate_simple_ok. by eexists.
  - rewrite aggregate_simple_ok. by eexists.
  - rewrite aggregate_simple_ok. by eexists.
Qed.

Lemma games_played_map (h : Row → Row) (df df' : DataFrame) (p : Z) :
  (∀ r, player_feb_id (h r) = player_feb_id r) →
  rows df' = map h (rows df) →
  games_played df' p = games_played df p ∧ players_of df' = players_of df.
Proof.
  intros Hh Hrows. unfold games_played, games_of, players_of. rewrite Hrows.
  split.
  - apply (f_equal Z.of_nat). clear Hrows.
    induction (rows df) as [|r rs IH]; [done|]. simpl map.
    rewrite !filter_cons, Hh.
    destruct (decide (player_feb_id r = p)); simpl; by rewrite IH.
  - rewrite map_map. apply map_ext. intros r. apply Hh.
Qed.

(** The stages of [enriched], one by one. *)
Lemma enriched_stages cfg df df_teams enr :
  enriched cfg df df_teams = Ok enr →
  ∃ links merged,
    opponent_data df df_teams = Ok links ∧
    merge_opponents df links = Ok merged ∧
    FeatureEngineer.apply_all_transformations
      (DataCleaner.filter_by_games_played merged (min_games_threshold cfg))
      (stats_to_normalize cfg)
      (interior_zones_made cfg) (interior_zones_attempted cfg)
      (exterior_zones_made cfg) (exterior_zones_attempted cfg)
      (minutes_normalization cfg) = Ok enr.
Proof.
  unfold enriched, mbind, result_bind.
  destruct (opponent_data df df_teams) as [links|]; [|done].
  destruct (merge_opponents df links) as [merged|] eqn:Hmerged; [|done].
  intros Henr. exists links, merged. split; [done|]. split; [done|]. exact Henr.
Qed.

Lemma enriched_players cfg df df_teams enr (p : Z) :
  enriched cfg df df_teams = Ok enr →
  p ∈ players_of enr ↔
  p ∈ players_of df ∧ (min_games_threshold cfg ≤ games_played df p)%Z.
Proof.
  intros Henr.
  destruct (enriched_stages _ _ _ _ Henr) as (links & merged & Hlinks & Hmerged & Hfe).
  apply apply_all_transformations_players in Hfe. rewrite Hfe.
  rewrite elem_of_filtered_players.
  destruct (merge_opponents_rows _ _ _ (opponent_data_keys _ _ _ Hlinks) Hmerged)
    as [_ Hrows].
  destruct (games_played_map (joined links) df merged p (joined_player links) Hrows)
    as [-> ->].
  done.
Qed.

Lemma enriched_any_threshold cfg df df_teams enr (k : Z) :
  enriched cfg df df_teams = Ok enr →
  ∃ enr', enriched (with_min_games k cfg) df df_teams = Ok enr'.
Proof.
  intros Henr.
  destruct (enriched_stages _ _ _ _ Henr) as (links & merged & Hlinks & Hmerged & Hfe).
  unfold enriched. rewrite Hlinks. step_result. rewrite Hmerged.
  pose proof (apply_all_transformations_columns
                (stats_to_normalize cfg)
                (interior_zones_made cfg) (interior_zones_attempted cfg)
                (exterior_zones_made cfg) (exterior_zones_attempted cfg)
                (minutes_normalization cfg)
                (DataCleaner.filter_by_games_played merged (min_games_threshold cfg))
                (DataCleaner.filter_by_games_played merged k) eq_refl) as Hsame.
  simpl in Hsame. rewrite Hfe in Hsame. unfold same_outcome in Hsame.
  destruct (FeatureEngineer.apply_all_transformations
              (DataCleaner.filter_by_games_played merged k) _ _ _ _ _ _)
    as [enr'|]; [by exists enr'|done].
Qed.

Lemma transform_aggregated_table sqrt_fn cfg scaler df df_teams scaler' out :
  transform sqrt_fn cfg scaler df df_teams = Ok (scaler', out) →
  aggregated cfg df df_teams = Ok (aggregated_table out) ∧
  map fst (player_info out) = aggregated_players_of (aggregated_table out).
Proof.
  unfold transform, aggregated, mbind, result_bind.
  destruct (enriched cfg df df_teams) as [enr|]; [|done].
  destruct (aggregate_by_player enr (features_to_aggregate cfg enr) true)
    as [agg|]; [|done].
  destruct (select_features agg (clustering_features cfg enr)) as [features|];
    [|done].
  destruct (DataScaler.fit_transform sqrt_fn scaler features
              (handle_infinity cfg) (fill_na_value cfg))
    as [[fitted [scaled clean]]|]; [|done].
  intros [= <- <-]. split; [done|]. simpl.
  unfold aggregated_players_of. by rewrite map_map.
Qed.

(** C3.  The filter keeps exactly the rows of the players with at least
    [min_games] game rows; since it runs before aggregation, a player is
    in the aggregated table (the one [transform] returns) exactly when
    the player reaches the threshold, and a run with the threshold set
    to the player's own number of games has the player. *)
Theorem games_played_threshold_decides_presence :
  (∀ df (k : Z),
     rows (DataCleaner.filter_by_games_played df k) =
       filter (λ r, (k ≤ games_played df (player_feb_id r))%Z) (rows df)) ∧
  (∀ cfg df df_teams out,
     aggregated cfg df df_teams = Ok out →
     ∀ p, p ∈ aggregated_players_of out ↔
          p ∈ players_of df ∧ (min_games_threshold cfg ≤ games_played df p)%Z) ∧
  (∀ sqrt_fn cfg scaler df df_teams scaler' out,
     transform sqrt_fn cfg scaler df df_teams = Ok (scaler', out) →
     ∀ p, p ∈ aggregated_players_of (aggregated_table out) ↔
          p ∈ players_of df ∧ (min_games_threshold cfg ≤ games_played df p)%Z) ∧
  (∀ cfg df df_teams out p,
     aggregated cfg df df_teams = Ok out →
     p ∈ players_of df →
     ∃ out',
       aggregated (with_min_games (games_played df p) cfg) df df_teams = Ok out' ∧
       p ∈ aggregated_players_of out').
Proof.
  split; [apply filter_by_games_played_rows|].
  assert (Hpresence : ∀ cfg df df_teams out,
            aggregated cfg df df_teams = Ok out →
            ∀ p, p ∈ aggregated_players_of out ↔
                 p ∈ players_of df ∧
                 (min_games_threshold cfg ≤ games_played df p)%Z).
  { intros cfg df df_teams out Hout p. unfold aggregated in Hout. step_result.
    destruct (enriched cfg df df_teams) as [enr|] eqn:Henr; [|done].
    rewrite (aggregate_by_player_players _ _ _ _ Hout), elem_of_group_keys.
    by apply (enriched_players _ _ df_teams). }
  split; [exact Hpresence|]. split.
  { intros sqrt_fn cfg scaler df df_teams scaler' out Hrun.
    apply transform_aggregated_table in Hrun as [Hagg _].
    by apply (Hpresence _ _ df_teams). }
  intros cfg df df_teams out p Hout Hp.
  unfold aggregated in Hout. step_result.
  destruct (enriched cfg df df_teams) as [enr|] eqn:Henr; [|done].
  destruct (enriched_any_threshold _ _ _ _ (games_played df p) Henr) as [enr' Henr'].
  destruct (aggregate_by_player_total enr'
              (features_to_aggregate (with_min_games (games_played df p) cfg) enr')
              true) as [out' Hout'].
  assert (Hrun : aggregated (with_min_games (games_played df p) cfg) df df_teams
                 = Ok out').
  { unfold aggregated. rewrite Henr'. exact Hout'. }
  exists out'. split; [exact Hrun|].
  apply (Hpresence _ _ _ _ Hrun). split; [exact Hp|]. simpl. lia.
Qed.

End ThresholdThroughPipeline.

(** ** Scaling *)

Section OrderFacts.

Local Open Scope Qc_scope.

Lemma Qc_square_nonneg (d : Qc) : Q2Qc 0 ≤ d * d.
Proof.
  destruct (Qclt_le_dec d (Q2Qc 0)) as [Hneg|Hpos].
  - replace (d * d) with ((- d) * (- d)) by ring.
    assert (Q2Qc 0 ≤ - d).
    { apply Qclt_le_weak in Hneg. apply Qcopp_le_compat in Hneg.
      by replace (- Q2Qc 0) with (Q2Qc 0) in Hneg by ring. }
    by apply Qcmult_nonneg_nonneg.
  - by apply Qcmult_nonneg_nonneg.
Qed.

Lemma Qc_sum_nonneg (qs : list Qc) :
  Forall (λ q, Q2Qc 0 ≤ q) qs → Q2Qc 0 ≤ Qc_sum qs.
Proof.
  induction 1 as [|q qs Hq _ IH]; [done|]. simpl.
  by apply Qcplus_nonneg_nonneg.
Qed.

Lemma Qc_div_nonneg (a b : Qc) : Q2Qc 0 ≤ a → Q2Qc 0 < b → Q2Qc 0 ≤ a / b.
Proof.
  intros Ha Hb. unfold Qcdiv. apply Qcmult_nonneg_nonneg; [done|].
  by apply Qclt_le_weak, Qcinv_pos.
Qed.

Lemma heron_pos (steps : nat) (v : Qc) : Q2Qc 0 < v → Q2Qc 0 < heron steps v.
Proof.
  intros Hv. induction steps as [|n IH]; [done|]. simpl.
  unfold Qcdiv. apply Qcmult_pos_pos; [|done].
  apply Qcplus_pos_pos; [done|].
  apply Qcmult_pos_pos; [done|]. by apply Qcinv_pos.
Qed.

Lemma heron_sqrt_nonzero (v : Qc) : Q2Qc 0 < v → heron_sqrt v ≠ Q2Qc 0.
Proof. intros Hv. by apply Qc_pos_nonzero, heron_pos. Qed.

End OrderFacts.

Section ColumnStatistics.

Import Sklearn.

Variable sqrt_fn : Qc → Qc.
Hypothesis sqrt_nonzero : ∀ v, (Q2Qc 0 < v)%Qc → sqrt_fn v ≠ Q2Qc 0.

Lemma nanmean_present (xs : list fval) :
  nanmean (filter (λ x, is_nan x = false) xs) = nanmean xs.
Proof.
  unfold nanmean. rewrite list_filter_filter.
  by rewrite (list_filter_iff (λ a, is_nan a = false ∧ is_nan a = false)
                              (λ x, is_nan x = false)) by (intros x; tauto).
Qed.

Lemma nanmean_numbers (xs : list fval) (x : fval) :
  Forall number_or_missing xs → x ∈ xs → is_nan x = false →
  nanmean xs =
    Fin (Qc_sum (map rational (filter (λ x, is_nan x = false) xs))
         / Qc_length (filter (λ x, is_nan x = false) xs))%Qc.
Proof.
  intros Hnum Hx Hpresent. rewrite <- nanmean_present.
  set (present := filter (λ x, is_nan x = false) xs).
  rewrite <- (map_id present) at 1.
  apply nanmean_finite.
  - intros Hnil. assert (x ∈ present) as Hin by (by apply list_elem_of_filter).
    rewrite Hnil in Hin. by apply elem_of_nil in Hin.
  - intros y Hy. apply list_elem_of_filter in Hy as [Hnan Hy].
    rewrite Forall_forall in Hnum. specialize (Hnum y Hy).
    unfold number_or_missing in Hnum. by destruct y.
Qed.

Lemma nanmean_nonneg (xs : list fval) (x : fval) :
  Forall nonneg_or_missing xs → x ∈ xs → is_nan x = false →
  ∃ v, nanmean xs = Fin v ∧ (Q2Qc 0 <= v)%Qc.
Proof.
  intros Hnonneg Hx Hpresent.
  assert (Hnum : Forall number_or_missing xs).
  { eapply Forall_impl; [exact Hnonneg|]. intros y Hy. by destruct y. }
  rewrite (nanmean_numbers xs x Hnum Hx Hpresent).
  eexists. split; [reflexivity|].
  apply Qc_div_nonneg.
  - apply Qc_sum_nonneg. apply Forall_forall. intros q Hq.
    apply elem_of_map in Hq as (y & -> & Hy).
    apply list_elem_of_filter in Hy as [_ Hy].
    rewrite Forall_forall in Hnonneg. specialize (Hnonneg y Hy).
    by destruct y.
  - apply Qc_length_pos. intros Hnil.
    assert (x ∈ filter (λ x, is_nan x = false) xs) as Hin
      by (by apply list_elem_of_filter).
    rewrite Hnil in Hin. by apply elem_of_nil in Hin.
Qed.

Lemma column_statistics (col : list fval) (x : fval) :
  Forall number_or_missing col → x ∈ col → is_nan x = false →
  ∃ mu s, column_mean col = Fin mu ∧ column_scale sqrt_fn col = Fin s ∧
          s ≠ Q2Qc 0.
Proof.
  intros Hnum Hx Hpresent.
  unfold column_scale, column_var, column_mean.
  rewrite (nanmean_numbers col x Hnum Hx Hpresent).
  set (mu := (Qc_sum _ / Qc_length _)%Qc).
  exists mu.
  destruct (nanmean_nonneg
              (map (λ y, fmul (fsub y (Fin mu)) (fsub y (Fin mu))) col)
              (fmul (fsub x (Fin mu)) (fsub x (Fin mu))))
    as (v & -> & Hv).
  - apply Forall_forall. intros y Hy. apply elem_of_map in Hy as (z & -> & Hz).
    rewrite Forall_forall in Hnum. specialize (Hnum z Hz).
    destruct z as [q| | |]; try done. apply Qc_square_nonneg.
  - apply elem_of_map. by exists x.
  - by destruct x.
  - unfold is_zero. destruct (qzero v) eqn:Hzero.
    + exists (Q2Qc 1). split; [done|]. split; [done|].
      intros Hone. apply (f_equal this) in Hone. discriminate Hone.
    + exists (sqrt_fn v). split; [done|].
      apply qzero_false in Hzero.
      assert (Hpos : (Q2Qc 0 < v)%Qc).
      { apply Qcle_lt_or_eq in Hv as [Hlt|Heq]; [done|]. by destruct Hzero. }
      split; [|by apply sqrt_nonzero].
      unfold fsqrt, qneg.
      rewrite bool_decide_eq_false_2; [done|]. by apply Qcle_not_lt.
Qed.

(** One cell through the standard scaler and back. *)
Lemma standard_cell_round_trip (col : list fval) (x : fval) :
  Forall number_or_missing col → x ∈ col →
  let mu := column_mean col in
  let s := column_scale sqrt_fn col in
  is_inf (fdiv (fsub x mu) s) = false ∧
  fadd (fmul (fdiv (fsub x mu) s) s) mu = x.
Proof.
  intros Hnum Hx. simpl.
  destruct (is_nan x) eqn:Hnan.
  { destruct x; try done. }
  destruct (column_statistics col x Hnum Hx Hnan) as (mu & s & -> & -> & Hs).
  rewrite Forall_forall in Hnum. specialize (Hnum x Hx).
  destruct x as [q| | |]; try done.
  change (fsub (Fin q) (Fin mu)) with (Fin (q - mu)%Qc).
  rewrite fdiv_fin by done. split; [done|].
  change (fadd (fmul (Fin ((q - mu) / s)%Qc) (Fin s)) (Fin mu))
    with (Fin ((q - mu) / s * s + mu)%Qc).
  f_equal. field. done.
Qed.

End ColumnStatistics.

Section TableFacts.

Import Sklearn.

Lemma existsb_false_Forall {A} (f : A → bool) (l : list A) :
  existsb f l = false ↔ Forall (λ x, f x = false) l.
Proof.
  induction l as [|x l IH]; simpl.
  - split; [constructor|done].
  - rewrite orb_false_iff, IH, Forall_cons. done.
Qed.

Lemma check_array_ok (X : Table) :
  check_array X = Ok tt ↔
  no_infinity (tdata X) ∧ tdata X ≠ [] ∧ tcolumns X ≠ [].
Proof.
  unfold check_array, no_infinity.
  destruct (existsb (existsb is_inf) (tdata X)) eqn:Hinf.
  - split; [done|]. intros (Hno & _ & _).
    assert (existsb (existsb is_inf) (tdata X) = false) as Hfalse.
    { apply existsb_false_Forall. eapply Forall_impl; [exact Hno|].
      intros row Hrow. by apply existsb_false_Forall. }
    congruence.
  - assert (Hno : Forall (Forall (λ x, is_inf x = false)) (tdata X)).
    { apply existsb_false_Forall in Hinf. eapply Forall_impl; [exact Hinf|].
      intros row Hrow. by apply existsb_false_Forall. }
    destruct (tdata X) as [|row data]; simpl.
    { split; [done|]. by intros (_ & ? & _). }
    destruct (tcolumns X) as [|c cs]; simpl.
    { split; [done|]. by intros (_ & _ & ?). }
    done.
Qed.

Lemma column_values_elem (data : list (list fval)) (row : list fval) (j : nat) x :
  row ∈ data → row !! j = Some x → x ∈ column_values data j.
Proof.
  intros Hrow Hx. unfold column_values. apply elem_of_map.
  exists row. split; [|done]. by rewrite Hx.
Qed.

Lemma column_values_numbers (data : list (list fval)) (j : nat) :
  no_infinity data → Forall number_or_missing (column_values data j).
Proof.
  intros Hno. apply Forall_forall. intros x Hx.
  apply elem_of_map in Hx as (row & -> & Hrow).
  unfold no_infinity in Hno. rewrite Forall_forall in Hno.
  specialize (Hno row Hrow).
  destruct (row !! j) as [y|] eqn:Hy; [|done]. simpl.
  by apply (Forall_lookup_1 _ _ _ _ Hno Hy).
Qed.

Lemma zip_map_map {A B C} (f : A → B) (g : A → C) (l : list A) :
  zip (map f l) (map g l) = map (λ x, (f x, g x)) l.
Proof. induction l as [|x l IH]; [done|]. simpl. by rewrite IH. Qed.

Lemma zip_with_round_trip {A P} (app inv : A → P → A) (Q : A → Prop)
    (row : list A) (ps : list P) :
  length row = length ps →
  (∀ j x p, row !! j = Some x → ps !! j = Some p →
            Q (app x p) ∧ inv (app x p) p = x) →
  Forall Q (zip_with app row ps) ∧ zip_with inv (zip_with app row ps) ps = row.
Proof.
  revert ps. induction row as [|x row IH]; intros [|p ps] Hlen Hcell; try done.
  simpl in Hlen. injection Hlen as Hlen.
  destruct (Hcell 0%nat x p eq_refl eq_refl) as [HQ Hinv].
  destruct (IH ps Hlen) as [HQs Hinvs].
  { intros j y q Hy Hq. by apply (Hcell (S j)). }
  simpl. split; [by constructor|]. by rewrite Hinv, Hinvs.
Qed.

End TableFacts.

Section StandardRoundTrip.

Import Sklearn.

Variable sqrt_fn : Qc → Qc.
Hypothesis sqrt_nonzero : ∀ v, (Q2Qc 0 < v)%Qc → sqrt_fn v ≠ Q2Qc 0.

Lemma standard_fit_length (X : Table) :
  length (fst (standard_fit sqrt_fn X)) = length (tcolumns X).
Proof. unfold standard_fit. simpl. by rewrite !length_map, length_seq. Qed.

Lemma standard_row_round_trip (X : Table) (row : list fval) :
  no_infinity (tdata X) → row ∈ tdata X → length row = length (tcolumns X) →
  Forall (λ x, is_inf x = false) (standard_apply (standard_fit sqrt_fn X) row) ∧
  standard_invert (standard_fit sqrt_fn X)
    (standard_apply (standard_fit sqrt_fn X) row) = row.
Proof.
  intros Hno Hrow Hlen. unfold standard_apply, standard_invert, standard_fit.
  simpl fst. simpl snd. rewrite zip_map_map, map_map.
  apply (zip_with_round_trip
           (λ x ms, fdiv (fsub x (fst ms)) (snd ms))
           (λ x ms, fadd (fmul x (snd ms)) (fst ms))).
  - by rewrite length_map, length_seq.
  - intros j x p Hx Hp. rewrite lookup_map in Hp.
    destruct (seq 0 (length (tcolumns X)) !! j) as [k|] eqn:Hk; [|done].
    apply lookup_seq in Hk as [-> _]. simpl in Hp. injection Hp as <-.
    simpl fst. simpl snd.
    apply (standard_cell_round_trip sqrt_fn sqrt_nonzero).
    + by apply column_values_numbers.
    + by apply (column_values_elem _ row).
Qed.

Lemma standard_table_round_trip (X : Table) :
  check_array X = Ok tt → rectangular X →
  no_infinity (map (standard_apply (standard_fit sqrt_fn X)) (tdata X)) ∧
  map (standard_invert (standard_fit sqrt_fn X))
      (map (standard_apply (standard_fit sqrt_fn X)) (tdata X)) = tdata X.
Proof.
  intros Hcheck Hrect. apply check_array_ok in Hcheck as (Hno & _ & _).
  unfold rectangular in Hrect. rewrite Forall_forall in Hrect.
  split.
  - apply Forall_forall. intros scaled Hscaled.
    apply elem_of_map in Hscaled as (row & -> & Hrow).
    by apply standard_row_round_trip; [| |apply Hrect].
  - rewrite map_map. rewrite <- (map_id (tdata X)) at 2.
    apply map_ext_elem_of. intros row Hrow.
    by apply standard_row_round_trip; [| |apply Hrect].
Qed.

End StandardRoundTrip.

Section ScalerClaims.

Import Sklearn.

Lemma clean_table_columns X h fill :
  tcolumns (DataScaler.clean_table X h fill) = tcolumns X.
Proof. unfold DataScaler.clean_table. by destruct h. Qed.

Lemma clean_table_cells X h fill :
  tdata (DataScaler.clean_table X h fill) =
    map (map (λ x, DataScaler.fillna fill
                     (if h then DataScaler.replace_inf x else x)))
        (tdata X).
Proof.
  unfold DataScaler.clean_table. destruct h; simpl; [|done].
  rewrite map_map. apply map_ext. intros row. by rewrite map_map.
Qed.

Lemma clean_table_rectangular X h fill :
  rectangular X → rectangular (DataScaler.clean_table X h fill).
Proof.
  unfold rectangular. rewrite clean_table_columns, clean_table_cells.
  intros Hrect. apply Forall_forall. intros row Hrow.
  apply elem_of_map in Hrow as (row' & -> & Hrow').
  rewrite length_map. rewrite Forall_forall in Hrect. by apply Hrect.
Qed.

(** With infinities handled, a cell of the clean table is the fill
    value where the input was missing or infinite, the input cell
    elsewhere. *)
Lemma clean_cell_handled fill (x : fval) :
  DataScaler.fillna fill (DataScaler.replace_inf x) =
    if is_nan x || is_inf x then fill else x.
Proof. by destruct x. Qed.

Lemma clean_table_finite X fill :
  is_finite fill = true →
  Forall (Forall (λ x, is_finite x = true))
         (tdata (DataScaler.clean_table X true fill)).
Proof.
  intros Hfill. rewrite clean_table_cells.
  apply Forall_forall. intros row Hrow.
  apply elem_of_map in Hrow as (row' & -> & _).
  apply Forall_forall. intros x Hx.
  apply elem_of_map in Hx as (y & -> & _).
  rewrite clean_cell_handled. by destruct y.
Qed.

Lemma clean_table_accepted X fill :
  tdata X ≠ [] → tcolumns X ≠ [] → is_finite fill = true →
  check_array (DataScaler.clean_table X true fill) = Ok tt.
Proof.
  intros Hrows Hcols Hfill. apply check_array_ok.
  rewrite clean_table_columns. split; [|split; [|done]].
  - eapply Forall_impl; [by apply clean_table_finite|].
    intros row Hrow. eapply Forall_impl; [exact Hrow|].
    intros x Hx. by destruct x.
  - rewrite clean_table_cells. by destruct (tdata X).
Qed.

(** What [fit_transform] returns once the input check has passed. *)
Lemma fit_transform_accepted sqrt_fn (self : DataScaler.t) X h fill :
  check_array (DataScaler.clean_table X h fill) = Ok tt →
  ∃ est scaled_data,
    Sklearn.fit_transform sqrt_fn (DataScaler.scaler self)
      (DataScaler.clean_table X h fill) = Ok (est, scaled_data) ∧
    length scaled_data = length (tdata X) ∧
    DataScaler.fit_transform sqrt_fn self X h fill =
      Ok (DataScaler.mkScaler est (DataScaler.scaler_type self),
          (mkTable (tcolumns X) scaled_data, DataScaler.clean_table X h fill)).
Proof.
  intros Hcheck. unfold DataScaler.fit_transform, Sklearn.fit_transform.
  rewrite Hcheck. unfold mbind, result_bind. cbv beta iota.
  destruct (DataScaler.scaler self); eexists; eexists;
    (split; [reflexivity|]); rewrite clean_table_columns;
    (split; [|reflexivity]);
    by rewrite length_map, clean_table_cells, length_map.
Qed.

(** In standard mode, whenever [fit_transform] returns a scaled and a
    clean table, [inverse_transform] on the scaled table returns the
    clean table. *)
Lemma standard_round_trip_when_fitted
    (sqrt_fn : Qc → Qc) (self self' : DataScaler.t) (fitted : option _)
    (X scaled clean : Table) (handle_infinity : bool) (fill_na : fval) :
  (∀ v, (Q2Qc 0 < v)%Qc → sqrt_fn v ≠ Q2Qc 0) →
  DataScaler.scaler self = StandardScaler fitted →
  rectangular X →
  DataScaler.fit_transform sqrt_fn self X handle_infinity fill_na =
    Ok (self', (scaled, clean)) →
  DataScaler.inverse_transform self' scaled = Ok clean.
Proof.
  intros Hsqrt Hmode Hrect Hfit.
  unfold DataScaler.fit_transform, Sklearn.fit_transform in Hfit.
  rewrite Hmode in Hfit.
  pose proof (clean_table_rectangular X handle_infinity fill_na Hrect) as Hclean.
  revert Hclean Hfit.
  generalize (DataScaler.clean_table X handle_infinity fill_na).
  intros cleaned Hclean Hfit.
  destruct (check_array cleaned) as [[]|] eqn:Hcheck; [|done].
  step_result. injection Hfit as <- <- <-.
  destruct (standard_table_round_trip sqrt_fn Hsqrt cleaned Hcheck Hclean)
    as [Hno Hback].
  apply check_array_ok in Hcheck as (_ & Hrows & Hcols).
  unfold DataScaler.inverse_transform, Sklearn.inverse_transform. simpl.
  assert (Hscaled : check_array
            (mkTable (tcolumns cleaned)
               (map (standard_apply (standard_fit sqrt_fn cleaned)) (tdata cleaned)))
            = Ok tt).
  { apply check_array_ok. simpl. split; [done|]. split; [|done].
    by destruct (tdata cleaned). }
  rewrite Hscaled. step_result.
  unfold check_n_features. simpl.
  rewrite bool_decide_eq_true_2
    by (by rewrite !length_map, length_seq).
  simpl. rewrite Hback. by destruct cleaned.
Qed.

(** C6.  In standard mode, [inverse_transform] applied to the scaled
    table that [fit_transform] returns gives back the clean table,
    cell for cell; and [fit_transform] does return both tables on every
    table with at least one row and one column once infinities are
    handled and the fill value is finite. *)
Theorem standard_inverse_transform_reconstructs_clean_table
    (sqrt_fn : Qc → Qc) (self : DataScaler.t) (fitted : option _)
    (X : Table) (handle_infinity : bool) (fill_na : fval) :
  (∀ v, (Q2Qc 0 < v)%Qc → sqrt_fn v ≠ Q2Qc 0) →
  DataScaler.scaler self = StandardScaler fitted →
  rectangular X →
  (∀ self' scaled clean,
     DataScaler.fit_transform sqrt_fn self X handle_infinity fill_na =
       Ok (self', (scaled, clean)) →
     DataScaler.inverse_transform self' scaled = Ok clean) ∧
  (tdata X ≠ [] → tcolumns X ≠ [] → is_finite fill_na = true →
   ∃ self' scaled,
     DataScaler.fit_transform sqrt_fn self X true fill_na =
       Ok (self', (scaled, DataScaler.clean_table X true fill_na)) ∧
     DataScaler.inverse_transform self' scaled =
       Ok (DataScaler.clean_table X true fill_na)).
Proof.
  intros Hsqrt Hmode Hrect. split.
  - intros self' scaled clean Hfit.
    by apply (standard_round_trip_when_fitted sqrt_fn self self' fitted X
                scaled clean handle_infinity fill_na).
  - intros Hrows Hcols Hfill.
    destruct (fit_transform_accepted sqrt_fn self X true fill_na)
      as (est & scaled_data & _ & _ & Hfit); [by apply clean_table_accepted|].
    eexists. eexists. split; [exact Hfit|].
    by apply (standard_round_trip_when_fitted sqrt_fn self _ fitted X
                _ _ true fill_na).
Qed.

(** C7 as the code has it.  On a table with at least one row and one
    column, and with a finite fill value, [fit_transform] with
    [handle_infinity=True] returns a clean table equal to the input
    with every NaN and infinite cell replaced by [fill_na] and every
    other cell unchanged, hence without NaN or infinity; the clean and
    the scaled table keep the column labels in order and the number of
    rows of the input. *)
Theorem fit_transform_cleans_and_keeps_shape
    (sqrt_fn : Qc → Qc) (self : DataScaler.t) (X : Table) (fill_na : fval) :
  tdata X ≠ [] → tcolumns X ≠ [] → is_finite fill_na = true →
  ∃ self' scaled clean,
    DataScaler.fit_transform sqrt_fn self X true fill_na =
      Ok (self', (scaled, clean)) ∧
    tdata clean =
      map (map (λ x, if is_nan x || is_inf x then fill_na else x)) (tdata X) ∧
    Forall (Forall (λ x, is_finite x = true)) (tdata clean) ∧
    tcolumns clean = tcolumns X ∧
    tcolumns scaled = tcolumns X ∧
    length (tdata clean) = length (tdata X) ∧
    length (tdata scaled) = length (tdata X).
Proof.
  intros Hrows Hcols Hfill.
  destruct (fit_transform_accepted sqrt_fn self X true fill_na)
    as (est & scaled_data & _ & Hlen & ->);
    [by apply clean_table_accepted|].
  eexists. eexists. eexists. split; [reflexivity|].
  split.
  { rewrite clean_table_cells. apply map_ext. intros row.
    apply map_ext. intros x. apply clean_cell_handled. }
  split; [by apply clean_table_finite|].
  split; [apply clean_table_columns|].
  split; [done|].
  split; [|done].
  by rewrite clean_table_cells, length_map.
Qed.

(** C9.  The constructor accepts exactly ["standard"] and ["minmax"]
    and leaves the estimator unfitted; any other string raises the
    ValueError of the constructor, so that building the pipeline fails
    before a table is read or a scaler fitted. *)
Theorem scaler_type_is_validated_at_construction (scaler_type : string) :
  (scaler_type = "standard" ∨ scaler_type = "minmax" →
   ∃ self, DataScaler.init scaler_type = Ok self ∧
           DataScaler.scaler_type self = scaler_type ∧
           fitted_params (DataScaler.scaler self) = Raise NotFittedError) ∧
  (scaler_type ≠ "standard" → scaler_type ≠ "minmax" →
   DataScaler.init scaler_type =
     Raise (ValueError ("Tipus d'escalador no vàlid: " +:+ scaler_type)) ∧
   ∀ sqrt_fn cfg df df_teams,
     ETLPipeline.construct_and_transform sqrt_fn cfg scaler_type df df_teams =
       Raise (ValueError ("Tipus d'escalador no vàlid: " +:+ scaler_type))) ∧
  (is_ok (DataScaler.init scaler_type) = true ↔
   scaler_type = "standard" ∨ scaler_type = "minmax").
Proof.
  unfold ETLPipeline.construct_and_transform, DataScaler.init.
  destruct (decide (scaler_type = "standard")) as [->|Hstandard].
  { split; [|split]; [by eexists|done|]. split; [by left|done]. }
  rewrite (bool_decide_eq_false_2 _ Hstandard).
  destruct (decide (scaler_type = "minmax")) as [->|Hminmax].
  { split; [|split]; [by eexists|done|]. split; [by right|done]. }
  rewrite (bool_decide_eq_false_2 _ Hminmax).
  split; [by intros [|]|]. split; [done|].
  split; [done|by intros [|]].
Qed.

End ScalerClaims.

(** ** Sample runs of the scaler *)

Example sample_features_clean :
  clean_cells (DataScaler.fit_transform heron_sqrt standard_scaler
                 sample_features true (of_Z 0)) =
    Ok [[of_Z 110; of_Z 0]; [of_Z 90; of_Z 0]; [of_Z 100; of_Z 105]].
Proof. by_computation. Qed.

Lemma standard_round_trip_witness :
  ∃ self' scaled,
    DataScaler.fit_transform heron_sqrt standard_scaler sample_features true (of_Z 0)
      = Ok (self', (scaled, DataScaler.clean_table sample_features true (of_Z 0))) ∧
    DataScaler.inverse_transform self' scaled =
      Ok (DataScaler.clean_table sample_features true (of_Z 0)).
Proof.
  apply (standard_inverse_transform_reconstructs_clean_table
           heron_sqrt standard_scaler None sample_features true (of_Z 0)
           heron_sqrt_nonzero eq_refl).
  - by_computation.
  - discriminate.
  - discriminate.
  - reflexivity.
Defined.

Lemma fit_transform_cleans_witness :
  ∃ self' scaled clean,
    DataScaler.fit_transform heron_sqrt standard_scaler sample_features true (of_Z 0)
      = Ok (self', (scaled, clean)) ∧
    Forall (Forall (λ x, is_finite x = true)) (Sklearn.tdata clean) ∧
    Sklearn.tcolumns clean = ["oer"; "der"] ∧
    Sklearn.tcolumns scaled = ["oer"; "der"].
Proof.
  destruct (fit_transform_cleans_and_keeps_shape
              heron_sqrt standard_scaler sample_features (of_Z 0))
    as (self' & scaled & clean & Hfit & _ & Hfinite & Hclean & Hscaled & _);
    [done|done|reflexivity|].
  exists self', scaled, clean.
  split; [exact Hfit|]. split; [exact Hfinite|].
  split; [exact Hclean|exact Hscaled].
Defined.

(** Where C7 fails as stated: a table without rows is rejected by the
    input check of the estimator, so no clean table is returned; and a
    fill value that is itself NaN stays in the clean table. *)
Lemma fit_transform_returns_no_clean_table_for_empty_input :
  DataScaler.fit_transform heron_sqrt standard_scaler empty_features true (of_Z 0)
    = Raise (ValueError "Found array with 0 sample(s)") ∧
  clean_cells (DataScaler.fit_transform heron_sqrt standard_scaler
                 (Sklearn.mkTable ["oer"] [[NaN]; [of_Z 1]]) true NaN)
    = Ok [[NaN]; [of_Z 1]].
Proof. split; [reflexivity|by_computation]. Qed.

Lemma scaler_type_witness :
  DataScaler.init "robust" = Raise (ValueError "Tipus d'escalador no vàlid: robust") ∧
  ∃ self, DataScaler.init "minmax" = Ok self ∧
          Sklearn.fitted_params (DataScaler.scaler self) = Raise NotFittedError.
Proof.
  split.
  - apply (proj1 (proj2 (scaler_type_is_validated_at_construction "robust")));
      discriminate.
  - destruct (proj1 (scaler_type_is_validated_at_construction "minmax")
                (or_intror eq_refl)) as (self & Hinit & _ & Hunfitted).
    by exists self.
Defined.

(** ** Opponent resolution through the merge *)

Section OpponentResolution.

Import ETLPipeline.

Lemma links_of_matches_all df_teams match_ids :
  (∀ m, m ∈ match_ids → is_ok (match_links df_teams m) = true) →
  ∃ links,
    links_of_matches df_teams match_ids = Ok links ∧
    ∀ l, l ∈ links ↔
         ∃ m found, m ∈ match_ids ∧ match_links df_teams m = Ok found ∧ l ∈ found.
Proof.
  induction match_ids as [|m rest IH]; intros Hok.
  - exists []. split; [done|]. intros l. split; [by intros ?%elem_of_nil|].
    by intros (m & found & ?%elem_of_nil & _).
  - rewrite links_of_matches_cons.
    pose proof (Hok m (list_elem_of_here _ _)) as Hm.
    destruct (match_links df_teams m) as [found|] eqn:Hfound; [|done].
    destruct IH as (others & -> & Hothers).
    { intros m' Hm'. apply Hok. by right. }
    exists (found ++ others). split; [done|]. intros l.
    rewrite elem_of_app, Hothers. split.
    + intros [Hl|(m' & found' & Hm' & Hfound' & Hl)].
      * exists m, found. split; [by left|done].
      * exists m', found'. split; [by right|done].
    + intros (m' & found' & Hm' & Hfound' & Hl).
      apply elem_of_cons in Hm' as [->|Hm'].
      * left. congruence.
      * right. by exists m', found'.
Qed.

Lemma links_of_matches_none df_teams match_ids :
  (∀ m, m ∈ match_ids → length (teams_of_match df_teams m) ≠ 2%nat) →
  links_of_matches df_teams match_ids = Ok [].
Proof.
  induction match_ids as [|m rest IH]; intros Hnone; [done|].
  rewrite links_of_matches_cons, IH by (intros m' Hm'; apply Hnone; by right).
  pose proof (Hnone m (list_elem_of_here _ _)) as Hm.
  unfold match_links.
  by destruct (teams_of_match df_teams m) as [|a [|b [|c l]]].
Qed.

Lemma joined_with_link links (r : Row) l :
  NoDup (map link_key links) → l ∈ links → link_matches r l →
  joined links r = with_opponent (opponent_possessions l) (opponent_pts l) r.
Proof.
  intros Hnodup Hl Hmatch. unfold joined.
  pose proof (unique_key_matches_once links r Hnodup) as Hlen.
  assert (Hin : l ∈ filter (link_matches r) links)
    by (by apply list_elem_of_filter).
  destruct (filter (link_matches r) links) as [|l' [|l'' rest]].
  - by apply elem_of_nil in Hin.
  - by apply list_elem_of_singleton in Hin as ->.
  - simpl in Hlen. lia.
Qed.

Lemma joined_without_link links (r : Row) :
  (∀ l, l ∈ links → ¬ link_matches r l) →
  joined links r = with_opponent NaN NaN r.
Proof.
  intros Hnone. unfold joined.
  destruct (filter (link_matches r) links) as [|l rest] eqn:Hfilter; [done|].
  assert (Hin : l ∈ filter (link_matches r) links)
    by (rewrite Hfilter; by left).
  apply list_elem_of_filter in Hin as [Hmatch Hin]. by destruct (Hnone l Hin).
Qed.

(** What the opponent resolver does when it goes through: the team
    table has no match with two rows of one team, and some match of the
    player table has exactly two team rows.  Each team of such a match
    is linked to the possessions [fga + 0.44 * fta - orb + tov] and the
    points of the other; after the left join the rows of a paired match
    carry them, and the rows of any other match have both cells
    missing. *)
Lemma opponent_resolution_when_paired (df : DataFrame) (df_teams : list TeamStats.t) :
  (∀ m a b, teams_of_match df_teams m = [a; b] →
            TeamStats.team_feb_id a ≠ TeamStats.team_feb_id b) →
  ∃ links,
    opponent_data df df_teams = Ok links ∧
    (∀ l, l ∈ links ↔
          ∃ m a b, m ∈ map Pandas.match_feb_id (rows df) ∧
                   teams_of_match df_teams m = [a; b] ∧ l ∈ pair_links m a b) ∧
    (links ≠ [] →
     ∃ merged,
       merge_opponents df links = Ok merged ∧
       rows merged = map (joined links) (rows df) ∧
       ∀ r, r ∈ rows df →
         (length (teams_of_match df_teams (Pandas.match_feb_id r)) ≠ 2%nat →
          cell (joined links r) "opponent_pts" = NaN ∧
          cell (joined links r) "opponent_possessions" = NaN) ∧
         (∀ a b, teams_of_match df_teams (Pandas.match_feb_id r) = [a; b] →
            (Pandas.team_feb_id r = TeamStats.team_feb_id a →
             cell (joined links r) "opponent_pts" = TeamStats.pts b ∧
             cell (joined links r) "opponent_possessions" =
               fadd (fsub (fadd (TeamStats.fga b)
                                (fmul (Fin (qc 44 100)) (TeamStats.fta b)))
                          (TeamStats.orb b))
                    (TeamStats.tov b)) ∧
            (Pandas.team_feb_id r = TeamStats.team_feb_id b →
             cell (joined links r) "opponent_pts" = TeamStats.pts a ∧
             cell (joined links r) "opponent_possessions" =
               fadd (fsub (fadd (TeamStats.fga a)
                                (fmul (Fin (qc 44 100)) (TeamStats.fta a)))
                          (TeamStats.orb a))
                    (TeamStats.tov a)))).
Proof.
  intros Hkeyed.
  assert (Hmatch : ∀ m, match_links df_teams m =
            Ok (match teams_of_match df_teams m with
                | [a; b] => pair_links m a b
                | _ => []
                end)).
  { intros m. unfold match_links.
    destruct (teams_of_match df_teams m) as [|a [|b [|c l]]] eqn:Hteams; try done.
    destruct (decide _) as [Heq|]; [|done]. by destruct (Hkeyed m a b Hteams). }
  destruct (links_of_matches_all df_teams
              (unique (map Pandas.match_feb_id (rows df))))
    as (links & Hlinks & Hmem).
  { intros m _. by rewrite Hmatch. }
  assert (Hspec : ∀ l, l ∈ links ↔
            ∃ m a b, m ∈ map Pandas.match_feb_id (rows df) ∧
                     teams_of_match df_teams m = [a; b] ∧ l ∈ pair_links m a b).
  { intros l. rewrite Hmem. split.
    - intros (m & found & Hm & Hfound & Hl). rewrite Hmatch in Hfound.
      injection Hfound as <-. rewrite elem_of_unique in Hm.
      destruct (teams_of_match df_teams m) as [|a [|b [|c rest]]] eqn:Hteams;
        try (by apply elem_of_nil in Hl).
      exists m, a, b. split; [exact Hm|]. split; [exact Hteams|exact Hl].
    - intros (m & a & b & Hm & Hteams & Hl).
      exists m, (pair_links m a b). split; [by apply elem_of_unique|].
      split; [|done]. by rewrite Hmatch, Hteams. }
  exists links. split; [exact Hlinks|]. split; [exact Hspec|].
  intros Hne.
  pose proof (opponent_data_keys df df_teams links Hlinks) as Hnodup.
  destruct (merge_opponents df links) as [merged|e] eqn:Hmerged;
    [|by destruct links].
  destruct (merge_opponents_rows _ _ _ Hnodup Hmerged) as [_ Hrows].
  exists merged. split; [done|]. split; [exact Hrows|].
  intros r Hr. split.
  - intros Hlen. rewrite joined_without_link; [unfold with_opponent; by cell_simpl|].
    intros l Hl [Hlm Hlt]. apply Hspec in Hl as (m & a & b & _ & Hteams & Hl).
    assert (link_match_feb_id l = m) as Hm.
    { unfold pair_links in Hl. apply elem_of_cons in Hl as [->|Hl]; [done|].
      by apply list_elem_of_singleton in Hl as ->. }
    rewrite <- Hlm, Hm, Hteams in Hlen. by apply Hlen.
  - intros a b Hteams.
    assert (Hin : ∀ l, l ∈ pair_links (Pandas.match_feb_id r) a b → l ∈ links).
    { intros l Hl. apply Hspec. exists (Pandas.match_feb_id r), a, b.
      split; [|done]. apply elem_of_map. by exists r. }
    split; intros Hteam.
    + rewrite (joined_with_link links r
                 (mkLink (Pandas.match_feb_id r) (TeamStats.team_feb_id a)
                    (team_possessions b) (TeamStats.pts b)));
        [unfold with_opponent; by cell_simpl|done|apply Hin; by left|done].
    + rewrite (joined_with_link links r
                 (mkLink (Pandas.match_feb_id r) (TeamStats.team_feb_id b)
                    (team_possessions a) (TeamStats.pts a)));
        [unfold with_opponent; by cell_simpl|done|apply Hin; right; by left|done].
Qed.

(** C1, where the code leaves the claim.  When no match of the player
    table has exactly two team rows, no link is emitted, the frame
    built from the empty list has no column to join on and [transform]
    raises [KeyError] instead of returning the player rows with their
    opponent cells unset. *)
Theorem transform_raises_when_no_match_is_paired
    (sqrt_fn : Qc → Qc) (cfg : Settings) (scaler : DataScaler.t)
    (df : DataFrame) (df_teams : list TeamStats.t) :
  (∀ m, m ∈ map Pandas.match_feb_id (rows df) →
        length (teams_of_match df_teams m) ≠ 2%nat) →
  opponent_data df df_teams = Ok [] ∧
  aggregated cfg df df_teams = Raise (KeyError "match_feb_id") ∧
  transform sqrt_fn cfg scaler df df_teams = Raise (KeyError "match_feb_id").
Proof.
  intros Hnone.
  assert (Hlinks : opponent_data df df_teams = Ok []).
  { apply links_of_matches_none. intros m Hm. by apply Hnone, elem_of_unique. }
  split; [exact Hlinks|].
  unfold aggregated, transform, enriched. rewrite Hlinks. done.
Qed.

End OpponentResolution.

(** ** Sample runs of the pipeline *)

Example each_team_gets_the_other_teams_totals :
  (opponent_cells <$> merged (select (λ r, bool_decide (Pandas.match_feb_id r = 100))
                                     sample_players) sample_teams) =
    Ok [(100, 10, of_Z 60, of_Z 65); (100, 20, of_Z 70, of_Z 70)].
Proof. by_computation. Qed.

Example no_link_for_a_match_with_a_third_team_row :
  (opponent_cells <$> merged (select (λ r, bool_decide (Pandas.match_feb_id r ≤ 101)%Z)
                                     sample_players)
                             (home 100 :: sample_teams)) =
    Ok [(100, 10, NaN, NaN); (100, 20, NaN, NaN);
        (101, 10, of_Z 60, of_Z 65); (101, 20, of_Z 70, of_Z 70)].
Proof. by_computation. Qed.

Lemma transform_raises_witness :
  ETLPipeline.opponent_data unpaired_players unpaired_teams = Ok [] ∧
  ETLPipeline.aggregated ETLPipeline.default_settings unpaired_players unpaired_teams
    = Raise (KeyError "match_feb_id") ∧
  ETLPipeline.transform heron_sqrt ETLPipeline.default_settings standard_scaler
    unpaired_players unpaired_teams = Raise (KeyError "match_feb_id").
Proof.
  apply (transform_raises_when_no_match_is_paired heron_sqrt
           ETLPipeline.default_settings standard_scaler
           unpaired_players unpaired_teams).
  intros m Hm. vm_compute in Hm.
  apply list_elem_of_singleton in Hm as ->. vm_compute. discriminate.
Defined.

Example sample_run_with_the_default_threshold :
  (aggregated_players_of
    <$> ETLPipeline.aggregated ETLPipeline.default_settings sample_players sample_teams)
    = Ok [2].
Proof. by_computation. Qed.

Example sample_run_with_threshold_three :
  (aggregated_players_of
    <$> ETLPipeline.aggregated (with_min_games 3 ETLPipeline.default_settings)
          sample_players sample_teams)
    = Ok [1; 2].
Proof. by_computation. Qed.

Lemma games_played_threshold_witness :
  ∃ out,
    ETLPipeline.aggregated ETLPipeline.default_settings sample_players sample_teams
      = Ok out ∧
    games_played sample_players 1 = 3 ∧
    (1 ∉ aggregated_players_of out) ∧
    2 ∈ aggregated_players_of out ∧
    ∃ out',
      ETLPipeline.aggregated (with_min_games 3 ETLPipeline.default_settings)
        sample_players sample_teams = Ok out' ∧
      1 ∈ aggregated_players_of out'.
Proof.
  destruct games_played_threshold_decides_presence
    as (_ & Hpresence & _ & Hrestore).
  destruct (ETLPipeline.aggregated ETLPipeline.default_settings
              sample_players sample_teams) as [out|e] eqn:Hout.
  - exists out. split; [reflexivity|].
    assert (Hgames : games_played sample_players 1 = 3) by (vm_compute; reflexivity).
    split; [exact Hgames|]. split; [|split].
    + intros Hin. apply (Hpresence _ _ _ _ Hout) in Hin as [_ Hle].
      rewrite Hgames in Hle. 
      change (5 ≤ 3)%Z in Hle. exact (Hle eq_refl).
    + apply (Hpresence _ _ _ _ Hout). split; [by_computation|].
      assert (games_played sample_players 2 = 5) as -> by (vm_compute; reflexivity).
      change (5 ≤ 5)%Z. discriminate.
    + destruct (Hrestore _ _ _ out 1 Hout) as (out' & Hout' & Hin');
        [by_computation|].
      rewrite Hgames in Hout'. exists out'. split; [exact Hout'|exact Hin'].
  - vm_compute in Hout. discriminate Hout.
Defined.


Example sample_transform_end_to_end :
  minutes_by_player
    (ETLPipeline.transform heron_sqrt (with_min_games 3 ETLPipeline.default_settings)
       standard_scaler sample_players sample_teams)
    = Ok [(1, of_Z 45); (2, Fin (qc 350 3))].
Proof. by_computation. Qed.

(** * The rest of the code

    The validators and cleaners, the raw totals and the simple mode of
    the aggregator, the remaining feature engineering steps and the
    other methods of the scaler. *)

Arguments fge : simpl never.
Arguments flt : simpl never.
Arguments fle : simpl never.
Arguments clip : simpl never.

Section MoreListFacts.

Context {A : Type}.

Lemma filter_all (P : A → Prop) `{!∀ x, Decision (P x)} (l : list A) :
  (∀ x, x ∈ l → P x) → filter P l = l.
Proof.
  induction l as [|x l IH]; intros HP; [done|].
  rewrite filter_cons_True by (apply HP; by left).
  f_equal. apply IH. intros y Hy. apply HP. by right.
Qed.

Lemma filter_none (P : A → Prop) `{!∀ x, Decision (P x)} (l : list A) :
  (∀ x, x ∈ l → ¬ P x) → filter P l = [].
Proof.
  induction l as [|x l IH]; intros HP; [done|].
  rewrite filter_cons_False by (apply HP; by left).
  apply IH. intros y Hy. apply HP. by right.
Qed.

Lemma filter_map {B} (f : A → B) (P : B → Prop) `{!∀ y, Decision (P y)} (l : list A) :
  filter P (map f l) = map f (filter (λ x, P (f x)) l).
Proof.
  induction l as [|x l IH]; [done|]. simpl map.
  destruct (decide (P (f x))) as [HP|HP].
  - rewrite !filter_cons_True by done. simpl. by rewrite IH.
  - by rewrite !filter_cons_False.
Qed.

End MoreListFacts.

Section ValidatorFacts.

Import DataCleaner.

Implicit Types (df : DataFrame) (r : Row) (c col : string).

Lemma select_columns mask df : columns (select mask df) = columns df.
Proof. done. Qed.

Lemma has_column_columns df1 df2 c :
  columns df1 = columns df2 → has_column df1 c = has_column df2 c.
Proof. unfold has_column. by intros ->. Qed.





End ValidatorFacts.

Section ValidatorClaims.

Import DataCleaner.






End ValidatorClaims.

Section RequiredColumns.

Import DataCleaner.

(** X1.  [validate_required_columns] returns [True] when every required
    label is a column of the table; otherwise it raises the
    [ValueError] whose message lists the missing labels, in the order
    they were required.  It never returns [False]. *)
Theorem validate_required_columns_true_or_value_error
    (df : DataFrame) (required_cols : list string) :
  let missing := filter (λ col, col ∉ all_columns df) required_cols in
  (validate_required_columns df required_cols = Ok true ↔
     ∀ col, col ∈ required_cols → col ∈ all_columns df) ∧
  (∀ col, col ∈ required_cols → col ∉ all_columns df →
     col ∈ missing ∧
     validate_required_columns df required_cols =
       Raise (ValueError ("Falten columnes requerides: " +:+ Python.repr_list missing))) ∧
  validate_required_columns df required_cols ≠ Ok false.
Proof.
  intros missing. unfold validate_required_columns. fold missing.
  assert (Hmissing : ∀ col, col ∈ missing ↔ col ∈ required_cols ∧ col ∉ all_columns df).
  { intros col. unfold missing. rewrite list_elem_of_filter. tauto. }
  destruct missing as [|m rest] eqn:Hm.
  - split; [|split; [|done]].
    + split; [|done]. intros _ col Hcol.
      destruct (decide (col ∈ all_columns df)) as [|Hno]; [done|].
      exfalso. apply (elem_of_nil col), Hmissing. done.
    + intros col Hcol Hno. exfalso. apply (elem_of_nil col), Hmissing. done.
  - split; [|split; [|done]].
    + split; [done|]. intros Hall. exfalso.
      destruct (proj1 (Hmissing m)) as [Hreq Hno]; [by left|].
      by apply Hno, Hall.
    + intros col Hcol Hno. split; [|done]. by apply Hmissing.
Qed.

End RequiredColumns.

Lemma validate_required_columns_witness :
  DataCleaner.validate_required_columns sample_frame ["pts"; "ast"; "player_name"; "blk"] =
    Raise (ValueError "Falten columnes requerides: ['ast', 'blk']") ∧
  DataCleaner.validate_required_columns sample_frame ["pts"; "player_name"] = Ok true.
Proof.
  split.
  - apply (proj1 (proj2 (validate_required_columns_true_or_value_error
                           sample_frame ["pts"; "ast"; "player_name"; "blk"])) "ast").
    + by_computation.
    + by_computation.
  - apply (proj1 (validate_required_columns_true_or_value_error
                    sample_frame ["pts"; "player_name"])).
    intros col Hcol. revert col Hcol. apply Forall_forall. by_computation.
Defined.

Section ClipFacts.

Local Open Scope Qc_scope.

Lemma clip_valid (x : fval) :
  flt x (of_Z 0) = false → fgt x (of_Z 1) = false → clip (of_Z 0) (of_Z 1) x = x.
Proof. intros Hlow Hhigh. unfold clip. by rewrite Hlow, Hhigh. Qed.

Lemma clip_unit_interval (x : fval) :
  (x = NaN ∧ clip (of_Z 0) (of_Z 1) x = NaN) ∨
  in_unit_interval (clip (of_Z 0) (of_Z 1) x).
Proof.
  unfold clip, in_unit_interval.
  destruct x as [q| | |]; [|by left|right..].
  - right. unfold flt, fgt, of_Z.
    destruct (bool_decide (q < Q2Qc (inject_Z 0))) eqn:Hlow.
    { exists (Q2Qc 0). done. }
    destruct (bool_decide (Q2Qc (inject_Z 1) < q)) eqn:Hhigh.
    { exists (Q2Qc 1). done. }
    exists q. split; [done|].
    apply bool_decide_eq_false in Hlow, Hhigh.
    split; by apply Qcnot_lt_le.
  - exists (Q2Qc 1). done.
  - exists (Q2Qc 0). done.
Qed.

Lemma clip_in_unit_interval (x : fval) :
  in_unit_interval x → clip (of_Z 0) (of_Z 1) x = x.
Proof.
  intros (q & -> & Hlow & Hhigh). apply clip_valid.
  - unfold flt, fgt, of_Z. apply bool_decide_eq_false. by apply Qcle_not_lt.
  - unfold fgt, of_Z. apply bool_decide_eq_false. by apply Qcle_not_lt.
Qed.

Lemma clip_idempotent (x : fval) :
  clip (of_Z 0) (of_Z 1) (clip (of_Z 0) (of_Z 1) x) = clip (of_Z 0) (of_Z 1) x.
Proof.
  destruct (clip_unit_interval x) as [[-> ->]|Hunit]; [done|].
  by apply clip_in_unit_interval.
Qed.

End ClipFacts.

Section PercentageFacts.

Import DataCleaner.

Implicit Types (df : DataFrame) (r : Row) (c col : string).

Lemma columns_assign_present c f df :
  has_column df c = true → columns (assign c f df) = columns df.
Proof.
  intros Hc. unfold assign, add_label. simpl.
  unfold has_column in Hc. by rewrite Hc.
Qed.

Lemma same_identity_refl r : same_identity r r.
Proof. by repeat split. Qed.

Lemma same_identity_trans r1 r2 r3 :
  same_identity r1 r2 → same_identity r2 r3 → same_identity r1 r3.
Proof.
  intros (? & ? & ? & ?) (? & ? & ? & ?). repeat split; congruence.
Qed.

Lemma same_identity_set_cell c v r : same_identity r (set_cell c v r).
Proof. by repeat split. Qed.

Lemma validate_percentage_spec df col :
  columns (validate_percentage df col) = columns df ∧
  length (rows (validate_percentage df col)) = length (rows df) ∧
  ∀ i r, rows df !! i = Some r →
    ∃ r', rows (validate_percentage df col) !! i = Some r' ∧
      same_identity r r' ∧
      ∀ c, cell r' c =
             if bool_decide (c = col) && has_column df col
             then clip (of_Z 0) (of_Z 1) (cell r c) else cell r c.
Proof.
  unfold validate_percentage.
  destruct (has_column df col) eqn:Hcol.
  2:{ split; [done|]. split; [done|]. intros i r Hr. exists r.
      split; [done|]. split; [apply same_identity_refl|].
      intros c. by rewrite andb_false_r. }
  cbv zeta.
  match goal with
  | |- context [bool_decide ?P] => destruct (bool_decide P) eqn:Hcount
  end.
  - split; [by apply columns_assign_present|].
    split; [apply rows_assign_length|].
    intros i r Hr. eexists. split; [by apply rows_assign_lookup|].
    split; [apply same_identity_set_cell|].
    intros c. rewrite andb_true_r.
    destruct (decide (c = col)) as [->|Hne].
    + rewrite bool_decide_eq_true_2 by done. apply cell_set_cell_eq.
    + rewrite bool_decide_eq_false_2 by done. by apply cell_set_cell_ne.
  - split; [done|]. split; [done|]. intros i r Hr. exists r.
    split; [done|]. split; [apply same_identity_refl|].
    intros c. rewrite andb_true_r.
    destruct (decide (c = col)) as [->|Hne].
    2:{ by rewrite bool_decide_eq_false_2. }
    rewrite bool_decide_eq_true_2 by done. symmetry.
    apply bool_decide_eq_false in Hcount.
    set (invalid := λ r, flt (cell r col) (of_Z 0) || fgt (cell r col) (of_Z 1)).
    assert (Hnone : filter (λ r, invalid r = true) (rows df) = []).
    { unfold invalid. destruct (filter _ (rows df)); [done|]. simpl in Hcount. lia. }
    assert (Hvalid : invalid r = false).
    { destruct (invalid r) eqn:Hinv; [|done].
      assert (r ∈ filter (λ r, invalid r = true) (rows df)) as Hin.
      { apply list_elem_of_filter. split; [done|].
        by apply (list_elem_of_lookup_2 _ i). }
      rewrite Hnone in Hin. by apply elem_of_nil in Hin. }
    unfold invalid in Hvalid. apply orb_false_iff in Hvalid as [Hlow Hhigh].
    by apply clip_valid.
Qed.

Lemma validate_percentages_spec df pct_cols :
  columns (validate_percentages df pct_cols) = columns df ∧
  length (rows (validate_percentages df pct_cols)) = length (rows df) ∧
  ∀ i r, rows df !! i = Some r →
    ∃ r', rows (validate_percentages df pct_cols) !! i = Some r' ∧
      same_identity r r' ∧
      ∀ c, cell r' c =
             if bool_decide (c ∈ pct_cols) && has_column df c
             then clip (of_Z 0) (of_Z 1) (cell r c) else cell r c.
Proof.
  unfold validate_percentages. revert df.
  induction pct_cols as [|col rest IH]; intros df.
  { split; [done|]. split; [done|]. intros i r Hr. exists r.
    split; [done|]. split; [apply same_identity_refl|]. done. }
  cbn [foldl].
  destruct (validate_percentage_spec df col) as (Hcols1 & Hlen1 & Hrows1).
  destruct (IH (validate_percentage df col)) as (Hcols & Hlen & Hrows).
  split; [congruence|]. split; [congruence|].
  intros i r Hr.
  destruct (Hrows1 i r Hr) as (r1 & Hr1 & Hid1 & Hcell1).
  destruct (Hrows i r1 Hr1) as (r' & Hr' & Hid & Hcell).
  exists r'. split; [done|]. split; [by apply (same_identity_trans _ r1)|].
  intros c. rewrite Hcell, Hcell1.
  rewrite (has_column_columns _ df) by done.
  destruct (decide (c = col)) as [->|Hne].
  - rewrite (bool_decide_eq_true_2 (col = col)) by done.
    rewrite (bool_decide_eq_true_2 (col ∈ col :: rest)) by (by left).
    destruct (has_column df col); simpl.
    + destruct (bool_decide (col ∈ rest)); [apply clip_idempotent|done].
    + by rewrite andb_false_r.
  - rewrite (bool_decide_eq_false_2 (c = col)) by done. simpl.
    assert (bool_decide (c ∈ col :: rest) = bool_decide (c ∈ rest)) as ->; [|done].
    apply bool_decide_ext. rewrite elem_of_cons. tauto.
Qed.

(** X3.  [validate_percentages] keeps the rows and the columns; in
    every listed column that is a column of the table each value is
    clipped to the interval from 0 to 1 (a value inside it is kept, a
    missing value stays missing), and no other cell changes. *)
Theorem validate_percentages_clips_listed_columns
    (df : DataFrame) (pct_cols : list string) :
  let out := validate_percentages df pct_cols in
  columns out = columns df ∧
  length (rows out) = length (rows df) ∧
  ∀ i r, rows df !! i = Some r →
    ∃ r', rows out !! i = Some r' ∧
      same_identity r r' ∧
      (∀ c, c ∈ pct_cols → has_column df c = true →
         cell r' c = clip (of_Z 0) (of_Z 1) (cell r c) ∧
         (cell r c = NaN ∧ cell r' c = NaN ∨ in_unit_interval (cell r' c)) ∧
         (in_unit_interval (cell r c) → cell r' c = cell r c)) ∧
      (∀ c, c ∉ pct_cols ∨ has_column df c = false → cell r' c = cell r c).
Proof.
  intros out. unfold out.
  destruct (validate_percentages_spec df pct_cols) as (Hcols & Hlen & Hrows).
  split; [done|]. split; [done|].
  intros i r Hr. destruct (Hrows i r Hr) as (r' & Hr' & Hid & Hcell).
  exists r'. split; [done|]. split; [done|]. split.
  - intros c Hc Hcol. rewrite Hcell, Hcol, (bool_decide_eq_true_2 _ Hc). simpl.
    split; [done|]. split; [apply clip_unit_interval|apply clip_in_unit_interval].
  - intros c [Hc|Hcol]; rewrite Hcell.
    + by rewrite (bool_decide_eq_false_2 _ Hc).
    + by rewrite Hcol, andb_false_r.
Qed.

End PercentageFacts.

Section ComputedPercentages.

Import FeatureEngineer DataCleaner.

Local Open Scope Qc_scope.

Lemma guarded_ratio_in_unit_interval (m a : Qc) :
  Q2Qc 0 ≤ m → m ≤ a →
  in_unit_interval (np_where (fgt (Fin a) zero) (fdiv (Fin m) (Fin a)) zero).
Proof.
  intros Hm Hma. unfold np_where.
  destruct (fgt (Fin a) zero) eqn:Hgt.
  - apply fgt_zero_fin in Hgt. rewrite fdiv_fin_pos by done.
    eexists. split; [reflexivity|]. split; [by apply Qc_div_nonneg|].
    unfold Qcdiv.
    replace (Q2Qc 1) with (a * / a) by (apply Qcmult_inv_r; by apply Qc_pos_nonzero).
    apply Qcmult_le_compat_r; [done|]. by apply Qclt_le_weak, Qcinv_pos.
  - exists (Q2Qc 0). done.
Qed.

Lemma validate_percentage_unchanged (df : DataFrame) (col : string) :
  (∀ r, r ∈ rows df → in_unit_interval (cell r col)) →
  validate_percentage df col = df.
Proof.
  intros Hvalid. unfold validate_percentage.
  destruct (has_column df col); [|done]. cbv zeta.
  rewrite bool_decide_eq_false_2; [done|].
  rewrite filter_none; [simpl; lia|].
  intros r Hr.
  destruct (Hvalid r Hr) as (q & -> & Hlow & Hhigh).
  unfold flt, fgt, of_Z.
  rewrite !bool_decide_eq_false_2; [done|by apply Qcle_not_lt..].
Qed.

(** X4.  The shooting percentages and usage rates that the feature
    engineering computes from a consistent box score (shots made are
    not more than shots attempted, attempts of a kind not more than all
    field-goal attempts) are all within 0 and 1: [validate_percentages]
    on the five columns returns the table as it is. *)
Theorem computed_percentages_pass_validation (df : DataFrame) :
  has_column df "2pa" = true → has_column df "2pm" = true →
  has_column df "3pa" = true → has_column df "3pm" = true →
  has_column df "fta" = true → has_column df "ftm" = true →
  has_column df "fga" = true →
  (∀ r, r ∈ rows df →
     shots_consistent r "2pm" "2pa" "fga" ∧ shots_consistent r "3pm" "3pa" "fga" ∧
     shots_consistent r "ftm" "fta" "fta") →
  ∃ df1 df2,
    calculate_shooting_percentages df = Ok df1 ∧
    calculate_usage_rates df1 = Ok df2 ∧
    (∀ r c, r ∈ rows df2 →
       c ∈ ["fg2_pct"; "fg3_pct"; "ft_pct"; "usage_2p"; "usage_3p"] →
       in_unit_interval (cell r c)) ∧
    validate_percentages df2
      ["fg2_pct"; "fg3_pct"; "ft_pct"; "usage_2p"; "usage_3p"] = df2.
Proof.
  intros H2a H2m H3a H3m Hfa Hfm Hfga Hbox.
  destruct (calculate_shooting_percentages_ok df H2a H2m H3a H3m Hfa Hfm)
    as (df1 & Hdf1 & Hcols & Hlen1 & Hrows1).
  destruct (calculate_usage_rates_ok df1 (Hcols _ Hfga) (Hcols _ H2a) (Hcols _ H3a))
    as (df2 & Hdf2 & Hlen2 & Hrows2).
  exists df1, df2. split; [done|]. split; [done|].
  assert (Hunit : ∀ r c, r ∈ rows df2 →
            c ∈ ["fg2_pct"; "fg3_pct"; "ft_pct"; "usage_2p"; "usage_3p"] →
            in_unit_interval (cell r c)).
  { intros r2 c Hr2 Hc.
    apply list_elem_of_lookup in Hr2 as [i Hr2].
    destruct (lookup_lt_is_Some_2 (rows df) i) as [r Hr].
    { rewrite <- Hlen1, <- Hlen2. by apply lookup_lt_Some in Hr2. }
    destruct (Hrows1 i r Hr) as (r1 & Hr1 & Hfg2 & Hfg3 & Hft & Hother1).
    destruct (Hrows2 i r1 Hr1) as (r2' & Hr2' & Hu2 & Hu3 & Hother2).
    assert (r2' = r2) as -> by congruence.
    destruct (Hbox r) as (H2 & H3 & H1); [by apply (list_elem_of_lookup_2 _ i)|].
    destruct H2 as (m2 & a2 & t & Hm2 & Ha2 & Ht & Hm2pos & Hm2a & Ha2t).
    destruct H3 as (m3 & a3 & t' & Hm3 & Ha3 & Ht' & Hm3pos & Hm3a & Ha3t).
    destruct H1 as (m1 & a1 & t1 & Hm1 & Ha1 & _ & Hm1pos & Hm1a & _).
    assert (t' = t) as -> by congruence.
    rewrite (Hother1 "fga"), (Hother1 "2pa"), (Hother1 "3pa") in *
      by (repeat (apply not_elem_of_cons; split; [discriminate|]); apply not_elem_of_nil).
    repeat (apply elem_of_cons in Hc as [->|Hc]); [..|by apply elem_of_nil in Hc].
    - rewrite (Hother2 "fg2_pct"), Hfg2, Hm2, Ha2
        by (repeat (apply not_elem_of_cons; split; [discriminate|]); apply not_elem_of_nil).
      by apply guarded_ratio_in_unit_interval.
    - rewrite (Hother2 "fg3_pct"), Hfg3, Hm3, Ha3
        by (repeat (apply not_elem_of_cons; split; [discriminate|]); apply not_elem_of_nil).
      by apply guarded_ratio_in_unit_interval.
    - rewrite (Hother2 "ft_pct"), Hft, Hm1, Ha1
        by (repeat (apply not_elem_of_cons; split; [discriminate|]); apply not_elem_of_nil).
      by apply guarded_ratio_in_unit_interval.
    - rewrite Hu2, Ha2, Ht. apply guarded_ratio_in_unit_interval; [|done].
      by apply Qcle_trans with m2.
    - rewrite Hu3, Ha3, Ht. apply guarded_ratio_in_unit_interval; [|done].
      by apply Qcle_trans with m3. }
  split; [exact Hunit|].
  unfold validate_percentages. cbn [foldl].
  assert (Hstep : ∀ c, c ∈ ["fg2_pct"; "fg3_pct"; "ft_pct"; "usage_2p"; "usage_3p"] →
            validate_percentage df2 c = df2).
  { intros c Hc. apply validate_percentage_unchanged. intros r Hr. by apply Hunit. }
  rewrite !Hstep by by_computation. done.
Qed.

End ComputedPercentages.

Section MissingValues.

Import DataCleaner.

Implicit Types (df : DataFrame) (r : Row) (c : string).

Lemma fillna_row_identity value labels r : same_identity r (fillna_row value labels r).
Proof.
  unfold fillna_row. revert r.
  induction labels as [|c labels IH]; intros r; [apply same_identity_refl|].
  cbn [foldl]. destruct (is_nan (cell r c)); [|apply IH].
  eapply same_identity_trans; [apply (same_identity_set_cell c value)|apply IH].
Qed.

Lemma fillna_row_cell value labels r c :
  cell (fillna_row value labels r) c =
    if bool_decide (c ∈ labels) && is_nan (cell r c) then value else cell r c.
Proof.
  unfold fillna_row. revert r.
  induction labels as [|l labels IH]; intros r; [done|].
  cbn [foldl]. rewrite IH.
  destruct (decide (c = l)) as [->|Hne].
  - rewrite (bool_decide_eq_true_2 (l ∈ l :: labels)) by (by left). simpl.
    destruct (is_nan (cell r l)) eqn:Hnan.
    + rewrite cell_set_cell_eq.
      destruct (bool_decide (l ∈ labels) && is_nan value) eqn:Hv; [|done].
      apply andb_true_iff in Hv as [_ Hv]. by destruct value.
    + by rewrite Hnan, andb_false_r.
  - assert (bool_decide (c ∈ l :: labels) = bool_decide (c ∈ labels)) as ->.
    { apply bool_decide_ext. rewrite elem_of_cons. tauto. }
    destruct (is_nan (cell r l)); [|done].
    by rewrite cell_set_cell_ne.
Qed.

(** X5.  [handle_missing_values] with strategy ['drop'] keeps, in
    order, exactly the rows that have no missing value in any column;
    with strategy ['fill'] it keeps every row and writes [fill_value]
    into the missing cells only.  The result has no missing value (for
    ['fill'], when the fill value is not itself missing); an infinite
    value counts as present.  Any other strategy raises the
    [ValueError] of the function. *)
Theorem handle_missing_values_by_strategy
    (df : DataFrame) (strategy : string) (fill_value : fval) :
  (strategy = "drop" →
   ∃ out, handle_missing_values df strategy fill_value = Ok out ∧
     columns out = columns df ∧
     rows out = filter (complete (columns df)) (rows df) ∧
     ∀ r c, r ∈ rows out → c ∈ columns out → is_nan (cell r c) = false) ∧
  (strategy = "fill" →
   ∃ out, handle_missing_values df strategy fill_value = Ok out ∧
     columns out = columns df ∧
     length (rows out) = length (rows df) ∧
     (∀ i r, rows df !! i = Some r →
        ∃ r', rows out !! i = Some r' ∧ same_identity r r' ∧
          ∀ c, cell r' c =
                 if bool_decide (c ∈ columns df) && is_nan (cell r c)
                 then fill_value else cell r c) ∧
     (is_nan fill_value = false →
      ∀ r c, r ∈ rows out → c ∈ columns out → is_nan (cell r c) = false)) ∧
  (strategy ≠ "drop" → strategy ≠ "fill" →
   handle_missing_values df strategy fill_value =
     Raise (ValueError ("Estratègia no vàlida: " +:+ strategy))).
Proof.
  unfold handle_missing_values. split; [|split].
  - intros ->. simpl. eexists. split; [reflexivity|].
    assert (Hrows : rows (dropna df) = filter (complete (columns df)) (rows df)).
    { unfold dropna, select. simpl. apply list_filter_iff. intros r.
      unfold complete. rewrite forallb_forall, Forall_forall. split.
      - intros Hall c Hc. apply list_elem_of_In in Hc.
        specialize (Hall c Hc). by destruct (is_nan (cell r c)).
      - intros Hall c Hc. apply list_elem_of_In in Hc. by rewrite Hall. }
    split; [done|]. split; [exact Hrows|].
    intros r c Hr Hc. rewrite Hrows in Hr.
    apply list_elem_of_filter in Hr as [Hr _].
    unfold complete in Hr. rewrite Forall_forall in Hr. by apply Hr.
  - intros ->. simpl. eexists. split; [reflexivity|].
    split; [done|]. split; [apply length_map|].
    assert (Hcells : ∀ i r, rows df !! i = Some r →
        ∃ r', rows (fillna fill_value df) !! i = Some r' ∧ same_identity r r' ∧
          ∀ c, cell r' c =
                 if bool_decide (c ∈ columns df) && is_nan (cell r c)
                 then fill_value else cell r c).
    { intros i r Hr. eexists. split.
      { unfold fillna. simpl. by rewrite list_lookup_fmap, Hr. }
      split; [apply fillna_row_identity|]. intros c. apply fillna_row_cell. }
    split; [exact Hcells|].
    intros Hfill r' c Hr' Hc.
    apply list_elem_of_lookup in Hr' as [i Hr'].
    destruct (lookup_lt_is_Some_2 (rows df) i) as [r Hr].
    { apply lookup_lt_Some in Hr'. unfold fillna in Hr'. simpl in Hr'.
      by rewrite length_map in Hr'. }
    destruct (Hcells i r Hr) as (r'' & Hr'' & _ & Hcell).
    assert (r'' = r') as -> by congruence.
    rewrite Hcell. simpl in Hc. rewrite (bool_decide_eq_true_2 _ Hc). simpl.
    by destruct (is_nan (cell r c)) eqn:Hnan.
  - intros Hdrop Hfill.
    by rewrite (bool_decide_eq_false_2 _ Hdrop), (bool_decide_eq_false_2 _ Hfill).
Qed.

End MissingValues.

Section Duplicates.

Import DataCleaner.

Context {K : Type} `{EqDecision K}.

Implicit Types (key : Row → K) (seen : list K) (table : list Row).

Lemma first_of_each_sublist key seen table :
  sublist (first_of_each key seen table) table.
Proof.
  revert seen. induction table as [|r table IH]; intros seen; simpl; [done|].
  destruct (bool_decide (key r ∈ seen)).
  - by apply sublist_cons.
  - by apply sublist_skip.
Qed.

Lemma first_of_each_fresh key seen table r :
  r ∈ first_of_each key seen table → key r ∉ seen.
Proof.
  revert seen. induction table as [|x table IH]; intros seen; simpl.
  { by intros ?%elem_of_nil. }
  destruct (bool_decide (key x ∈ seen)) eqn:Hseen.
  - apply IH.
  - apply bool_decide_eq_false in Hseen.
    intros [->|Hr]%elem_of_cons; [done|].
    apply IH in Hr. intros Hin. apply Hr. by right.
Qed.

Lemma first_of_each_NoDup key seen table :
  NoDup (map key (first_of_each key seen table)).
Proof.
  revert seen. induction table as [|x table IH]; intros seen; simpl.
  { constructor. }
  destruct (bool_decide (key x ∈ seen)); [apply IH|].
  simpl. apply NoDup_cons. split; [|apply IH].
  intros Hin. apply elem_of_map in Hin as (r & Hkey & Hr).
  apply first_of_each_fresh in Hr. apply Hr. rewrite <- Hkey. by left.
Qed.

Lemma first_of_each_first key seen table r :
  r ∈ table → key r ∉ seen →
  ∃ r', r' ∈ first_of_each key seen table ∧ key r' = key r ∧
        head (filter (λ x, key x = key r) table) = Some r'.
Proof.
  revert seen. induction table as [|x table IH]; intros seen Hr Hfresh.
  { by apply elem_of_nil in Hr. }
  simpl. destruct (bool_decide (key x ∈ seen)) eqn:Hseen.
  - apply bool_decide_eq_true in Hseen.
    assert (Hne : key x ≠ key r) by (intros Heq; apply Hfresh; by rewrite <- Heq).
    apply elem_of_cons in Hr as [->|Hr]; [done|].
    destruct (IH seen Hr Hfresh) as (r' & Hin & Hkey & Hhead).
    exists r'. split; [done|]. split; [done|].
    by rewrite filter_cons_False.
  - destruct (decide (key x = key r)) as [Heq|Hne].
    + exists x. split; [by left|]. split; [done|].
      by rewrite filter_cons_True.
    + apply elem_of_cons in Hr as [->|Hr]; [done|].
      destruct (IH (key x :: seen) Hr) as (r' & Hin & Hkey & Hhead).
      { intros [?|?]%elem_of_cons; [by apply Hne|done]. }
      exists r'. split; [by right|]. split; [done|].
      by rewrite filter_cons_False.
Qed.

End Duplicates.

Section RemoveDuplicates.

Import DataCleaner.

(** X6.  [remove_duplicates] keeps, in table order, the first row of
    each combination of values under the compared labels (all columns
    when no subset is given): no two rows of the result agree on these
    labels, and every row of the table is represented by the first row
    that agrees with it.  On a table with rows, a label of the subset
    that is not a column raises a [KeyError]; a table without rows is
    returned as it is, whatever the subset. *)
Theorem remove_duplicates_keeps_first_of_each_key
    (df : DataFrame) (subset : option (string * list string)) :
  let labels := compared_labels df subset in
  ((∀ c, c ∈ labels → c ∈ all_columns df) →
   ∃ out, remove_duplicates df subset = Ok out ∧
     columns out = columns df ∧
     sublist (rows out) (rows df) ∧
     NoDup (map (key_of labels) (rows out)) ∧
     ∀ r, r ∈ rows df →
       ∃ r', r' ∈ rows out ∧ key_of labels r' = key_of labels r ∧
             head (filter (λ x, key_of labels x = key_of labels r) (rows df))
               = Some r') ∧
  (rows df ≠ [] → ∀ c, c ∈ labels → c ∉ all_columns df →
   ∃ unknown, remove_duplicates df subset = Raise (KeyError unknown) ∧
              unknown ∈ labels ∧ unknown ∉ all_columns df) ∧
  (rows df = [] → remove_duplicates df subset = Ok df).
Proof.
  intros labels. unfold remove_duplicates, drop_duplicates.
  fold (compared_labels df subset). fold labels.
  split; [|split].
  - intros Hknown.
    destruct (rows df) as [|r0 table] eqn:Hrows.
    { exists df. rewrite Hrows. split; [done|]. split; [done|].
      split; [done|]. split; [constructor|]. by intros r ?%elem_of_nil. }
    rewrite filter_none by (intros c Hc Hno; by apply Hno, Hknown).
    eexists. split; [reflexivity|]. cbn [columns rows]. split; [done|].
    split; [apply first_of_each_sublist|].
    split; [apply (first_of_each_NoDup (key_of labels))|].
    intros r Hr. apply (first_of_each_first (key_of labels)); [done|].
    apply not_elem_of_nil.
  - intros Hrows c Hc Hno.
    destruct (rows df) as [|r0 table]; [done|].
    destruct (filter (λ c, c ∉ all_columns df) labels) as [|unknown rest] eqn:Hmissing.
    { exfalso. apply (elem_of_nil c). rewrite <- Hmissing.
      by apply list_elem_of_filter. }
    exists unknown. split; [done|].
    assert (Hin : unknown ∈ filter (λ c, c ∉ all_columns df) labels).
    { rewrite Hmissing. by left. }
    apply list_elem_of_filter in Hin as [? ?]. done.
  - by intros ->.
Qed.

End RemoveDuplicates.

Section RawTotals.

Import DataAggregator.

Implicit Types (df : DataFrame) (group : list Row) (c : string).

Lemma elem_of_dict_keys c (labels : list string) : c ∈ dict_keys labels ↔ c ∈ labels.
Proof.
  induction labels as [|l labels IH]; simpl; [done|].
  rewrite !elem_of_cons, list_elem_of_filter, IH.
  destruct (decide (c = l)) as [->|Hne]; [by split; [left|left]|].
  split; [intros [?|[_ ?]]; [by left|by right]|].
  intros [?|?]; [by left|by right].
Qed.

Lemma NoDup_dict_keys (labels : list string) : NoDup (dict_keys labels).
Proof.
  induction labels as [|l labels IH]; simpl; [constructor|].
  apply NoDup_cons. split.
  - rewrite list_elem_of_filter. intros [Hne _]. by apply Hne.
  - by apply NoDup_filter.
Qed.

Lemma sum_cells_lookup group keys acc c :
  sum_cells group keys acc !! c =
    if bool_decide (c ∈ keys) then Some (nansum (map (λ r, cell r c) group))
    else acc !! c.
Proof.
  revert acc. induction keys as [|k keys IH]; intros acc; simpl; [done|].
  rewrite IH. destruct (decide (c = k)) as [->|Hne].
  - rewrite (bool_decide_eq_true_2 (k ∈ k :: keys)) by (by left).
    rewrite lookup_insert_eq. by destruct (bool_decide (k ∈ keys)).
  - assert (bool_decide (c ∈ k :: keys) = bool_decide (c ∈ keys)) as ->.
    { apply bool_decide_ext. rewrite elem_of_cons. tauto. }
    destruct (bool_decide (c ∈ keys)); [done|]. by rewrite lookup_insert_ne.
Qed.

(** X7.  [aggregate_raw_stats] asks pandas to aggregate a [num_games]
    column: on a table without that column it raises a [KeyError],
    whatever statistics are asked for.  On a table that has the column
    it returns one row per player with the player's first name, the
    number of the player's game rows as [num_games], and for each
    requested statistic that is a column the sum of the values present. *)
Theorem aggregate_raw_stats_needs_a_num_games_column
    (df : DataFrame) (raw_stats : list string) :
  (has_column df "num_games" = false →
   aggregate_raw_stats df raw_stats =
     Raise (KeyError "Column(s) ['num_games'] do not exist")) ∧
  (has_column df "num_games" = true →
   ∃ out, aggregate_raw_stats df raw_stats = Ok out ∧
     map agg_player_feb_id (agg_rows out) = group_keys (players_of df) ∧
     NoDup (agg_columns out) ∧
     (∀ c, c ∈ agg_columns out ↔
           c = "num_games" ∨ (c ∈ raw_stats ∧ has_column df c = true)) ∧
     ∀ row, row ∈ agg_rows out →
       let games := games_of df (agg_player_feb_id row) in
       games ≠ [] ∧
       agg_player_name row = agg_first games ∧
       agg_cell row "num_games" = of_Z (Z.of_nat (length games)) ∧
       ∀ c, c ∈ raw_stats → has_column df c = true → c ≠ "num_games" →
         agg_cell row c = nansum (map (λ r, cell r c) games)).
Proof.
  unfold aggregate_raw_stats. split; [by intros ->|].
  intros Hnum. rewrite Hnum.
  set (kept := dict_keys (filter (λ col, has_column df col = true) raw_stats)).
  assert (Hkept : ∀ c, c ∈ kept ↔ c ∈ raw_stats ∧ has_column df c = true).
  { intros c. unfold kept. rewrite elem_of_dict_keys, list_elem_of_filter. tauto. }
  unfold groupby_player.
  rewrite (for_each_group_keys _
             (λ p, mkAgg p (agg_first (games_of df p))
                     (<["num_games" := of_Z (Z.of_nat (length (games_of df p)))]>
                        (sum_cells (games_of df p) kept ∅)))) by done.
  step_result. eexists. split; [reflexivity|]. simpl.
  split.
  { rewrite map_map. simpl. apply map_id. }
  split.
  { destruct (bool_decide ("num_games" ∈ kept)) eqn:Hin; [apply NoDup_dict_keys|].
    apply bool_decide_eq_false in Hin.
    apply NoDup_app. split; [apply NoDup_dict_keys|].
    split; [|apply NoDup_singleton].
    intros c Hc ->%list_elem_of_singleton. done. }
  split.
  { intros c. destruct (bool_decide ("num_games" ∈ kept)) eqn:Hin.
    - apply bool_decide_eq_true in Hin. rewrite Hkept. split; [by right|].
      intros [->|?]; [by apply Hkept|done].
    - rewrite elem_of_app, list_elem_of_singleton, Hkept. tauto. }
  intros row Hrow. apply elem_of_map in Hrow as (p & -> & Hp). simpl.
  split; [by apply games_of_nonempty, elem_of_group_keys|].
  split; [done|]. unfold agg_cell. simpl. split.
  { by rewrite lookup_insert_eq. }
  intros c Hc Hcol Hne. rewrite lookup_insert_ne by done.
  rewrite sum_cells_lookup, bool_decide_eq_true_2; [done|]. by apply Hkept.
Qed.

End RawTotals.

Section SimpleMode.

Import DataAggregator.

Implicit Types (df : DataFrame) (features : list string) (c : string).

Lemma nanmean_all_missing {A} (g : A → fval) (l : list A) :
  (∀ x, x ∈ l → is_nan (g x) = true) → nanmean (map g l) = NaN.
Proof.
  intros Hmissing. unfold nanmean.
  rewrite filter_map, filter_none; [done|].
  intros x Hx. by rewrite Hmissing.
Qed.

Lemma nanmean_of_present (games : list Row) c :
  games_with c games ≠ [] →
  (∀ r, r ∈ games_with c games → is_finite (cell r c) = true) →
  nanmean (map (λ r, cell r c) games) =
    Fin (Qc_sum (map (λ r, rational (cell r c)) (games_with c games))
         / Qc_length (games_with c games))%Qc.
Proof.
  intros Hne Hfin. rewrite <- nanmean_present, filter_map.
  by apply nanmean_finite.
Qed.

Lemma strictly_sorted (l : list Z) :
  StronglySorted Z.le l → NoDup l → StronglySorted Z.lt l.
Proof.
  induction 1 as [|x l Hsorted IH Hall]; intros Hnodup; [constructor|].
  apply NoDup_cons in Hnodup as [Hx Hnodup].
  constructor; [by apply IH|].
  apply Forall_forall. intros y Hy.
  rewrite Forall_forall in Hall. specialize (Hall y Hy).
  assert (x ≠ y) by (by intros ->). lia.
Qed.

Lemma group_keys_ascending (l : list Z) : StronglySorted Z.lt (group_keys l).
Proof.
  apply strictly_sorted; [|apply NoDup_group_keys].
  unfold group_keys. apply StronglySorted_merge_sort; apply _.
Qed.

(** X8.  Without a [minutes_played] column the weighted flag has no
    effect: [aggregate_by_player] takes the simple mode, as it does
    when [weighted] is false.  In that mode the table has exactly one
    row per player of the input, and a player's aggregate of a
    feature is the mean of the values present in the player's games
    (a game with a missing value is left out of the mean, and the
    aggregate is missing only when every game misses the value); the
    minutes are summed when the table has them. *)
Theorem simple_mode_averages_the_values_present df features (weighted : bool) :
  weighted = false ∨ has_column df "minutes_played" = false →
  ∃ out,
    aggregate_by_player df features weighted = Ok out ∧
    aggregate_by_player df features false = Ok out ∧
    NoDup (map agg_player_feb_id (agg_rows out)) ∧
    (∀ p, p ∈ map agg_player_feb_id (agg_rows out) ↔
          p ∈ map player_feb_id (rows df)) ∧
    ∀ row, row ∈ agg_rows out →
      let games := games_of df (agg_player_feb_id row) in
      agg_player_name row = agg_first games ∧
      agg_cell row "minutes_played" =
        (if has_column df "minutes_played"
         then nansum (map (λ r, cell r "minutes_played") games) else NaN) ∧
      ∀ c, c ∈ features → has_column df c = true → c ≠ "minutes_played" →
        agg_cell row c = nanmean (map (λ r, cell r c) games) ∧
        ((∀ r, r ∈ games → is_nan (cell r c) = true) → agg_cell row c = NaN) ∧
        (games_with c games ≠ [] →
         (∀ r, r ∈ games_with c games → is_finite (cell r c) = true) →
         agg_cell row c =
           Fin (Qc_sum (map (λ r, rational (cell r c)) (games_with c games))
                / Qc_length (games_with c games))%Qc).
Proof.
  intros Hmode.
  assert (Hsimple : aggregate_by_player df features weighted =
                    aggregate_by_player df features false).
  { unfold aggregate_by_player. destruct Hmode as [->| ->]; [done|].
    by rewrite orb_true_r. }
  rewrite Hsimple, aggregate_simple_ok.
  eexists. split; [reflexivity|]. split; [reflexivity|]. simpl.
  rewrite (aggregated_players df features simple_row) by done.
  split; [apply NoDup_group_keys|].
  split; [intros p; apply elem_of_group_keys|].
  intros row Hrow. apply elem_of_map in Hrow as (p & -> & Hp). simpl.
  split; [done|]. split.
  { unfold agg_cell, simple_row. simpl.
    destruct (has_column df "minutes_played") eqn:Hmp.
    - by rewrite lookup_insert_eq.
    - rewrite mean_cells_lookup, Hmp, andb_false_r. done. }
  intros c Hc Hcol Hne. rewrite simple_row_feature by done.
  split; [done|]. split.
  - apply nanmean_all_missing.
  - apply nanmean_of_present.
Qed.

(** X9.  In both modes the aggregated table lists the players in
    ascending order of their id, each once; on a table with rows its
    columns are, without repetition, the requested features that are
    columns of the table, and [minutes_played] when the table has it. *)
Theorem aggregated_table_is_sorted_by_player df features (weighted : bool) :
  ∃ out,
    aggregate_by_player df features weighted = Ok out ∧
    StronglySorted Z.lt (aggregated_players_of out) ∧
    (∀ p, p ∈ aggregated_players_of out ↔ p ∈ players_of df) ∧
    (rows df ≠ [] →
     NoDup (agg_columns out) ∧
     ∀ c, c ∈ agg_columns out ↔
          (c ∈ features ∧ has_column df c = true) ∨
          (c = "minutes_played" ∧ has_column df "minutes_played" = true)).
Proof.
  destruct (aggregate_by_player_total df features weighted) as [out Hout].
  exists out. split; [done|].
  rewrite (aggregate_by_player_players _ _ _ _ Hout).
  split; [apply group_keys_ascending|].
  split; [intros p; apply elem_of_group_keys|].
  intros _.
  assert (agg_columns out = aggregated_labels df features) as ->.
  { unfold aggregate_by_player in Hout.
    destruct (negb weighted || negb (has_column df "minutes_played"));
      destruct (for_each_group _ _); step_result; try discriminate;
      by injection Hout as <-. }
  unfold aggregated_labels.
  set (kept := dict_keys (filter (λ c, has_column df c = true) features)).
  assert (Hkept : ∀ c, c ∈ kept ↔ c ∈ features ∧ has_column df c = true).
  { intros c. unfold kept. rewrite elem_of_dict_keys, list_elem_of_filter. tauto. }
  destruct (has_column df "minutes_played") eqn:Hmp; simpl.
  - destruct (bool_decide ("minutes_played" ∈ kept)) eqn:Hin; simpl.
    + apply bool_decide_eq_true in Hin. split; [apply NoDup_dict_keys|].
      intros c. rewrite Hkept. split; [by left|].
      intros [?|[-> _]]; [done|by apply Hkept].
    + apply bool_decide_eq_false in Hin. split.
      * apply NoDup_app. split; [apply NoDup_dict_keys|].
        split; [|apply NoDup_singleton].
        intros c Hc ->%list_elem_of_singleton. done.
      * intros c. rewrite elem_of_app, list_elem_of_singleton, Hkept. tauto.
  - split; [apply NoDup_dict_keys|].
    intros c. rewrite Hkept. split; [by left|]. intros [?|[_ ?]]; done.
Qed.

End SimpleMode.

Section StringFacts.

Lemma string_length_app (s t : string) :
  String.length (s +:+ t) = (String.length s + String.length t)%nat.
Proof. induction s as [|ch s IH]; [done|]. simpl. by rewrite IH. Qed.

Lemma string_app_inj_r (s1 s2 t : string) : s1 +:+ t = s2 +:+ t → s1 = s2.
Proof.
  revert s2. induction s1 as [|c1 s1 IH]; intros [|c2 s2] Heq.
  - done.
  - apply (f_equal String.length) in Heq.
    rewrite !string_length_app in Heq. simpl in Heq. lia.
  - apply (f_equal String.length) in Heq.
    rewrite !string_length_app in Heq. simpl in Heq. lia.
  - change (String c1 (s1 +:+ t) = String c2 (s2 +:+ t)) in Heq.
    injection Heq as -> Heq. f_equal. by apply IH.
Qed.

Lemma per_label_inj target (s1 s2 : string) :
  per_label target s1 = per_label target s2 → s1 = s2.
Proof. apply string_app_inj_r. Qed.

End StringFacts.

Section PerMinutes.

Import FeatureEngineer.

Implicit Types (df : DataFrame) (r : Row) (c s stat : string).

Variable target_minutes : Z.

Let per := per_label target_minutes.

(** [(df[stat] / df[minutes_col]) * target_minutes] for one row. *)
Let scaled r stat : fval :=
  fmul (fdiv (cell r stat) (cell r "minutes_played")) (of_Z target_minutes).

Lemma normalize_per_minutes_spec df stats_cols :
  has_column df "minutes_played" = true →
  (∀ s, s ∈ stats_cols → (per s ∉ stats_cols) ∧ per s ≠ "minutes_played") →
  ∃ out, normalize_per_minutes df stats_cols target_minutes = Ok out ∧
    length (rows out) = length (rows df) ∧
    (∀ c, has_column out c = true ↔
          has_column df c = true ∨
          ∃ s, s ∈ stats_cols ∧ has_column df s = true ∧ c = per s) ∧
    ∀ i r, rows df !! i = Some r →
      ∃ r', rows out !! i = Some r' ∧ same_identity r r' ∧
        (∀ s, s ∈ stats_cols → has_column df s = true → cell r' (per s) = scaled r s) ∧
        (∀ c, (∀ s, s ∈ stats_cols → has_column df s = true → c ≠ per s) →
              cell r' c = cell r c).
Proof.
  revert df. induction stats_cols as [|stat rest IH]; intros df Hmp Hfresh.
  { exists df. split; [done|]. split; [done|]. split.
    - intros c. split; [by left|]. intros [?|(s & Hs & _)]; [done|].
      by apply elem_of_nil in Hs.
    - intros i r Hr. exists r. split; [done|]. split; [apply same_identity_refl|].
      split; [|done]. by intros s Hs%elem_of_nil. }
  assert (Hrest : ∀ s, s ∈ rest → (per s ∉ rest) ∧ per s ≠ "minutes_played").
  { intros s Hs. destruct (Hfresh s) as [Hno Hne]; [by right|].
    split; [|done]. intros Hin. apply Hno. by right. }
  cbn [normalize_per_minutes].
  destruct (has_column df stat) eqn:Hstat.
  2:{ destruct (IH df Hmp Hrest) as (out & Hout & Hlen & Hcols & Hrows).
      exists out. split; [done|]. split; [done|]. split.
      - intros c. rewrite Hcols. split; (intros [?|(s & Hs & Hcol & ->)]; [by left|right]).
        + exists s. split; [by right|done].
        + exists s. apply elem_of_cons in Hs as [->|Hs]; [congruence|done].
      - intros i r Hr. destruct (Hrows i r Hr) as (r' & Hr' & Hid & Hnew & Hold).
        exists r'. split; [done|]. split; [done|]. split.
        + intros s [->|Hs]%elem_of_cons Hcol; [congruence|by apply Hnew].
        + intros c Hc. apply Hold. intros s Hs. apply Hc. by right. }
  rewrite (column_ok _ _ Hmp). unfold mbind, result_bind. cbv beta iota.
  fold (per_label target_minutes stat). fold (per stat).
  set (df1 := assign (per stat) _ df).
  destruct (Hfresh stat) as [Hnew_stat Hnew_mp]; [by left|].
  assert (Hsame : ∀ s, s ∈ stat :: rest → has_column df1 s = has_column df s).
  { intros s Hs. unfold df1. rewrite has_column_assign.
    rewrite bool_decide_eq_false_2; [by rewrite orb_false_r|].
    intros ->. done. }
  destruct (IH df1) as (out & Hout & Hlen & Hcols & Hrows).
  { by apply has_column_assign_keep. }
  { done. }
  exists out. split; [done|].
  split; [by rewrite Hlen; apply rows_assign_length|]. split.
  - intros c. rewrite Hcols. unfold df1 at 1. rewrite has_column_assign.
    rewrite orb_true_iff, bool_decide_eq_true. split.
    + intros [[?| ->]|(s & Hs & Hcol & ->)]; [by left|right..].
      * exists stat. split; [by left|done].
      * exists s. split; [by right|]. split; [|done].
        rewrite <- Hcol. symmetry. apply Hsame. by right.
    + intros [?|(s & Hs & Hcol & ->)]; [by left; left|].
      apply elem_of_cons in Hs as [->|Hs]; [by left; right|].
      right. exists s. split; [done|]. split; [|done].
      rewrite <- Hcol. apply Hsame. by right.
  - intros i r Hr.
    destruct (Hrows i (set_cell (per stat) (scaled r stat) r))
      as (r' & Hr' & Hid & Hnew & Hold).
    { unfold df1. by apply rows_assign_lookup. }
    exists r'. split; [done|].
    split; [by eapply same_identity_trans; [apply same_identity_set_cell|]|].
    assert (Hscaled : ∀ s, s ∈ stat :: rest →
              scaled (set_cell (per stat) (scaled r stat) r) s = scaled r s).
    { intros s Hs. unfold scaled. rewrite !cell_set_cell_ne; [done|done|].
      intros <-. done. }
    split.
    + intros s Hs Hcol.
      destruct (decide (s ∈ rest)) as [Hin|Hnotin].
      * rewrite Hnew by (by rewrite ?Hsame by (by right)). by apply Hscaled.
      * apply elem_of_cons in Hs as [->|Hs]; [|done].
        rewrite Hold.
        { apply cell_set_cell_eq. }
        intros s Hs _ Heq%per_label_inj. by subst.
    + intros c Hc. rewrite Hold.
      * apply cell_set_cell_ne. intros Heq. by apply (Hc stat); [left| |].
      * intros s Hs Hcol. apply Hc; [by right|].
        rewrite <- Hcol. symmetry. apply Hsame. by right.
Qed.

End PerMinutes.

Lemma divided_by_zero_is_not_a_number (x t : fval) :
  is_finite (fmul (fdiv x zero) t) = false.
Proof.
  assert (Hzero : ∀ a, fdiv (Fin a) zero = if qzero a then NaN else signed_inf (qpos a))
    by reflexivity.
  destruct x as [a| | |]; [rewrite Hzero|done| |].
  - destruct (qzero a), (qpos a), t as [b| | |]; try done;
      unfold fmul, signed_inf, inf_times; by destruct (qzero b), (qpos b).
  - change (fdiv PInf zero) with PInf.
    destruct t as [b| | |]; try done.
    unfold fmul, signed_inf, inf_times; by destruct (qzero b), (qpos b).
  - change (fdiv NInf zero) with NInf.
    destruct t as [b| | |]; try done.
    unfold fmul, signed_inf, inf_times; by destruct (qzero b), (qpos b).
Qed.

(** X10.  [normalize_per_minutes] adds, for every listed statistic that
    is a column, the column [<stat>_per<target>] holding
    [stat / minutes_played * target], and changes nothing else; a
    statistic that is not a column is skipped.  The division is not
    guarded: a game with zero minutes gets an infinite or a missing
    value, never a number.  (The new labels are assumed not to be
    listed statistics themselves.) *)
Theorem normalize_per_minutes_scales_each_statistic
    (df : DataFrame) (stats_cols : list string) (target_minutes : Z) :
  has_column df "minutes_played" = true →
  (∀ s, s ∈ stats_cols →
     (per_label target_minutes s ∉ stats_cols) ∧
     per_label target_minutes s ≠ "minutes_played") →
  ∃ out,
    FeatureEngineer.normalize_per_minutes df stats_cols target_minutes = Ok out ∧
    length (rows out) = length (rows df) ∧
    (∀ c, has_column out c = true ↔
          has_column df c = true ∨
          ∃ s, s ∈ stats_cols ∧ has_column df s = true ∧ c = per_label target_minutes s) ∧
    ∀ i r, rows df !! i = Some r →
      ∃ r', rows out !! i = Some r' ∧ same_identity r r' ∧
        (∀ s, s ∈ stats_cols → has_column df s = true →
           cell r' (per_label target_minutes s) =
             fmul (fdiv (cell r s) (cell r "minutes_played")) (of_Z target_minutes) ∧
           (∀ x m : Qc, cell r s = Fin x → cell r "minutes_played" = Fin m →
              m ≠ Q2Qc 0 →
              cell r' (per_label target_minutes s) =
                Fin (x / m * Q2Qc (inject_Z target_minutes))%Qc) ∧
           (cell r "minutes_played" = zero →
            is_finite (cell r' (per_label target_minutes s)) = false)) ∧
        (∀ c, (∀ s, s ∈ stats_cols → has_column df s = true →
                    c ≠ per_label target_minutes s) →
              cell r' c = cell r c).
Proof.
  intros Hmp Hfresh.
  destruct (normalize_per_minutes_spec target_minutes df stats_cols Hmp Hfresh)
    as (out & Hout & Hlen & Hcols & Hrows).
  exists out. split; [done|]. split; [done|]. split; [done|].
  intros i r Hr. destruct (Hrows i r Hr) as (r' & Hr' & Hid & Hnew & Hold).
  exists r'. split; [done|]. split; [done|]. split; [|done].
  intros s Hs Hcol. rewrite (Hnew s Hs Hcol). split; [done|]. split.
  - intros x m -> -> Hm. by rewrite fdiv_fin.
  - intros ->. apply divided_by_zero_is_not_a_number.
Qed.

Section WritesOnly.

Import FeatureEngineer.

Implicit Types (df : DataFrame) (r : Row) (c : string) (fresh : list string).

Lemma writes_only_ok : writes_only [] Ok.
Proof.
  intros df df' [= <-]. split; [done|]. split; [by left|]. split; [done|].
  intros i r Hr. exists r. split; [done|]. split; [apply same_identity_refl|done].
Qed.

Lemma writes_only_weaken fresh fresh' step :
  fresh ⊆ fresh' → writes_only fresh step → writes_only fresh' step.
Proof.
  intros Hsub Hstep df df' Hdf.
  destruct (Hstep df df' Hdf) as (Hkeep & Hnew & Hlen & Hrows).
  split; [done|]. split.
  { intros c Hc. destruct (Hnew c Hc) as [?|?]; [by left|right; by apply Hsub]. }
  split; [done|]. intros i r Hr.
  destruct (Hrows i r Hr) as (r' & Hr' & Hid & Hcell).
  exists r'. split; [done|]. split; [done|].
  intros c Hc. apply Hcell. intros Hin. by apply Hc, Hsub.
Qed.

Lemma writes_only_bind fresh1 fresh2 (f g : DataFrame → result DataFrame) :
  writes_only fresh1 f → writes_only fresh2 g →
  writes_only (fresh1 ++ fresh2) (λ df, f df ≫= g).
Proof.
  intros Hf Hg df df' Hstep. unfold mbind, result_bind in Hstep.
  destruct (f df) as [df1|] eqn:Hf1; [|done].
  destruct (Hf df df1 Hf1) as (Hkeep1 & Hnew1 & Hlen1 & Hrows1).
  destruct (Hg df1 df' Hstep) as (Hkeep2 & Hnew2 & Hlen2 & Hrows2).
  split; [by intros c Hc; apply Hkeep2, Hkeep1|]. split.
  { intros c Hc. rewrite elem_of_app.
    destruct (Hnew2 c Hc) as [Hc1|?]; [|by right; right].
    destruct (Hnew1 c Hc1) as [?|?]; [by left|by right; left]. }
  split; [congruence|]. intros i r Hr.
  destruct (Hrows1 i r Hr) as (r1 & Hr1 & Hid1 & Hcell1).
  destruct (Hrows2 i r1 Hr1) as (r' & Hr' & Hid2 & Hcell2).
  exists r'. split; [done|]. split; [by apply (same_identity_trans _ r1)|].
  intros c Hc. rewrite not_elem_of_app in Hc. destruct Hc as [Hc1 Hc2].
  by rewrite Hcell2, Hcell1.
Qed.

Lemma writes_only_assign c f : writes_only [c] (λ df, Ok (assign c (f df) df)).
Proof.
  intros df df' [= <-]. split; [by intros c'; apply has_column_assign_keep|].
  split.
  { intros c'. rewrite has_column_assign, orb_true_iff, bool_decide_eq_true.
    intros [?| ->]; [by left|right; by left]. }
  split; [apply rows_assign_length|].
  intros i r Hr. eexists. split; [by apply rows_assign_lookup|].
  split; [apply same_identity_set_cell|].
  intros c' Hc'. apply cell_set_cell_ne. intros ->. apply Hc'. by left.
Qed.

(** A step that reads some columns and then assigns [c]. *)
Ltac assigns_one c :=
  let df := fresh "df" in
  let df' := fresh "df'" in
  intros df df'; unfold column;
  repeat (match goal with
          | |- context [if has_column ?d ?l then Ok _ else Raise _] =>
              destruct (has_column d l)
          end; unfold mbind, result_bind; cbv beta iota; try discriminate);
  apply (writes_only_assign c _ df df').

Lemma convert_seconds_to_minutes_writes :
  writes_only ["minutes_played"] convert_seconds_to_minutes.
Proof. unfold convert_seconds_to_minutes. assigns_one "minutes_played". Qed.

Lemma guarded_ratio_writes target num den :
  writes_only [target] (guarded_ratio target num den).
Proof. unfold guarded_ratio. assigns_one target. Qed.

Lemma calculate_possessions_writes : writes_only ["possessions"] calculate_possessions.
Proof. unfold calculate_possessions. assigns_one "possessions". Qed.

Lemma calculate_oer_writes : writes_only ["oer"] calculate_oer.
Proof. unfold calculate_oer. assigns_one "oer". Qed.

Lemma calculate_true_shooting_pct_writes :
  writes_only ["true_shooting_pct"] calculate_true_shooting_pct.
Proof. unfold calculate_true_shooting_pct. assigns_one "true_shooting_pct". Qed.

Lemma calculate_der_writes : writes_only ["der"] calculate_der.
Proof. unfold calculate_der. assigns_one "der". Qed.

Lemma normalize_per_minutes_writes stats target :
  writes_only (map (per_label target) stats)
    (λ df, normalize_per_minutes df stats target).
Proof.
  induction stats as [|stat stats IH]; intros df df'; cbn [normalize_per_minutes map].
  { apply writes_only_ok. }
  destruct (has_column df stat).
  2:{ intros Hrest. revert df df' Hrest.
      apply (writes_only_weaken (map (per_label target) stats)); [|exact IH].
      intros c Hc. by right. }
  unfold column. destruct (has_column df "minutes_played"); [|done].
  unfold mbind, result_bind. cbv beta iota.
  apply (writes_only_bind [per_label target stat] (map (per_label target) stats)
           (λ df, Ok (assign (per_label target stat)
                        (λ r, fmul (fdiv (cell r stat) (cell r "minutes_played"))
                                   (of_Z target)) df))
           (λ df, normalize_per_minutes df stats target)
           (writes_only_assign _ (λ _ r, fmul (fdiv (cell r stat)
                                                  (cell r "minutes_played"))
                                            (of_Z target)))
           IH df df').
Qed.

Lemma calculate_shooting_percentages_writes :
  writes_only ["fg2_pct"; "fg3_pct"; "ft_pct"] calculate_shooting_percentages.
Proof.
  unfold calculate_shooting_percentages.
  apply (writes_only_bind ["fg2_pct"] ["fg3_pct"; "ft_pct"]);
    [apply guarded_ratio_writes|].
  apply (writes_only_bind ["fg3_pct"] ["ft_pct"]); apply guarded_ratio_writes.
Qed.

Lemma calculate_usage_rates_writes :
  writes_only ["usage_2p"; "usage_3p"] calculate_usage_rates.
Proof.
  unfold calculate_usage_rates.
  apply (writes_only_bind ["usage_2p"] ["usage_3p"]); apply guarded_ratio_writes.
Qed.

Lemma elem_of_add_label c c' (labels : list string) :
  c' ∈ add_label c labels ↔ c' ∈ labels ∨ c' = c.
Proof.
  unfold add_label. destruct (bool_decide (c ∈ labels)) eqn:Hc.
  - apply bool_decide_eq_true in Hc. split; [by left|]. by intros [?| ->].
  - by rewrite elem_of_app, list_elem_of_singleton.
Qed.

Lemma calculate_zone_stats_writes pct freq made attempted :
  writes_only [pct; freq] (calculate_zone_stats pct freq made attempted).
Proof.
  intros df df'. unfold calculate_zone_stats.
  destruct (check_columns df made) as [[]|]; [|done].
  destruct (check_columns df attempted) as [[]|]; [|done].
  unfold mbind, result_bind. cbv beta iota zeta.
  destruct (bool_decide ("fga" ∈ add_label pct (columns df))); [|done].
  intros [= <-]. unfold has_column. cbn [columns rows].
  split.
  { intros c. rewrite !bool_decide_eq_true, !elem_of_add_label. tauto. }
  split.
  { intros c. rewrite !bool_decide_eq_true, !elem_of_add_label.
    rewrite !elem_of_cons. tauto. }
  split; [apply length_map|].
  intros i r Hr. eexists. split; [by rewrite list_lookup_fmap, Hr|].
  split; [done|].
  intros c Hc. unfold zone_cells. cbv zeta.
  rewrite !cell_set_cell_ne; [done|..]; intros ->; apply Hc; set_solver.
Qed.

Lemma apply_all_transformations_writes stats im ia em ea target :
  writes_only (engineered_labels target stats)
    (λ df, apply_all_transformations df stats im ia em ea target).
Proof.
  unfold apply_all_transformations, engineered_labels.
  apply writes_only_bind; [apply convert_seconds_to_minutes_writes|].
  apply writes_only_bind; [apply normalize_per_minutes_writes|].
  apply (writes_only_bind ["fg2_pct"; "fg3_pct"; "ft_pct"]);
    [apply calculate_shooting_percentages_writes|].
  apply (writes_only_bind ["usage_2p"; "usage_3p"]);
    [apply calculate_usage_rates_writes|].
  apply (writes_only_bind ["interior_pct"; "interior_freq"]);
    [apply calculate_zone_stats_writes|].
  apply (writes_only_bind ["exterior_pct"; "exterior_freq"]).
  { destruct (nonempty em && nonempty ea); [apply calculate_zone_stats_writes|].
    apply (writes_only_weaken []); [set_solver|apply writes_only_ok]. }
  apply (writes_only_bind ["possessions"]); [apply calculate_possessions_writes|].
  apply (writes_only_bind ["oer"]); [apply calculate_oer_writes|].
  apply (writes_only_bind ["true_shooting_pct"]);
    [apply calculate_true_shooting_pct_writes|].
  intros df df'.
  destruct (has_column df "opponent_possessions" && has_column df "opponent_pts");
    [apply calculate_der_writes|].
  apply (writes_only_weaken []); [set_solver|apply writes_only_ok].
Qed.

(** X11.  Feature engineering only adds columns.  When
    [apply_all_transformations] returns, the table has the same rows in
    the same order, every column it had, and no new column other than
    [minutes_played], the [_per<target>] columns and the twelve or
    thirteen derived ones; every cell outside these labels (every raw
    statistic, every opponent value) is unchanged. *)
Theorem apply_all_transformations_only_adds_columns
    (df out : DataFrame) (stats im ia em ea : list string) (target : Z) :
  apply_all_transformations df stats im ia em ea target = Ok out →
  (∀ c, has_column df c = true → has_column out c = true) ∧
  (∀ c, has_column out c = true →
        has_column df c = true ∨ c ∈ engineered_labels target stats) ∧
  length (rows out) = length (rows df) ∧
  ∀ i r, rows df !! i = Some r →
    ∃ r', rows out !! i = Some r' ∧ same_identity r r' ∧
          ∀ c, c ∉ engineered_labels target stats → cell r' c = cell r c.
Proof. apply apply_all_transformations_writes. Qed.

End WritesOnly.

Section AdvancedMetrics.

Import FeatureEngineer.

Lemma efficiency_without_possessions (num den : fval) :
  fgt den zero = false → efficiency num den = zero.
Proof. intros Hden. unfold efficiency, np_where. by rewrite Hden. Qed.

(** X12.  On a table with the columns [fga], [fta] and [pts],
    [calculate_true_shooting_pct] gives each row
    [pts / (2 * (fga + 0.44 * fta))] when that denominator is positive
    and 0 otherwise (also when a shot count is missing), and changes no
    other cell. *)
Theorem true_shooting_pct_formula (df : DataFrame) :
  has_column df "fga" = true → has_column df "fta" = true →
  has_column df "pts" = true →
  ∃ out,
    calculate_true_shooting_pct df = Ok out ∧
    length (rows out) = length (rows df) ∧
    ∀ i r, rows df !! i = Some r →
      ∃ r', rows out !! i = Some r' ∧ same_identity r r' ∧
        (∀ c, c ≠ "true_shooting_pct" → cell r' c = cell r c) ∧
        (let attempts :=
           fmul (of_Z 2) (fadd (cell r "fga") (fmul (Fin (qc 44 100)) (cell r "fta"))) in
         cell r' "true_shooting_pct" =
           if fgt attempts zero then fdiv (cell r "pts") attempts else zero) ∧
        (is_nan (cell r "fga") = true ∨ is_nan (cell r "fta") = true →
         cell r' "true_shooting_pct" = zero) ∧
        ∀ fga fta pts : Qc,
          cell r "fga" = Fin fga → cell r "fta" = Fin fta → cell r "pts" = Fin pts →
          let attempts := (Q2Qc 2 * (fga + qc 44 100 * fta))%Qc in
          ((Q2Qc 0 < attempts)%Qc →
             cell r' "true_shooting_pct" = Fin (pts / attempts)%Qc) ∧
          ((attempts <= Q2Qc 0)%Qc → cell r' "true_shooting_pct" = zero).
Proof.
  intros Hfga Hfta Hpts. unfold calculate_true_shooting_pct.
  rewrite (column_ok _ _ Hfga), (column_ok _ _ Hfta), (column_ok _ _ Hpts).
  unfold mbind, result_bind. cbv beta iota zeta.
  eexists. split; [reflexivity|]. split; [apply rows_assign_length|].
  intros i r Hr. eexists. split; [by apply rows_assign_lookup|].
  split; [apply same_identity_set_cell|].
  split; [by intros c Hc; apply cell_set_cell_ne|].
  rewrite cell_set_cell_eq. unfold np_where, Config.FREE_THROW_POSSESSION_FACTOR.
  split; [done|]. split.
  - intros [Hnan|Hnan].
    + destruct (cell r "fga"); try done.
    + destruct (cell r "fta"); try done. by destruct (cell r "fga").
  - intros fga fta pts -> -> ->.
    change (fmul (of_Z 2) (fadd (Fin fga) (fmul (Fin (qc 44 100)) (Fin fta))))
      with (Fin (Q2Qc 2 * (fga + qc 44 100 * fta))%Qc).
    split.
    + intros Hpos. rewrite (proj2 (fgt_zero_fin _) Hpos). by apply fdiv_fin_pos.
    + intros Hle. by rewrite (proj2 (fgt_zero_fin_false _) Hle).
Qed.

(** X13.  On a table with the two opponent columns, [calculate_der]
    gives each row [100 * opponent_pts / opponent_possessions] when the
    opponent's possessions are positive.  A row whose opponent
    possessions are missing (a match the left join found no link for)
    or not positive gets a rating of 0, not a missing value. *)
Theorem der_is_zero_without_opponent_possessions (df : DataFrame) :
  has_column df "opponent_possessions" = true →
  has_column df "opponent_pts" = true →
  ∃ out,
    calculate_der df = Ok out ∧
    length (rows out) = length (rows df) ∧
    ∀ i r, rows df !! i = Some r →
      ∃ r', rows out !! i = Some r' ∧ same_identity r r' ∧
        (∀ c, c ≠ "der" → cell r' c = cell r c) ∧
        cell r' "der" =
          (if fgt (cell r "opponent_possessions") zero
           then fmul (of_Z 100)
                  (fdiv (cell r "opponent_pts") (cell r "opponent_possessions"))
           else zero) ∧
        (cell r "opponent_possessions" = NaN → cell r' "der" = zero) ∧
        ∀ points possessions : Qc,
          cell r "opponent_pts" = Fin points →
          cell r "opponent_possessions" = Fin possessions →
          ((Q2Qc 0 < possessions)%Qc →
             cell r' "der" = Fin (Q2Qc 100 * (points / possessions))%Qc) ∧
          ((possessions <= Q2Qc 0)%Qc → cell r' "der" = zero).
Proof.
  intros Hposs Hpts. unfold calculate_der.
  rewrite (column_ok _ _ Hposs), (column_ok _ _ Hpts).
  unfold mbind, result_bind. cbv beta iota.
  eexists. split; [reflexivity|]. split; [apply rows_assign_length|].
  intros i r Hr. eexists. split; [by apply rows_assign_lookup|].
  split; [apply same_identity_set_cell|].
  split; [by intros c Hc; apply cell_set_cell_ne|].
  rewrite cell_set_cell_eq.
  split; [done|]. split.
  - intros ->. by apply efficiency_without_possessions.
  - intros points possessions -> ->. apply efficiency_fin.
Qed.

End AdvancedMetrics.

Section ZoneStats.

Import FeatureEngineer.

Implicit Types (df : DataFrame) (r : Row) (zones : list string).

Lemma check_columns_ok df zones :
  (∀ z, z ∈ zones → has_column df z = true) → check_columns df zones = Ok tt.
Proof.
  induction zones as [|z zones IH]; intros Hall; simpl; [done|].
  rewrite Hall by (by left). apply IH. intros z' Hz'. apply Hall. by right.
Qed.

Lemma check_columns_missing df zones z :
  z ∈ zones → has_column df z = false →
  ∃ label, check_columns df zones = Raise (KeyError label) ∧
           label ∈ zones ∧ has_column df label = false.
Proof.
  induction zones as [|z' zones IH]; intros Hz Hmissing; simpl.
  { by apply elem_of_nil in Hz. }
  destruct (has_column df z') eqn:Hz'.
  - apply elem_of_cons in Hz as [->|Hz]; [congruence|].
    destruct (IH Hz Hmissing) as (label & Hcheck & Hin & Hno).
    exists label. split; [done|]. split; [by right|done].
  - exists z'. split; [done|]. split; [by left|done].
Qed.

Lemma check_columns_raise df zones e :
  check_columns df zones = Raise e →
  ∃ label, e = KeyError label ∧ label ∈ zones ∧ has_column df label = false.
Proof.
  induction zones as [|z zones IH]; simpl; [done|].
  destruct (has_column df z) eqn:Hz.
  - intros Hraise. destruct (IH Hraise) as (label & -> & Hin & Hno).
    exists label. split; [done|]. split; [by right|done].
  - intros [= <-]. exists z. split; [done|]. split; [by left|done].
Qed.

Lemma nansum_cons (x : fval) (xs : list fval) :
  nansum (x :: xs) = if is_nan x then nansum xs else fadd x (nansum xs).
Proof.
  unfold nansum. rewrite filter_cons.
  destruct (is_nan x); by destruct (decide _).
Qed.

Lemma zone_sum_of_present r zones :
  (∀ z, z ∈ zones → is_inf (cell r z) = false) →
  zone_sum zones r =
    Fin (Qc_sum (map (λ z, rational (cell r z)) (zones_with_value r zones))).
Proof.
  unfold zone_sum, zones_with_value.
  induction zones as [|z zones IH]; intros Hnum; [done|].
  cbn [map]. rewrite nansum_cons, filter_cons.
  rewrite IH by (intros z' Hz'; apply Hnum; by right).
  pose proof (Hnum z (list_elem_of_here _ _)) as Hz.
  destruct (cell r z) as [q| | |] eqn:Hcell; try done.
  destruct (decide _) as [_|Hno]; [|done].
  cbn [map]. rewrite Hcell. done.
Qed.

(** X14.  [calculate_interior_stats] and [calculate_exterior_stats]
    sum the shots made and attempted over the zone columns, a missing
    zone value counting for nothing, and store [made / attempted] as
    the percentage and [attempted / fga] as the frequency, each 0 when
    its denominator is not positive; no other cell changes.  A zone
    label that is not a column raises a [KeyError]. *)
Theorem zone_stats_sum_the_zone_columns
    (df : DataFrame) (zones_made zones_attempted : list string) :
  (has_column df "fga" = true →
   (∀ z, z ∈ zones_made ++ zones_attempted → has_column df z = true) →
   ∃ interior exterior,
     calculate_interior_stats zones_made zones_attempted df = Ok interior ∧
     calculate_exterior_stats zones_made zones_attempted df = Ok exterior ∧
     length (rows interior) = length (rows df) ∧
     length (rows exterior) = length (rows df) ∧
     ∀ i r, rows df !! i = Some r →
       let made := nansum (map (cell r) zones_made) in
       let attempted := nansum (map (cell r) zones_attempted) in
       let pct := if fgt attempted zero then fdiv made attempted else zero in
       let freq :=
         if fgt (cell r "fga") zero then fdiv attempted (cell r "fga") else zero in
       ((∀ z, z ∈ zones_made → is_inf (cell r z) = false) →
        made = Fin (Qc_sum (map (λ z, rational (cell r z))
                                (zones_with_value r zones_made)))) ∧
       ((∀ z, z ∈ zones_attempted → is_inf (cell r z) = false) →
        attempted = Fin (Qc_sum (map (λ z, rational (cell r z))
                                     (zones_with_value r zones_attempted)))) ∧
       ∃ r1 r2,
         rows interior !! i = Some r1 ∧ rows exterior !! i = Some r2 ∧
         same_identity r r1 ∧ same_identity r r2 ∧
         cell r1 "interior_pct" = pct ∧ cell r1 "interior_freq" = freq ∧
         cell r2 "exterior_pct" = pct ∧ cell r2 "exterior_freq" = freq ∧
         (∀ c, c ∉ ["interior_pct"; "interior_freq"] → cell r1 c = cell r c) ∧
         (∀ c, c ∉ ["exterior_pct"; "exterior_freq"] → cell r2 c = cell r c)) ∧
  (∀ z, z ∈ zones_made ++ zones_attempted → has_column df z = false →
   ∃ label,
     calculate_interior_stats zones_made zones_attempted df = Raise (KeyError label) ∧
     calculate_exterior_stats zones_made zones_attempted df = Raise (KeyError label) ∧
     label ∈ zones_made ++ zones_attempted ∧ has_column df label = false).
Proof.
  unfold calculate_interior_stats, calculate_exterior_stats, calculate_zone_stats.
  split.
  - intros Hfga Hzones.
    rewrite !check_columns_ok
      by (intros z Hz; apply Hzones; rewrite elem_of_app; tauto).
    unfold mbind, result_bind. cbv beta iota zeta.
    rewrite !bool_decide_eq_true_2
      by (apply elem_of_add_label; left; by apply bool_decide_eq_true in Hfga).
    eexists. eexists. split; [reflexivity|]. split; [reflexivity|].
    cbn [rows]. rewrite !length_map. split; [done|]. split; [done|].
    intros i r Hr. cbv zeta.
    split; [apply zone_sum_of_present|]. split; [apply zone_sum_of_present|].
    eexists. eexists.
    split; [by rewrite list_lookup_fmap, Hr|].
    split; [by rewrite list_lookup_fmap, Hr|].
    split; [done|]. split; [done|].
    unfold zone_cells, zone_sum, np_where. cbv zeta. cell_simpl.
    repeat (split; [done|]).
    split; intros c Hc; rewrite !cell_set_cell_ne; try done;
      intros <-; apply Hc; set_solver.
  - intros z Hz Hmissing. apply elem_of_app in Hz as [Hz|Hz].
    + destruct (check_columns_missing df zones_made z Hz Hmissing)
        as (label & -> & Hin & Hno).
      exists label. split; [done|]. split; [done|].
      split; [|done]. rewrite elem_of_app. by left.
    + destruct (check_columns df zones_made) as [[]|e] eqn:Hmade.
      * destruct (check_columns_missing df zones_attempted z Hz Hmissing)
          as (label & -> & Hin & Hno).
        exists label. split; [done|]. split; [done|].
        split; [|done]. rewrite elem_of_app. by right.
      * destruct (check_columns_raise _ _ _ Hmade) as (label & -> & Hin & Hno).
        exists label. split; [done|]. split; [done|].
        split; [|done]. rewrite elem_of_app. by left.
Qed.

End ZoneStats.

Section Needs.

Import FeatureEngineer.

Implicit Types (df : DataFrame) (c : string) (step : DataFrame → result DataFrame).

Lemma needs_bind derived n1 n2 fresh1 made1 (f g : DataFrame → result DataFrame) :
  needs derived n1 f → writes_only fresh1 f → fresh1 ⊆ derived →
  produces made1 f → needs derived n2 g →
  needs derived (n1 ++ filter (λ c, c ∉ made1) n2) (λ df, f df ≫= g).
Proof.
  intros (Hsuf1 & Hnec1 & Hexn1) Hwrites Hsub Hmade (Hsuf2 & Hnec2 & Hexn2).
  unfold mbind, result_bind. split; [|split].
  - intros df Hall.
    assert (Hok : is_ok (f df) = true).
    { apply Hsuf1. intros c Hc. apply Hall. rewrite elem_of_app. by left. }
    destruct (f df) as [df1|] eqn:Hf; [|done].
    apply Hsuf2. intros c Hc.
    destruct (decide (c ∈ made1)) as [Hin|Hnot]; [by apply (Hmade df df1)|].
    destruct (Hwrites df df1 Hf) as (Hkeep & _). apply Hkeep, Hall.
    rewrite elem_of_app, list_elem_of_filter. by right.
  - intros df df' Hstep c Hc Hderived.
    destruct (f df) as [df1|] eqn:Hf; [|done].
    apply elem_of_app in Hc as [Hc|Hc]; [by apply (Hnec1 df df1)|].
    apply list_elem_of_filter in Hc as [_ Hc].
    destruct (Hwrites df df1 Hf) as (_ & Hnew & _).
    destruct (Hnew c) as [?|Hfresh]; [by apply (Hnec2 df1 df')|done|].
    by apply Hsub in Hfresh.
  - intros df e Hstep.
    destruct (f df) as [df1|e1] eqn:Hf.
    + by apply (Hexn2 df1).
    + injection Hstep as <-. by apply (Hexn1 df).
Qed.

Lemma needs_nothing derived : needs derived [] Ok.
Proof. split; [done|]. split; [|done]. by intros df df' _ c ?%elem_of_nil. Qed.

Lemma produces_nothing step : produces [] step.
Proof. by intros df df' _ c ?%elem_of_nil. Qed.

Lemma produces_assign c f : produces [c] (λ df, Ok (assign c (f df) df)).
Proof.
  intros df df' [= <-] c' ->%list_elem_of_singleton.
  rewrite has_column_assign, bool_decide_eq_true_2 by done. apply orb_true_r.
Qed.

(** A step that reads the columns [needed] and then assigns one. *)
Ltac reads needed :=
  split; [|split];
  [ intros df Hall; unfold column;
    rewrite ?Hall by (repeat first [by left | right]); done
  | intros df df' Hstep c Hc _; unfold column in Hstep;
    repeat (match type of Hstep with
            | context [if has_column ?d ?l then Ok _ else Raise _] =>
                let H := fresh "Hcol" in destruct (has_column d l) eqn:H
            end; unfold mbind, result_bind in Hstep; cbv beta iota in Hstep;
            try discriminate Hstep);
    repeat (apply elem_of_cons in Hc as [->|Hc]; [assumption|]);
    by apply elem_of_nil in Hc
  | intros df e; unfold column;
    repeat (match goal with
            | |- context [if has_column ?d ?l then Ok _ else Raise _] =>
                destruct (has_column d l)
            end; unfold mbind, result_bind; cbv beta iota; try discriminate);
    intros [= <-]; by eexists ].

Lemma convert_seconds_to_minutes_needs derived :
  needs derived ["minutes"] convert_seconds_to_minutes.
Proof. unfold convert_seconds_to_minutes. reads ["minutes"]. Qed.

Lemma guarded_ratio_needs derived target num den :
  needs derived [den; num] (guarded_ratio target num den).
Proof. unfold guarded_ratio. reads [den; num]. Qed.

Lemma calculate_possessions_needs derived :
  needs derived ["fga"; "fta"; "orb"; "tov"] calculate_possessions.
Proof. unfold calculate_possessions. reads ["fga"; "fta"; "orb"; "tov"]. Qed.

Lemma calculate_oer_needs derived :
  needs derived ["possessions"; "pts"] calculate_oer.
Proof. unfold calculate_oer. reads ["possessions"; "pts"]. Qed.

Lemma calculate_true_shooting_pct_needs derived :
  needs derived ["fga"; "fta"; "pts"] calculate_true_shooting_pct.
Proof. unfold calculate_true_shooting_pct. reads ["fga"; "fta"; "pts"]. Qed.

Lemma guarded_calculate_der_needs derived :
  needs derived []
    (λ df, if has_column df "opponent_possessions" && has_column df "opponent_pts"
           then calculate_der df else Ok df).
Proof.
  split; [|split].
  - intros df _. unfold calculate_der, column.
    by destruct (has_column df "opponent_possessions"),
               (has_column df "opponent_pts").
  - by intros df df' _ c ?%elem_of_nil.
  - intros df e. unfold calculate_der, column.
    by destruct (has_column df "opponent_possessions"),
               (has_column df "opponent_pts").
Qed.

Lemma normalize_per_minutes_needs derived stats target :
  "minutes_played" ∈ derived →
  needs derived ["minutes_played"] (λ df, normalize_per_minutes df stats target).
Proof.
  intros Hderived. split; [|split].
  - intros df Hall.
    assert (Hmp : has_column df "minutes_played" = true) by (apply Hall; by left).
    clear Hall. revert df Hmp.
    induction stats as [|stat stats IH]; intros df Hmp; simpl; [done|].
    destruct (has_column df stat); [|by apply IH].
    rewrite (column_ok _ _ Hmp). unfold mbind, result_bind. cbv beta iota.
    by apply IH, has_column_assign_keep.
  - intros df df' _ c ->%list_elem_of_singleton Hc. done.
  - intros df e. revert df.
    induction stats as [|stat stats IH]; intros df; simpl; [done|].
    destruct (has_column df stat); [|by apply IH].
    unfold column. destruct (has_column df "minutes_played").
    + unfold mbind, result_bind. cbv beta iota. apply IH.
    + intros [= <-]. by eexists.
Qed.

Lemma calculate_zone_stats_needs derived pct freq made attempted :
  pct ≠ "fga" →
  needs derived (made ++ attempted ++ ["fga"])
    (calculate_zone_stats pct freq made attempted).
Proof.
  intros Hpct. unfold calculate_zone_stats. split; [|split].
  - intros df Hall.
    rewrite !check_columns_ok
      by (intros z Hz; apply Hall; rewrite !elem_of_app; tauto).
    unfold mbind, result_bind. cbv beta iota zeta.
    rewrite bool_decide_eq_true_2; [done|].
    apply elem_of_add_label. left. apply (bool_decide_eq_true _).
    apply Hall. rewrite !elem_of_app, list_elem_of_singleton. tauto.
  - intros df df' Hstep c Hc _.
    destruct (check_columns df made) as [[]|] eqn:Hmade; [|done].
    destruct (check_columns df attempted) as [[]|] eqn:Hattempted; [|done].
    unfold mbind, result_bind in Hstep. cbv beta iota zeta in Hstep.
    destruct (bool_decide ("fga" ∈ add_label pct (columns df))) eqn:Hfga; [|done].
    apply bool_decide_eq_true in Hfga. apply elem_of_add_label in Hfga.
    destruct (has_column df c) eqn:Hcol; [done|]. exfalso.
    rewrite !elem_of_app, list_elem_of_singleton in Hc.
    destruct Hc as [Hc|[Hc| ->]].
    + destruct (check_columns_missing df made c Hc Hcol) as (l & Hl & _). congruence.
    + destruct (check_columns_missing df attempted c Hc Hcol) as (l & Hl & _).
      congruence.
    + destruct Hfga as [Hfga|Hfga]; [|by apply Hpct].
      unfold has_column in Hcol. by rewrite bool_decide_eq_true_2 in Hcol.
  - intros df e.
    destruct (check_columns df made) as [[]|e1] eqn:Hmade.
    2:{ intros [= <-]. destruct (check_columns_raise _ _ _ Hmade) as (l & -> & _).
        by eexists. }
    destruct (check_columns df attempted) as [[]|e2] eqn:Hattempted.
    2:{ intros [= <-]. destruct (check_columns_raise _ _ _ Hattempted) as (l & -> & _).
        by eexists. }
    unfold mbind, result_bind. cbv beta iota zeta.
    destruct (bool_decide _); [done|]. intros [= <-]. by eexists.
Qed.

Lemma calculate_zone_stats_produces pct freq made attempted :
  produces [pct; freq] (calculate_zone_stats pct freq made attempted).
Proof.
  intros df df'. unfold calculate_zone_stats.
  destruct (check_columns df made) as [[]|]; [|done].
  destruct (check_columns df attempted) as [[]|]; [|done].
  unfold mbind, result_bind. cbv beta iota zeta.
  destruct (bool_decide _); [|done]. intros [= <-] c Hc.
  unfold has_column. cbn [columns]. apply bool_decide_eq_true.
  rewrite !elem_of_add_label.
  apply elem_of_cons in Hc as [->|Hc]; [tauto|].
  apply list_elem_of_singleton in Hc as ->. tauto.
Qed.

Lemma convert_seconds_to_minutes_produces :
  produces ["minutes_played"] convert_seconds_to_minutes.
Proof.
  intros df df'. unfold convert_seconds_to_minutes, column.
  destruct (has_column df "minutes"); [|done].
  apply (produces_assign "minutes_played" (λ _ r, fdiv (cell r "minutes") (of_Z 60))).
Qed.

Lemma calculate_possessions_produces : produces ["possessions"] calculate_possessions.
Proof.
  intros df df'. unfold calculate_possessions, column.
  destruct (has_column df "fga"); [|done].
  destruct (has_column df "fta"); [|done].
  destruct (has_column df "orb"); [|done].
  destruct (has_column df "tov"); [|done].
  apply (produces_assign "possessions"
           (λ _ r, possessions_formula (cell r "fga") (cell r "fta")
                     (cell r "orb") (cell r "tov"))).
Qed.

End Needs.

Section RequiredRawColumns.

Import FeatureEngineer.

Variables (stats im ia em ea : list string) (target : Z).

Let derived := engineered_labels target stats.

(** The labels a step writes are engineered labels. *)
Ltac engineered :=
  let c := fresh "c" in
  let Hc := fresh "Hc" in
  intros c Hc; unfold derived, engineered_labels; rewrite !elem_of_app;
  first [ by (right; left)
        | repeat (apply elem_of_cons in Hc as [->|Hc]);
          [ set_solver.. | by apply elem_of_nil in Hc ] ].

Lemma calculate_shooting_percentages_needs :
  needs derived
    (["2pa"; "2pm"] ++
     filter (λ c, c ∉ []) (["3pa"; "3pm"] ++ filter (λ c, c ∉ []) ["fta"; "ftm"]))
    calculate_shooting_percentages.
Proof.
  unfold calculate_shooting_percentages.
  apply (needs_bind derived _ _ ["fg2_pct"] []);
    [apply guarded_ratio_needs|apply guarded_ratio_writes|engineered
    |apply produces_nothing|].
  apply (needs_bind derived _ _ ["fg3_pct"] []);
    [apply guarded_ratio_needs|apply guarded_ratio_writes|engineered
    |apply produces_nothing|].
  apply guarded_ratio_needs.
Qed.

Lemma calculate_usage_rates_needs :
  needs derived (["fga"; "2pa"] ++ filter (λ c, c ∉ []) ["fga"; "3pa"])
    calculate_usage_rates.
Proof.
  unfold calculate_usage_rates.
  apply (needs_bind derived _ _ ["usage_2p"] []);
    [apply guarded_ratio_needs|apply guarded_ratio_writes|engineered
    |apply produces_nothing|].
  apply guarded_ratio_needs.
Qed.

Lemma filter_not_in_nil (l : list string) : filter (λ c, c ∉ []) l = l.
Proof. apply filter_all. intros c _. apply not_elem_of_nil. Qed.

(** Membership in a list put together with [++], [::] and [filter]:
    a hypothesis is taken apart, a goal is searched. *)
Ltac split_membership H :=
  repeat match type of H with
         | _ ∈ _ ++ _ => apply elem_of_app in H as [H|H]
         | _ ∈ filter _ _ => apply list_elem_of_filter in H as [? H]
         | _ ∈ _ :: _ => apply elem_of_cons in H as [->|H]
         | _ ∈ [] => by apply elem_of_nil in H
         end.

Ltac find_membership :=
  solve [ assumption
        | apply list_elem_of_here
        | apply list_elem_of_further; find_membership
        | apply elem_of_app; left; find_membership
        | apply elem_of_app; right; find_membership
        | apply list_elem_of_filter; split; [|find_membership];
          first [ by (intros ?%list_elem_of_singleton)
                | match goal with
                  | Hnot : _ ∉ _ |- _ =>
                      intros ->%list_elem_of_singleton; apply Hnot; find_membership
                  end ] ].

Lemma apply_all_transformations_needs :
  ∃ needed,
    needs derived needed
      (λ df, apply_all_transformations df stats im ia em ea target) ∧
    (∀ c, c ∈ needed → c ∈ required_columns im ia em ea) ∧
    (∀ c, c ∈ required_columns im ia em ea → c ∉ derived → c ∈ needed).
Proof.
  eexists. split.
  { unfold apply_all_transformations.
    eapply (needs_bind derived _ _ ["minutes_played"] ["minutes_played"]);
      [apply convert_seconds_to_minutes_needs|apply convert_seconds_to_minutes_writes
      |engineered|apply convert_seconds_to_minutes_produces|].
    eapply (needs_bind derived _ _ (map (per_label target) stats) []);
      [apply normalize_per_minutes_needs; unfold derived, engineered_labels; set_solver
      |apply normalize_per_minutes_writes|engineered|apply produces_nothing|].
    eapply (needs_bind derived _ _ ["fg2_pct"; "fg3_pct"; "ft_pct"] []);
      [apply calculate_shooting_percentages_needs
      |apply calculate_shooting_percentages_writes|engineered|apply produces_nothing|].
    eapply (needs_bind derived _ _ ["usage_2p"; "usage_3p"] []);
      [apply calculate_usage_rates_needs
      |apply calculate_usage_rates_writes|engineered|apply produces_nothing|].
    eapply (needs_bind derived _ _ ["interior_pct"; "interior_freq"] []);
      [by apply calculate_zone_stats_needs
      |apply calculate_zone_stats_writes|engineered|apply produces_nothing|].
    eapply (needs_bind derived
              (if nonempty em && nonempty ea then em ++ ea ++ ["fga"] else [])
              _ ["exterior_pct"; "exterior_freq"] []).
    { destruct (nonempty em && nonempty ea);
        [by apply calculate_zone_stats_needs|apply needs_nothing]. }
    { destruct (nonempty em && nonempty ea); [apply calculate_zone_stats_writes|].
      apply (writes_only_weaken []); [set_solver|apply writes_only_ok]. }
    { engineered. }
    { apply produces_nothing. }
    eapply (needs_bind derived _ _ ["possessions"] ["possessions"]);
      [apply calculate_possessions_needs|apply calculate_possessions_writes
      |engineered|apply calculate_possessions_produces|].
    eapply (needs_bind derived _ _ ["oer"] []);
      [apply calculate_oer_needs|apply calculate_oer_writes
      |engineered|apply produces_nothing|].
    eapply (needs_bind derived _ _ ["true_shooting_pct"] []);
      [apply calculate_true_shooting_pct_needs
      |apply calculate_true_shooting_pct_writes|engineered|apply produces_nothing|].
    apply guarded_calculate_der_needs. }
  unfold required_columns, derived, engineered_labels.
  rewrite !filter_not_in_nil.
  split.
  - intros c Hc. destruct (nonempty em && nonempty ea); split_membership Hc;
      try find_membership;
      match goal with Hno : ?x ∉ [?x] |- _ => by destruct Hno; left end.
  - intros c Hc Hnot. destruct (nonempty em && nonempty ea); split_membership Hc;
      find_membership.
Qed.

End RequiredRawColumns.

(** X15.  [apply_all_transformations] returns a table whenever the raw
    columns it reads are all there: [minutes], the shot counts, the
    zone columns, [orb], [tov] and [pts]; every statistic to normalise
    and both opponent columns are optional.  It raises nothing but a
    [KeyError], and it does raise one when a raw column it reads is
    missing (the raw labels being none of the labels it derives). *)
Theorem feature_engineering_needs_the_raw_columns
    (df : DataFrame) (stats im ia em ea : list string) (target : Z) :
  let required := required_columns im ia em ea in
  let run := FeatureEngineer.apply_all_transformations df stats im ia em ea target in
  ((∀ c, c ∈ required → has_column df c = true) → ∃ out, run = Ok out) ∧
  (∀ e, run = Raise e → ∃ label, e = KeyError label) ∧
  ((∀ c, c ∈ required → c ∉ engineered_labels target stats) →
   ∀ c, c ∈ required → has_column df c = false →
        ∃ label, run = Raise (KeyError label)).
Proof.
  intros required run.
  destruct (apply_all_transformations_needs stats im ia em ea target)
    as (needed & (Hsuf & Hnec & Hexn) & Hsub & Hsup).
  split; [|split].
  - intros Hall. specialize (Hsuf df). unfold run.
    destruct (FeatureEngineer.apply_all_transformations df stats im ia em ea target)
      as [out|]; [by exists out|].
    discriminate Hsuf. intros c Hc. by apply Hall, Hsub.
  - intros e. apply Hexn.
  - intros Hraw c Hc Hmissing. unfold run.
    destruct (FeatureEngineer.apply_all_transformations df stats im ia em ea target)
      as [out|e] eqn:Hrun.
    + rewrite (Hnec df out Hrun c) in Hmissing; [done| |by apply Hraw].
      by apply Hsup; [|apply Hraw].
    + destruct (Hexn df e Hrun) as [label ->]. by exists label.
Qed.

Section ScalerMethods.

Import Sklearn.

Lemma minmax_fit_length (X : Table) :
  length (fst (minmax_fit X)) = length (tcolumns X).
Proof. unfold minmax_fit. simpl. by rewrite !length_map, length_seq. Qed.

(** X16.  A scaler that has been fitted by [fit_transform] applies the
    same cleaning and the same parameters in [transform]: on the table
    it was fitted on, [transform] returns the scaled table of
    [fit_transform] again, in either mode. *)
Theorem transform_repeats_fit_transform
    (sqrt_fn : Qc → Qc) (self self' : DataScaler.t) (X scaled clean : Table)
    (handle_infinity : bool) (fill_na : fval) :
  DataScaler.fit_transform sqrt_fn self X handle_infinity fill_na =
    Ok (self', (scaled, clean)) →
  DataScaler.transform self' X handle_infinity fill_na = Ok scaled ∧
  DataScaler.scaler_type self' = DataScaler.scaler_type self.
Proof.
  unfold DataScaler.fit_transform, DataScaler.transform,
    Sklearn.fit_transform, Sklearn.transform.
  generalize (DataScaler.clean_table X handle_infinity fill_na). intros cleaned.
  destruct (check_array cleaned) as [[]|] eqn:Hcheck; [|done].
  unfold mbind, result_bind. cbv beta iota.
  destruct (DataScaler.scaler self) as [fitted|fitted];
    cbv beta iota zeta; intros [= <- <- <-]; cbn [DataScaler.scaler fitted_params];
    unfold check_n_features.
  - rewrite bool_decide_eq_true_2 by (by rewrite standard_fit_length). done.
  - rewrite bool_decide_eq_true_2 by (by rewrite minmax_fit_length). done.
Qed.

(** X17.  What the scaler refuses.  Before [fit_transform] has run,
    [transform] and [inverse_transform] raise [NotFittedError].  Once
    fitted, [transform] raises a [ValueError] on a table with another
    number of columns.  With [handle_infinity=False] an infinite cell
    reaches the estimator, and [fit_transform] raises a [ValueError]. *)
Theorem scaler_refuses_unfitted_and_misshapen_input :
  (∀ scaler_type self X handle_infinity fill_na,
     DataScaler.init scaler_type = Ok self →
     DataScaler.transform self X handle_infinity fill_na = Raise NotFittedError ∧
     DataScaler.inverse_transform self X = Raise NotFittedError) ∧
  (∀ sqrt_fn self self' X out Y handle_infinity fill_na,
     DataScaler.fit_transform sqrt_fn self X handle_infinity fill_na = Ok (self', out) →
     length (tcolumns Y) ≠ length (tcolumns X) →
     ∃ message,
       DataScaler.transform self' Y handle_infinity fill_na =
         Raise (ValueError message)) ∧
  (∀ sqrt_fn self X fill_na row x,
     row ∈ tdata X → x ∈ row → is_inf x = true →
     DataScaler.fit_transform sqrt_fn self X false fill_na =
       Raise (ValueError "Input contains infinity")).
Proof.
  split; [|split].
  - intros scaler_type self X handle_infinity fill_na.
    unfold DataScaler.init.
    destruct (bool_decide (scaler_type = "standard")); [by intros [= <-]|].
    destruct (bool_decide (scaler_type = "minmax")); [by intros [= <-]|done].
  - intros sqrt_fn self self' X [scaled clean] Y handle_infinity fill_na Hfit Hwidth.
    assert (Hparams : ∃ params,
              fitted_params (DataScaler.scaler self') = Ok params ∧
              length (fst params) = length (tcolumns X)).
    { revert Hfit. unfold DataScaler.fit_transform, Sklearn.fit_transform.
      destruct (check_array _) as [[]|]; [|done].
      unfold mbind, result_bind. cbv beta iota.
      destruct (DataScaler.scaler self); cbv beta iota zeta; intros [= <- _ _];
        eexists; (split; [reflexivity|]).
      - by rewrite standard_fit_length, clean_table_columns.
      - by rewrite minmax_fit_length, clean_table_columns. }
    destruct Hparams as (params & Hparams & Hlen).
    unfold DataScaler.transform, Sklearn.transform. rewrite Hparams.
    unfold mbind, result_bind. cbv beta iota.
    destruct (check_array _) as [[]|e] eqn:Hcheck.
    + unfold check_n_features. rewrite clean_table_columns.
      rewrite bool_decide_eq_false_2 by congruence. by eexists.
    + unfold check_array in Hcheck.
      repeat (destruct (_ : bool) in Hcheck; [injection Hcheck as <-; by eexists|]).
      done.
  - intros sqrt_fn self X fill_na row x Hrow Hx Hinf.
    unfold DataScaler.fit_transform, Sklearn.fit_transform, check_array.
    rewrite clean_table_cells.
    assert (Hfound : existsb (existsb is_inf)
              (map (map (λ x, DataScaler.fillna fill_na x)) (tdata X)) = true).
    { apply existsb_exists. exists (map (DataScaler.fillna fill_na) row).
      split; [apply in_map; by apply list_elem_of_In|].
      apply existsb_exists. exists x. split; [|done].
      replace x with (DataScaler.fillna fill_na x) at 1 by (by destruct x).
      apply in_map. by apply list_elem_of_In. }
    by rewrite Hfound.
Qed.

End ScalerMethods.

(** ** Sample runs of the validators and of feature engineering *)

Example sample_percentages_clipped :
  column_cells "fg2_pct" (DataCleaner.validate_percentages sample_percentages ["fg2_pct"])
    = [of_Z 1; of_Z 0; NaN; Fin (qc 1 2)].
Proof. by_computation. Qed.

Example sample_ranges_validated :
  column_cells "fg2_pct"
    (DataCleaner.validate_numeric_ranges sample_percentages
       [("fg2_pct", DataCleaner.mkRange (Some (of_Z 0)) None);
        ("rating", DataCleaner.mkRange None (Some (of_Z 0)))])
    = [Fin (qc 3 2); Fin (qc 1 2)].
Proof. by_computation. Qed.

Lemma computed_percentages_witness :
  ∃ df1 df2,
    FeatureEngineer.calculate_shooting_percentages sample_frame = Ok df1 ∧
    FeatureEngineer.calculate_usage_rates df1 = Ok df2 ∧
    DataCleaner.validate_percentages df2
      ["fg2_pct"; "fg3_pct"; "ft_pct"; "usage_2p"; "usage_3p"] = df2.
Proof.
  destruct (computed_percentages_pass_validation sample_frame)
    as (df1 & df2 & Hdf1 & Hdf2 & _ & Hvalid); [reflexivity..| |].
  - intros r Hr. apply list_elem_of_singleton in Hr as ->.
    split; [|split].
    + exists (Q2Qc 0), (Q2Qc 0), (Q2Qc (inject_Z 10)).
      repeat split; by_computation.
    + exists (Q2Qc (inject_Z 4)), (Q2Qc (inject_Z 10)), (Q2Qc (inject_Z 10)).
      repeat split; by_computation.
    + exists (Q2Qc (inject_Z 4)), (Q2Qc (inject_Z 5)), (Q2Qc (inject_Z 5)).
      repeat split; by_computation.
  - exists df1, df2. split; [exact Hdf1|]. split; [exact Hdf2|exact Hvalid].
Defined.

Lemma simple_mode_witness :
  ∃ out,
    DataAggregator.aggregate_by_player sample_season ["oer"] false = Ok out ∧
    ratings out = [(1, of_Z 30, of_Z 115); (2, of_Z 30, of_Z 90)].
Proof.
  destruct (simple_mode_averages_the_values_present sample_season ["oer"] false)
    as (out & Hout & _ & _); [by left|].
  exists out. split; [exact Hout|].
  assert (Hrun : ratings <$> DataAggregator.aggregate_by_player sample_season ["oer"] false
                 = Ok [(1, of_Z 30, of_Z 115); (2, of_Z 30, of_Z 90)])
    by by_computation.
  rewrite Hout in Hrun. by injection Hrun.
Defined.

Lemma normalize_per_minutes_witness :
  ∃ out,
    FeatureEngineer.normalize_per_minutes sample_minutes Config.STATS_TO_NORMALIZE 36
      = Ok out ∧
    column_cells "pts_per36" out = [of_Z 18; NaN] ∧
    column_cells "pts" out = [of_Z 9; of_Z 0].
Proof.
  destruct (normalize_per_minutes_scales_each_statistic
              sample_minutes Config.STATS_TO_NORMALIZE 36)
    as (out & Hout & _); [reflexivity| |].
  - intros s Hs. revert s Hs. apply Forall_forall. by_computation.
  - exists out. split; [exact Hout|].
    assert (Hrun :
      (λ df, (column_cells "pts_per36" df, column_cells "pts" df)) <$>
        FeatureEngineer.normalize_per_minutes sample_minutes Config.STATS_TO_NORMALIZE 36
      = Ok ([of_Z 18; NaN], [of_Z 9; of_Z 0])) by by_computation.
    rewrite Hout in Hrun. injection Hrun as -> ->. done.
Defined.

Lemma true_shooting_pct_witness :
  ∃ out,
    FeatureEngineer.calculate_true_shooting_pct sample_frame = Ok out ∧
    column_cells "true_shooting_pct" out = [Fin (qc 250 305)].
Proof.
  destruct (true_shooting_pct_formula sample_frame) as (out & Hout & _);
    [reflexivity..|].
  exists out. split; [exact Hout|].
  assert (Hrun : column_cells "true_shooting_pct" <$>
                   FeatureEngineer.calculate_true_shooting_pct sample_frame
                 = Ok [Fin (qc 250 305)]) by by_computation.
  rewrite Hout in Hrun. by injection Hrun.
Defined.

Lemma der_witness :
  ∃ out,
    FeatureEngineer.calculate_der sample_rivals = Ok out ∧
    column_cells "der" out = [Fin (qc 1200 13); of_Z 0].
Proof.
  destruct (der_is_zero_without_opponent_possessions sample_rivals)
    as (out & Hout & _); [reflexivity..|].
  exists out. split; [exact Hout|].
  assert (Hrun : column_cells "der" <$> FeatureEngineer.calculate_der sample_rivals
                 = Ok [Fin (qc 1200 13); of_Z 0]) by by_computation.
  rewrite Hout in Hrun. by injection Hrun.
Defined.

Lemma transform_repeats_witness :
  ∃ self' scaled clean,
    DataScaler.fit_transform heron_sqrt standard_scaler sample_features true (of_Z 0)
      = Ok (self', (scaled, clean)) ∧
    DataScaler.transform self' sample_features true (of_Z 0) = Ok scaled.
Proof.
  destruct (fit_transform_accepted heron_sqrt standard_scaler sample_features
              true (of_Z 0)) as (est & scaled_data & _ & _ & Hfit);
    [by apply clean_table_accepted|].
  eexists. eexists. eexists. split; [exact Hfit|].
  apply (transform_repeats_fit_transform heron_sqrt standard_scaler _
           sample_features _ _ true (of_Z 0) Hfit).
Defined.

Lemma only_adds_columns_witness :
  ∃ out,
    engineer sample_players = Ok out ∧
    length (rows out) = length (rows sample_players) ∧
    ∀ c, has_column sample_players c = true → has_column out c = true.
Proof.
  assert (Hok : is_ok (engineer sample_players) = true) by by_computation.
  destruct (engineer sample_players) as [out|] eqn:Hrun; [|discriminate Hok].
  exists out. split; [reflexivity|].
  unfold engineer in Hrun.
  destruct (apply_all_transformations_only_adds_columns sample_players out
              Config.STATS_TO_NORMALIZE
              Config.INTERIOR_ZONES_MADE Config.INTERIOR_ZONES_ATTEMPTED
              Config.EXTERIOR_ZONES_MADE Config.EXTERIOR_ZONES_ATTEMPTED
              Config.MINUTES_NORMALIZATION Hrun) as (Hkeep & _ & Hlen & _).
  split; [exact Hlen|exact Hkeep].
Defined.

Lemma required_raw_columns_witness :
  (∃ out, engineer sample_players = Ok out) ∧
  (∃ label, engineer sample_frame = Raise (KeyError label)).
Proof.
  pose proof (feature_engineering_needs_the_raw_columns sample_players
                Config.STATS_TO_NORMALIZE
                Config.INTERIOR_ZONES_MADE Config.INTERIOR_ZONES_ATTEMPTED
                Config.EXTERIOR_ZONES_MADE Config.EXTERIOR_ZONES_ATTEMPTED
                Config.MINUTES_NORMALIZATION) as Hplayers.
  pose proof (feature_engineering_needs_the_raw_columns sample_frame
                Config.STATS_TO_NORMALIZE
                Config.INTERIOR_ZONES_MADE Config.INTERIOR_ZONES_ATTEMPTED
                Config.EXTERIOR_ZONES_MADE Config.EXTERIOR_ZONES_ATTEMPTED
                Config.MINUTES_NORMALIZATION) as Hframe.
  cbv zeta in Hplayers, Hframe.
  split.
  - apply (proj1 Hplayers). intros c Hc. revert c Hc. apply Forall_forall.
    by_computation.
  - apply (proj2 (proj2 Hframe)) with (c := "rc_pc_m").
    + intros c Hc. revert c Hc. apply Forall_forall. by_computation.
    + by_computation.
    + reflexivity.
Defined.

Lemma remove_duplicates_witness :
  games <$> DataCleaner.remove_duplicates sample_repeated None
    = Ok [(1, 100); (2, 100); (1, 101)] ∧
  games <$> DataCleaner.remove_duplicates sample_repeated (Some ("player_feb_id", []))
    = Ok [(1, 100); (2, 100)] ∧
  ∃ unknown,
    DataCleaner.remove_duplicates sample_repeated (Some ("player_feb_id", ["season"]))
      = Raise (KeyError unknown).
Proof.
  split; [by_computation|]. split; [by_computation|].
  destruct (proj1 (proj2 (remove_duplicates_keeps_first_of_each_key sample_repeated
                            (Some ("player_feb_id", ["season"]))))
              ltac:(discriminate) "season") as (unknown & Hraise & _).
  - by_computation.
  - by_computation.
  - by exists unknown.
Defined.

Lemma aggregate_raw_stats_witness :
  DataAggregator.aggregate_raw_stats sample_players ["pts"; "ast"]
    = Raise (KeyError "Column(s) ['num_games'] do not exist") ∧
  ∃ out, DataAggregator.aggregate_raw_stats sample_counted ["pts"; "ast"] = Ok out ∧
    map (λ row, (DataAggregator.agg_player_feb_id row,
                 DataAggregator.agg_cell row "num_games",
                 DataAggregator.agg_cell row "pts"))
        (DataAggregator.agg_rows out)
      = [(1, of_Z 3, of_Z 39); (2, of_Z 5, of_Z 60)].
Proof.
  destruct (aggregate_raw_stats_needs_a_num_games_column sample_players ["pts"; "ast"])
    as [Hraise _].
  destruct (aggregate_raw_stats_needs_a_num_games_column sample_counted ["pts"; "ast"])
    as [_ Hsome].
  split; [by apply Hraise|].
  destruct Hsome as (out & Hout & _); [reflexivity|].
  exists out. split; [exact Hout|].
  assert (Hrun :
    (λ out, map (λ row, (DataAggregator.agg_player_feb_id row,
                         DataAggregator.agg_cell row "num_games",
                         DataAggregator.agg_cell row "pts"))
                (DataAggregator.agg_rows out)) <$>
      DataAggregator.aggregate_raw_stats sample_counted ["pts"; "ast"]
    = Ok [(1, of_Z 3, of_Z 39); (2, of_Z 5, of_Z 60)]) by by_computation.
  rewrite Hout in Hrun. by injection Hrun.
Defined.

Arguments Sklearn.fmin : simpl never.
Arguments Sklearn.fmax : simpl never.

Section MinMaxFacts.

Import Sklearn.

Local Open Scope Qc_scope.

Lemma present_are_numbers (xs : list fval) :
  Forall number_or_missing xs →
  ∃ qs, filter (λ x, is_nan x = false) xs = map Fin qs.
Proof.
  induction 1 as [|x xs Hx _ (qs & IH)]; [by exists []|].
  rewrite filter_cons. destruct x as [q| | |]; try done.
  - destruct (decide _); [|done]. exists (q :: qs). simpl. by rewrite IH.
  - destruct (decide _); [done|]. by exists qs.
Qed.

Lemma foldl_fmin_fin (a : Qc) (qs : list Qc) :
  ∃ m, foldl Sklearn.fmin (Fin a) (map Fin qs) = Fin m ∧ m ≤ a ∧
       Forall (λ q, m ≤ q) qs ∧ (m = a ∨ m ∈ qs).
Proof.
  revert a. induction qs as [|q qs IH]; intros a; simpl.
  { exists a. split; [done|]. split; [apply Qcle_refl|]. split; [constructor|by left]. }
  unfold Sklearn.fmin at 2. unfold fgt.
  destruct (bool_decide (q < a)) eqn:Hlt.
  - apply bool_decide_eq_true in Hlt.
    destruct (IH q) as (m & -> & Hmq & Hall & Hin). exists m.
    split; [done|]. split; [by apply Qcle_trans with q, Qclt_le_weak|].
    split; [by constructor|]. right. destruct Hin as [->|?]; [by left|by right].
  - apply bool_decide_eq_false in Hlt. apply Qcnot_lt_le in Hlt.
    destruct (IH a) as (m & -> & Hma & Hall & Hin). exists m.
    split; [done|]. split; [done|].
    split; [constructor; [by apply Qcle_trans with a|done]|].
    destruct Hin as [->|?]; [by left|right; by right].
Qed.

Lemma foldl_fmax_fin (a : Qc) (qs : list Qc) :
  ∃ m, foldl Sklearn.fmax (Fin a) (map Fin qs) = Fin m ∧ a ≤ m ∧
       Forall (λ q, q ≤ m) qs ∧ (m = a ∨ m ∈ qs).
Proof.
  revert a. induction qs as [|q qs IH]; intros a; simpl.
  { exists a. split; [done|]. split; [apply Qcle_refl|]. split; [constructor|by left]. }
  unfold Sklearn.fmax at 2. unfold fgt.
  destruct (bool_decide (a < q)) eqn:Hlt.
  - apply bool_decide_eq_true in Hlt.
    destruct (IH q) as (m & -> & Hmq & Hall & Hin). exists m.
    split; [done|]. split; [by apply Qcle_trans with q; [apply Qclt_le_weak|]|].
    split; [by constructor|]. right. destruct Hin as [->|?]; [by left|by right].
  - apply bool_decide_eq_false in Hlt. apply Qcnot_lt_le in Hlt.
    destruct (IH a) as (m & -> & Hma & Hall & Hin). exists m.
    split; [done|]. split; [done|].
    split; [constructor; [by apply Qcle_trans with a|done]|].
    destruct Hin as [->|?]; [by left|right; by right].
Qed.

(** The smallest and the largest value present in a column that holds
    a number. *)
Lemma column_range (col : list fval) (x : Qc) :
  Forall number_or_missing col → Fin x ∈ col →
  ∃ lo hi, nanfold Sklearn.fmin col = Fin lo ∧ nanfold Sklearn.fmax col = Fin hi ∧
           lo ≤ x ∧ x ≤ hi.
Proof.
  intros Hnum Hx. unfold nanfold.
  destruct (present_are_numbers col Hnum) as (qs & Hqs). rewrite Hqs.
  assert (Hin : x ∈ qs).
  { assert (Fin x ∈ map Fin qs) as Hin.
    { rewrite <- Hqs. by apply list_elem_of_filter. }
    apply elem_of_map in Hin as (y & [= ->] & Hy). done. }
  destruct qs as [|a qs]; [by apply elem_of_nil in Hin|]. simpl.
  destruct (foldl_fmin_fin a qs) as (lo & -> & Hlo & Hlos & _).
  destruct (foldl_fmax_fin a qs) as (hi & -> & Hhi & His & _).
  exists lo, hi. split; [done|]. split; [done|].
  rewrite Forall_forall in Hlos, His.
  apply elem_of_cons in Hin as [->|Hin]; [done|].
  split; [by apply Hlos|by apply His].
Qed.

Lemma Qc_one_nonzero : Q2Qc 1 ≠ Q2Qc 0.
Proof. intros Hone. apply (f_equal this) in Hone. discriminate Hone. Qed.

(** The scaling factor of a column that holds a number: the inverse
    of its range, or 1 when the range is zero. *)
Lemma minmax_scale_of_range (col : list fval) (lo hi : Qc) :
  nanfold Sklearn.fmin col = Fin lo → nanfold Sklearn.fmax col = Fin hi →
  ∃ r, minmax_scale col = Fin (Q2Qc 1 / r) ∧ r ≠ Q2Qc 0 ∧
       (hi - lo ≠ Q2Qc 0 → r = hi - lo) ∧ (hi - lo = Q2Qc 0 → r = Q2Qc 1).
Proof.
  intros Hlo Hhi. unfold minmax_scale. rewrite Hlo, Hhi.
  change (fsub (Fin hi) (Fin lo)) with (Fin (hi - lo)).
  change one with (Fin (Q2Qc 1)).
  unfold is_zero. destruct (qzero (hi - lo)) eqn:Hzero.
  - apply qzero_true in Hzero. exists (Q2Qc 1).
    split; [by rewrite fdiv_fin by apply Qc_one_nonzero|].
    split; [apply Qc_one_nonzero|]. split; [done|done].
  - apply qzero_false in Hzero. exists (hi - lo).
    split; [by rewrite fdiv_fin|]. split; [done|]. split; [done|done].
Qed.

(** One cell through the min-max scaler and back. *)
Lemma minmax_cell_round_trip (col : list fval) (x : fval) :
  Forall number_or_missing col → x ∈ col →
  let s := minmax_scale col in
  let m := fsub zero (fmul (nanfold Sklearn.fmin col) s) in
  is_inf (fadd (fmul x s) m) = false ∧
  fdiv (fsub (fadd (fmul x s) m) m) s = x ∧
  (is_nan x = false → in_unit_interval (fadd (fmul x s) m)).
Proof.
  intros Hnum Hx. cbv zeta.
  pose proof (proj1 (Forall_forall _ _) Hnum x Hx) as Hxnum.
  destruct x as [q| | |]; try done.
  destruct (column_range col q Hnum Hx) as (lo & hi & Hlo & Hhi & Hloq & Hqhi).
  destruct (minmax_scale_of_range col lo hi Hlo Hhi) as (r & -> & Hr & Hrange & Hconst).
  rewrite Hlo.
  change (fadd (fmul (Fin q) (Fin (Q2Qc 1 / r)))
               (fsub zero (fmul (Fin lo) (Fin (Q2Qc 1 / r)))))
    with (Fin (q * (Q2Qc 1 / r) + (Q2Qc 0 - lo * (Q2Qc 1 / r)))).
  change (fsub zero (fmul (Fin lo) (Fin (Q2Qc 1 / r))))
    with (Fin (Q2Qc 0 - lo * (Q2Qc 1 / r))).
  split; [done|]. split.
  - change (fsub (Fin ?a) (Fin ?b)) with (Fin (a - b)).
    rewrite fdiv_fin.
    + f_equal. field. split; [done|apply Qc_one_nonzero].
    + intros Hzero. apply Hr.
      assert (Hinv : Q2Qc 1 / r * r = Q2Qc 1) by (field; done).
      rewrite Hzero in Hinv. rewrite Qcmult_0_l in Hinv.
      by destruct Qc_one_nonzero.
  - intros _. eexists. split; [reflexivity|].
    replace (q * (Q2Qc 1 / r) + (Q2Qc 0 - lo * (Q2Qc 1 / r)))
      with ((q - lo) / r) by (field; done).
    destruct (decide (hi - lo = Q2Qc 0)) as [Hsame|Hdiff].
    + assert (q = lo) as ->.
      { apply Qcle_antisym; [|done].
        replace lo with hi by (rewrite <- (Qcplus_0_l lo), <- Hsame; ring). done. }
      replace ((lo - lo) / r) with (Q2Qc 0) by (field; done). done.
    + rewrite (Hrange Hdiff).
      assert (Hpos : Q2Qc 0 < hi - lo).
      { assert (Hle : Q2Qc 0 ≤ hi - lo).
        { rewrite <- (Qcplus_opp_r lo). apply Qcplus_le_mono_r.
          by apply Qcle_trans with q. }
        apply Qcle_lt_or_eq in Hle as [?|Heq]; [done|]. by destruct Hdiff. }
      split.
      * apply Qc_div_nonneg; [|done].
        rewrite <- (Qcplus_opp_r lo). by apply Qcplus_le_mono_r.
      * unfold Qcdiv.
        replace (Q2Qc 1) with ((hi - lo) * / (hi - lo))
          by (apply Qcmult_inv_r; by apply Qc_pos_nonzero).
        apply Qcmult_le_compat_r; [by apply Qcplus_le_mono_r|].
        by apply Qclt_le_weak, Qcinv_pos.
Qed.

End MinMaxFacts.

Section MinMaxRoundTrip.

Import Sklearn.

Lemma minmax_row_round_trip (X : Table) (row : list fval) :
  no_infinity (tdata X) → row ∈ tdata X → length row = length (tcolumns X) →
  Forall (λ y, is_inf y = false) (minmax_apply (minmax_fit X) row) ∧
  minmax_invert (minmax_fit X) (minmax_apply (minmax_fit X) row) = row.
Proof.
  intros Hno Hrow Hlen. unfold minmax_apply, minmax_invert, minmax_fit.
  cbv zeta. simpl fst. simpl snd. rewrite zip_map_map, map_map.
  apply (zip_with_round_trip
           (λ x ms, fadd (fmul x (snd ms)) (fst ms))
           (λ x ms, fdiv (fsub x (fst ms)) (snd ms))).
  - by rewrite length_map, length_seq.
  - intros j x p Hx Hp. rewrite lookup_map in Hp.
    destruct (seq 0 (length (tcolumns X)) !! j) as [k|] eqn:Hk; [|done].
    apply lookup_seq in Hk as [-> _]. simpl in Hp. injection Hp as <-.
    simpl fst. simpl snd.
    destruct (minmax_cell_round_trip (column_values (tdata X) j) x)
      as (Hinf & Hback & Hunit).
    + by apply column_values_numbers.
    + by apply (column_values_elem _ row).
    + done.
Qed.



Lemma minmax_table_round_trip (X : Table) :
  check_array X = Ok tt → rectangular X →
  no_infinity (map (minmax_apply (minmax_fit X)) (tdata X)) ∧
  map (minmax_invert (minmax_fit X))
      (map (minmax_apply (minmax_fit X)) (tdata X)) = tdata X.
Proof.
  intros Hcheck Hrect. apply check_array_ok in Hcheck as (Hno & _ & _).
  unfold rectangular in Hrect. rewrite Forall_forall in Hrect.
  split.
  - apply Forall_forall. intros scaled Hscaled.
    apply elem_of_map in Hscaled as (row & -> & Hrow).
    by destruct (minmax_row_round_trip X row Hno Hrow (Hrect row Hrow)) as [Hall _].
  - rewrite map_map. rewrite <- (map_id (tdata X)) at 2.
    apply map_ext_elem_of. intros row Hrow.
    by apply minmax_row_round_trip; [| |apply Hrect].
Qed.

(** What [fit_transform] returns in min-max mode. *)
Lemma minmax_fit_transform_inv (sqrt_fn : Qc → Qc) (self self' : DataScaler.t)
    (fitted : option _) (X scaled clean : Table) (handle_infinity : bool)
    (fill_na : fval) :
  DataScaler.scaler self = MinMaxScaler fitted →
  DataScaler.fit_transform sqrt_fn self X handle_infinity fill_na =
    Ok (self', (scaled, clean)) →
  clean = DataScaler.clean_table X handle_infinity fill_na ∧
  check_array clean = Ok tt ∧
  DataScaler.scaler self' = MinMaxScaler (Some (minmax_fit clean)) ∧
  scaled = mkTable (tcolumns clean) (map (minmax_apply (minmax_fit clean)) (tdata clean)).
Proof.
  intros Hmode. unfold DataScaler.fit_transform, Sklearn.fit_transform.
  rewrite Hmode.
  generalize (DataScaler.clean_table X handle_infinity fill_na). intros cleaned.
  destruct (check_array cleaned) as [[]|] eqn:Hcheck; [|done].
  unfold mbind, result_bind. cbv beta iota zeta. by intros [= <- <- <-].
Qed.

(** In min-max mode, whenever [fit_transform] returns a scaled and a
    clean table, [inverse_transform] on the scaled table returns the
    clean table. *)
Lemma minmax_round_trip_when_fitted
    (sqrt_fn : Qc → Qc) (self self' : DataScaler.t) (fitted : option _)
    (X scaled clean : Table) (handle_infinity : bool) (fill_na : fval) :
  DataScaler.scaler self = MinMaxScaler fitted →
  rectangular X →
  DataScaler.fit_transform sqrt_fn self X handle_infinity fill_na =
    Ok (self', (scaled, clean)) →
  DataScaler.inverse_transform self' scaled = Ok clean.
Proof.
  intros Hmode Hrect Hfit.
  destruct (minmax_fit_transform_inv _ _ _ _ _ _ _ _ _ Hmode Hfit)
    as (-> & Hcheck & Hest & ->).
  pose proof (clean_table_rectangular X handle_infinity fill_na Hrect) as Hclean.
  revert Hcheck Hest Hclean.
  generalize (DataScaler.clean_table X handle_infinity fill_na).
  intros cleaned Hcheck Hest Hclean.
  destruct (minmax_table_round_trip cleaned Hcheck Hclean) as (Hno & Hinv).
  apply check_array_ok in Hcheck as (_ & Hrows & Hcols).
  unfold DataScaler.inverse_transform, Sklearn.inverse_transform.
  rewrite Hest. cbn [fitted_params]. unfold mbind, result_bind. cbv beta iota.
  assert (Hscaled : check_array
            (mkTable (tcolumns cleaned)
               (map (minmax_apply (minmax_fit cleaned)) (tdata cleaned))) = Ok tt).
  { apply check_array_ok. cbn [tdata tcolumns]. split; [done|]. split; [|done].
    by destruct (tdata cleaned). }
  rewrite Hscaled. unfold check_n_features. cbn [tcolumns tdata].
  rewrite bool_decide_eq_true_2 by (by rewrite minmax_fit_length).
  rewrite Hinv. by destruct cleaned.
Qed.

(** X18.  In min-max mode too, [inverse_transform] applied to the
    scaled table that [fit_transform] returns gives back the clean
    table, cell for cell; and [fit_transform] does return both tables
    on every table with at least one row and one column once
    infinities are handled and the fill value is finite. *)
Theorem minmax_inverse_transform_reconstructs_clean_table
    (sqrt_fn : Qc → Qc) (self : DataScaler.t) (fitted : option _)
    (X : Table) (handle_infinity : bool) (fill_na : fval) :
  DataScaler.scaler self = MinMaxScaler fitted →
  rectangular X →
  (∀ self' scaled clean,
     DataScaler.fit_transform sqrt_fn self X handle_infinity fill_na =
       Ok (self', (scaled, clean)) →
     DataScaler.inverse_transform self' scaled = Ok clean) ∧
  (tdata X ≠ [] → tcolumns X ≠ [] → is_finite fill_na = true →
   ∃ self' scaled,
     DataScaler.fit_transform sqrt_fn self X true fill_na =
       Ok (self', (scaled, DataScaler.clean_table X true fill_na)) ∧
     DataScaler.inverse_transform self' scaled =
       Ok (DataScaler.clean_table X true fill_na)).
Proof.
  intros Hmode Hrect. split.
  - intros self' scaled clean. by apply minmax_round_trip_when_fitted with fitted.
  - intros Hrows Hcols Hfill.
    destruct (fit_transform_accepted sqrt_fn self X true fill_na)
      as (est & scaled_data & _ & _ & Hfit); [by apply clean_table_accepted|].
    eexists. eexists. split; [exact Hfit|].
    by apply (minmax_round_trip_when_fitted sqrt_fn self _ fitted X _ _ true fill_na).
Qed.



End MinMaxRoundTrip.

(** ** The tables [transform] returns *)

Section TransformOutputs.

Import Sklearn DataAggregator ETLPipeline.

Variable sqrt_fn : Qc → Qc.

(** The stages of a run of [transform] that returns. *)
Lemma transform_stages cfg scaler df df_teams scaler' out :
  transform sqrt_fn cfg scaler df df_teams = Ok (scaler', out) →
  ∃ enr features,
    enriched cfg df df_teams = Ok enr ∧
    aggregate_by_player enr (features_to_aggregate cfg enr) true =
      Ok (aggregated_table out) ∧
    select_features (aggregated_table out) (clustering_features cfg enr) =
      Ok features ∧
    DataScaler.fit_transform sqrt_fn scaler features
      (handle_infinity cfg) (fill_na_value cfg) =
      Ok (scaler', (features_scaled out, features_raw out)) ∧
    player_info out =
      map (λ r, (agg_player_feb_id r, agg_player_name r))
          (agg_rows (aggregated_table out)).
Proof.
  unfold transform, mbind, result_bind.
  destruct (enriched cfg df df_teams) as [enr|]; [|done].
  destruct (aggregate_by_player enr (features_to_aggregate cfg enr) true)
    as [agg|] eqn:Hagg; [|done].
  destruct (select_features agg (clustering_features cfg enr)) as [features|] eqn:Hsel;
    [|done].
  destruct (DataScaler.fit_transform sqrt_fn scaler features
              (handle_infinity cfg) (fill_na_value cfg))
    as [[fitted [scaled clean]]|] eqn:Hfit; [|done].
  intros [= <- <-]. exists enr, features. by cbn.
Qed.

Lemma check_labels_ok agg labels :
  check_labels agg labels = Ok tt ↔ Forall (λ c, c ∈ agg_columns agg) labels.
Proof.
  induction labels as [|c labels IH]; simpl; [done|].
  rewrite Forall_cons. destruct (decide (c ∈ agg_columns agg)) as [Hin|Hnot].
  - rewrite bool_decide_eq_true_2 by done. rewrite IH. tauto.
  - rewrite bool_decide_eq_false_2 by done. split; [done|]. by intros [? _].
Qed.

Lemma select_features_inv agg labels X :
  select_features agg labels = Ok X →
  X = mkTable labels (map (λ r, map (agg_cell r) labels) (agg_rows agg)) ∧
  Forall (λ c, c ∈ agg_columns agg) labels.
Proof.
  unfold select_features, mbind, result_bind.
  destruct (check_labels agg labels) as [[]|] eqn:Hcheck; [|done].
  intros [= <-]. split; [done|]. by apply check_labels_ok.
Qed.

Lemma select_features_rectangular agg labels X :
  select_features agg labels = Ok X → rectangular X.
Proof.
  intros [-> _]%select_features_inv. unfold rectangular. cbn [tdata tcolumns].
  apply Forall_forall. intros row (r & -> & _)%elem_of_map. by rewrite length_map.
Qed.

Lemma length_zip_with_params {A B C} (f : A → B * C → A) (row : list A)
    (ms : list B) (ss : list C) :
  length ms = length row → length ss = length row →
  length (zip_with f row (zip ms ss)) = length row.
Proof.
  intros Hms Hss. rewrite length_zip_with, length_zip. lia.
Qed.

(** What [fit_transform] returns, in either mode. *)
Lemma fit_transform_inv (self self' : DataScaler.t) (X scaled clean : Table)
    (h : bool) (fill : fval) :
  DataScaler.fit_transform sqrt_fn self X h fill = Ok (self', (scaled, clean)) →
  clean = DataScaler.clean_table X h fill ∧
  check_array clean = Ok tt ∧
  tcolumns scaled = tcolumns X ∧
  length (tdata scaled) = length (tdata X) ∧
  (rectangular X → rectangular scaled).
Proof.
  unfold DataScaler.fit_transform, Sklearn.fit_transform.
  pose proof (clean_table_columns X h fill) as Hcols.
  assert (Hlen : length (tdata (DataScaler.clean_table X h fill)) = length (tdata X))
    by (by rewrite clean_table_cells, length_map).
  pose proof (clean_table_rectangular X h fill) as Hrect.
  revert Hcols Hlen Hrect. generalize (DataScaler.clean_table X h fill).
  intros cleaned Hcols Hlen Hrect.
  destruct (check_array cleaned) as [[]|] eqn:Hcheck; [|done].
  unfold mbind, result_bind. cbv beta iota.
  assert (Hshape : ∀ (f : fval → fval * fval → fval) ms ss,
            length ms = length (tcolumns cleaned) →
            length ss = length (tcolumns cleaned) →
            rectangular X →
            rectangular
              (mkTable (tcolumns cleaned)
                 (map (λ row, zip_with f row (zip ms ss)) (tdata cleaned)))).
  { intros f ms ss Hms Hss Hclean%Hrect.
    unfold rectangular in *. rewrite Forall_forall in Hclean.
    apply Forall_forall. intros out (row & -> & Hrow)%elem_of_map.
    specialize (Hclean row Hrow). change (length row = length (tcolumns cleaned)) in Hclean.
    change (length (zip_with f row (zip ms ss)) = length (tcolumns cleaned)).
    rewrite length_zip_with_params; congruence. }
  destruct (DataScaler.scaler self); cbv beta iota zeta; intros [= <- <- <-];
    (split; [done|]); (split; [done|]);
    (split; [exact Hcols|]);
    (split; [cbv [tdata]; by rewrite length_map|]).
  - apply Hshape; unfold standard_fit; cbn [fst snd];
      by rewrite !length_map, length_seq.
  - apply Hshape; unfold minmax_fit; cbn [fst snd];
      by rewrite !length_map, length_seq.
Qed.

Lemma df_final_scaled_aligned (out : Outputs) :
  length (tdata (features_scaled out)) = length (player_info out) →
  df_final_scaled out =
    zip (map Some (player_info out)) (tdata (features_scaled out)).
Proof.
  unfold df_final_scaled. cbv zeta.
  generalize (length (tcolumns (features_scaled out))).
  generalize (tdata (features_scaled out)) (player_info out).
  intros data info n Hlen. rewrite Hlen, Nat.max_id.
  apply list_eq. intros i.
  rewrite lookup_map, lookup_zip_with, lookup_map.
  destruct (decide (i < length info)%nat) as [Hlt|Hge].
  - rewrite lookup_seq_lt by done. cbn.
    destruct (lookup_lt_is_Some_2 info i Hlt) as [p Hp].
    destruct (lookup_lt_is_Some_2 data i ltac:(lia)) as [row Hrow].
    by rewrite Hp, Hrow.
  - rewrite lookup_seq_ge by lia.
    by rewrite (lookup_ge_None_2 info i) by lia.
Qed.

(** X20.  The tables of a run of [transform] that returns describe the
    same players in the same order: there is at least one player; the
    raw and the scaled feature table have one row per row of the
    aggregated table and the same column labels, one cell per label;
    row by row, [player_info] holds the id and the name and the raw
    feature table the aggregated values under these labels, cleaned;
    and [load] pairs each player with the scaled row of the same
    position, without padding. *)
Theorem transform_outputs_describe_the_same_players
    cfg scaler df df_teams scaler' out :
  transform sqrt_fn cfg scaler df df_teams = Ok (scaler', out) →
  let players := agg_rows (aggregated_table out) in
  let labels := tcolumns (features_raw out) in
  players ≠ [] ∧ labels ≠ [] ∧
  player_info out = map (λ r, (agg_player_feb_id r, agg_player_name r)) players ∧
  tdata (features_raw out) =
    map (λ r, map (λ c, DataScaler.fillna (fill_na_value cfg)
                          (if handle_infinity cfg
                           then DataScaler.replace_inf (agg_cell r c)
                           else agg_cell r c)) labels) players ∧
  tcolumns (features_scaled out) = labels ∧
  length (tdata (features_scaled out)) = length players ∧
  rectangular (features_scaled out) ∧
  df_final_scaled out =
    zip (map Some (player_info out)) (tdata (features_scaled out)).
Proof.
  intros Hrun players labels.
  destruct (transform_stages _ _ _ _ _ _ Hrun)
    as (enr & features & _ & _ & Hsel & Hfit & Hinfo).
  pose proof (select_features_rectangular _ _ _ Hsel) as Hrect.
  apply select_features_inv in Hsel as [Hfeatures _].
  destruct (fit_transform_inv _ _ _ _ _ _ _ Hfit)
    as (Hclean & Hcheck & Hcols & Hlen & Hscaled).
  assert (Hlabels : labels = clustering_features cfg enr).
  { unfold labels. by rewrite Hclean, clean_table_columns, Hfeatures. }
  assert (Hrows : length (tdata (features_scaled out)) = length players).
  { by rewrite Hlen, Hfeatures; cbn [tdata]; rewrite length_map. }
  apply check_array_ok in Hcheck as (_ & Hsome & Hwide).
  split.
  { intros Hnone. apply Hsome. rewrite Hclean, clean_table_cells, Hfeatures.
    cbn [tdata]. fold players. by rewrite Hnone. }
  split; [exact Hwide|].
  split; [exact Hinfo|].
  split.
  { rewrite Hlabels. rewrite Hclean, clean_table_cells, Hfeatures. cbn [tdata].
    rewrite map_map. apply map_ext. intros r. by rewrite map_map. }
  split; [by rewrite Hcols, Hlabels, Hfeatures|].
  split; [exact Hrows|].
  split; [by apply Hscaled|].
  apply df_final_scaled_aligned. by rewrite Hrows, Hinfo, length_map.
Qed.

Hypothesis sqrt_nonzero : ∀ v, (Q2Qc 0 < v)%Qc → sqrt_fn v ≠ Q2Qc 0.

(** X21.  The scaler that [transform] returns undoes the scaling of
    the run: its [inverse_transform] on the scaled feature table gives
    the raw feature table back, whichever of the two modes the
    pipeline's scaler is in. *)
Theorem returned_scaler_inverts_the_scaled_features
    cfg scaler df df_teams scaler' out :
  transform sqrt_fn cfg scaler df df_teams = Ok (scaler', out) →
  DataScaler.inverse_transform scaler' (features_scaled out) =
    Ok (features_raw out).
Proof.
  intros Hrun.
  destruct (transform_stages _ _ _ _ _ _ Hrun)
    as (enr & features & _ & _ & Hsel & Hfit & _).
  pose proof (select_features_rectangular _ _ _ Hsel) as Hrect.
  destruct (DataScaler.scaler scaler) as [fitted|fitted] eqn:Hmode.
  - by apply (standard_round_trip_when_fitted sqrt_fn scaler scaler' fitted
                features _ _ (handle_infinity cfg) (fill_na_value cfg)).
  - by apply (minmax_round_trip_when_fitted sqrt_fn scaler scaler' fitted
                features _ _ (handle_infinity cfg) (fill_na_value cfg)).
Qed.

End TransformOutputs.

(** ** The defensive rating among the scaled features *)

Section DerAmongFeatures.

Import Sklearn DataAggregator ETLPipeline FeatureEngineer.

(** One step of feature engineering that returns: the two opponent
    columns are still there. *)
Ltac advance lem :=
  match goal with
  | Hrun : match ?m with _ => _ end = _ |- _ =>
      let d := fresh "d" in
      let H := fresh "Hstep" in
      let Hk := fresh "Hkeep" in
      destruct m as [d|] eqn:H; [|discriminate Hrun];
      destruct (lem _ _ H) as (Hk & _);
      match goal with
      | Hposs : has_column _ "opponent_possessions" = true,
        Hpts : has_column _ "opponent_pts" = true |- _ =>
          apply Hk in Hposs; apply Hk in Hpts
      end;
      clear Hk H
  end.

Lemma der_after_engineering stats im ia em ea target df out :
  apply_all_transformations df stats im ia em ea target = Ok out →
  has_column df "opponent_possessions" = true →
  has_column df "opponent_pts" = true →
  has_column out "opponent_possessions" = true ∧
  has_column out "opponent_pts" = true ∧
  has_column out "der" = true.
Proof.
  intros Hrun Hposs Hpts.
  destruct (apply_all_transformations_writes stats im ia em ea target df out Hrun)
    as (Hkeep & _).
  split; [by apply Hkeep|]. split; [by apply Hkeep|]. clear Hkeep.
  unfold apply_all_transformations, mbind, result_bind in Hrun.
  advance convert_seconds_to_minutes_writes.
  advance (normalize_per_minutes_writes stats target).
  advance calculate_shooting_percentages_writes.
  advance calculate_usage_rates_writes.
  advance (calculate_zone_stats_writes "interior_pct" "interior_freq" im ia).
  destruct (nonempty em && nonempty ea).
  - advance (calculate_zone_stats_writes "exterior_pct" "exterior_freq" em ea).
    advance calculate_possessions_writes.
    advance calculate_oer_writes.
    advance calculate_true_shooting_pct_writes.
    rewrite Hposs, Hpts in Hrun. unfold calculate_der, column in Hrun.
    rewrite Hposs, Hpts in Hrun. cbn in Hrun. injection Hrun as <-.
    rewrite has_column_assign, bool_decide_eq_true_2 by done. apply orb_true_r.
  - advance calculate_possessions_writes.
    advance calculate_oer_writes.
    advance calculate_true_shooting_pct_writes.
    rewrite Hposs, Hpts in Hrun. unfold calculate_der, column in Hrun.
    rewrite Hposs, Hpts in Hrun. cbn in Hrun. injection Hrun as <-.
    rewrite has_column_assign, bool_decide_eq_true_2 by done. apply orb_true_r.
Qed.

Lemma merged_has_opponent_columns df links merged :
  merge_opponents df links = Ok merged →
  has_column merged "opponent_possessions" = true ∧
  has_column merged "opponent_pts" = true.
Proof.
  unfold merge_opponents. destruct links as [|l links]; [done|].
  intros [= <-]. unfold has_column. cbn [columns].
  split; apply bool_decide_eq_true; rewrite !elem_of_add_label; auto.
Qed.

Lemma enriched_has_der cfg df df_teams enr :
  enriched cfg df df_teams = Ok enr →
  has_column enr "opponent_possessions" = true ∧
  has_column enr "opponent_pts" = true ∧
  has_column enr "der" = true.
Proof.
  intros Henr.
  destruct (enriched_stages _ _ _ _ Henr) as (links & merged & _ & Hmerged & Hfe).
  destruct (merged_has_opponent_columns _ _ _ Hmerged) as [Hposs Hpts].
  by apply (der_after_engineering _ _ _ _ _ _ _ _ Hfe).
Qed.

Variable sqrt_fn : Qc → Qc.

(** X22.  Whenever [transform] returns, the defensive rating is among
    the scaled features: the raw and the scaled feature table have
    exactly the configured clustering features as columns, in the
    configured order, with [der] appended when it is not configured;
    all of them are columns of the aggregated table.  The branch that
    removes [der] from the list takes no part in a run that returns
    (the player-game table carrying no opponent column of its own). *)
Theorem der_is_always_among_the_scaled_features
    cfg scaler df df_teams scaler' out :
  has_column df "opponent_possessions" = false →
  has_column df "opponent_pts" = false →
  transform sqrt_fn cfg scaler df df_teams = Ok (scaler', out) →
  let features := features_for_clustering cfg in
  let scaled_labels :=
    if bool_decide ("der" ∈ features) then features else features ++ ["der"] in
  tcolumns (features_scaled out) = scaled_labels ∧
  tcolumns (features_raw out) = scaled_labels ∧
  "der" ∈ scaled_labels ∧
  Forall (λ c, c ∈ agg_columns (aggregated_table out)) scaled_labels.
Proof.
  intros _ _ Hrun features scaled_labels.
  destruct (transform_stages _ _ _ _ _ _ _ Hrun)
    as (enr & selected & Henr & _ & Hsel & Hfit & _).
  destruct (enriched_has_der _ _ _ _ Henr) as (Hposs & Hpts & Hder).
  assert (Hlabels : clustering_features cfg enr = scaled_labels).
  { unfold clustering_features. by rewrite Hposs, Hpts, Hder. }
  rewrite Hlabels in Hsel.
  apply select_features_inv in Hsel as [-> Hcolumns].
  destruct (fit_transform_inv _ _ _ _ _ _ _ _ Hfit) as (Hclean & _ & Hcols & _).
  split; [exact Hcols|].
  split; [by rewrite Hclean, clean_table_columns|].
  split; [|exact Hcolumns].
  unfold scaled_labels. destruct (decide ("der" ∈ features)) as [Hin|Hnot].
  - by rewrite bool_decide_eq_true_2.
  - rewrite bool_decide_eq_false_2 by done. apply elem_of_app. right. by left.
Qed.

End DerAmongFeatures.

(** ** The games-played filter, twice *)

Section FilterTwice.

Import DataCleaner.

Lemma games_of_filtered df (k p : Z) :
  (k ≤ games_played df p)%Z →
  games_of (filter_by_games_played df k) p = games_of df p.
Proof.
  intros Hle. unfold games_of. rewrite filter_by_games_played_rows.
  rewrite list_filter_filter. apply filter_ext_elem_of.
  intros r _. split; [by intros [? _]|]. intros Hp. split; [done|]. by rewrite Hp.
Qed.

(** X23.  Filtering by games played keeps every game of the players it
    keeps, so their number of games is unchanged; filtering a second
    time amounts to filtering once with the larger of the two
    thresholds, and filtering twice with the same threshold changes
    nothing more. *)
Theorem filter_by_games_played_twice (df : DataFrame) (k k' : Z) :
  (∀ p, (k ≤ games_played df p)%Z →
        games_played (filter_by_games_played df k) p = games_played df p) ∧
  filter_by_games_played (filter_by_games_played df k) k' =
    filter_by_games_played df (Z.max k k') ∧
  filter_by_games_played (filter_by_games_played df k) k =
    filter_by_games_played df k.
Proof.
  assert (Hcount : ∀ p, (k ≤ games_played df p)%Z →
            games_played (filter_by_games_played df k) p = games_played df p).
  { intros p Hp. unfold games_played. by rewrite games_of_filtered. }
  assert (Htwice : ∀ j, filter_by_games_played (filter_by_games_played df k) j =
                        filter_by_games_played df (Z.max k j)).
  { intros j.
    assert (Hframe : ∀ a b : DataFrame,
              columns a = columns b → rows a = rows b → a = b).
    { intros [] []. simpl. by intros -> ->. }
    apply Hframe; [done|].
    rewrite !filter_by_games_played_rows, list_filter_filter.
    apply filter_ext_elem_of. intros r _. split.
    - intros [Hj Hk]. rewrite Hcount in Hj by done. lia.
    - intros Hmax. split; [|lia]. rewrite Hcount by lia. lia. }
  split; [exact Hcount|]. split; [apply Htwice|].
  by rewrite Htwice, Z.max_id.
Qed.

End FilterTwice.

(** ** Sample runs of the min-max scaler and of the whole transformation *)

Example sample_features_minmax_scaled :
  scaled_cells (DataScaler.fit_transform heron_sqrt minmax_scaler
                  sample_features true (of_Z 0)) =
    Ok [[of_Z 1; of_Z 0]; [of_Z 0; of_Z 0]; [Fin (qc 1 2); of_Z 1]].
Proof. by_computation. Qed.

Lemma minmax_round_trip_witness :
  ∃ self' scaled,
    DataScaler.fit_transform heron_sqrt minmax_scaler sample_features true (of_Z 0)
      = Ok (self', (scaled, DataScaler.clean_table sample_features true (of_Z 0))) ∧
    DataScaler.inverse_transform self' scaled =
      Ok (DataScaler.clean_table sample_features true (of_Z 0)).
Proof.
  apply (minmax_inverse_transform_reconstructs_clean_table
           heron_sqrt minmax_scaler None sample_features true (of_Z 0) eq_refl).
  - by_computation.
  - discriminate.
  - discriminate.
  - reflexivity.
Defined.


Lemma transform_outputs_witness :
  ∃ scaler' out,
    ETLPipeline.transform heron_sqrt sample_settings standard_scaler
      sample_players sample_teams = Ok (scaler', out) ∧
    ETLPipeline.player_info out =
      map (λ r, (DataAggregator.agg_player_feb_id r, DataAggregator.agg_player_name r))
          (DataAggregator.agg_rows (ETLPipeline.aggregated_table out)) ∧
    ETLPipeline.df_final_scaled out =
      zip (map Some (ETLPipeline.player_info out))
          (Sklearn.tdata (ETLPipeline.features_scaled out)).
Proof.
  assert (Hok : is_ok (ETLPipeline.transform heron_sqrt sample_settings standard_scaler
                          sample_players sample_teams) = true)
    by (vm_compute; reflexivity).
  destruct (ETLPipeline.transform heron_sqrt sample_settings standard_scaler
              sample_players sample_teams) as [[scaler' out]|e] eqn:Hrun;
    [|discriminate Hok].
  exists scaler', out. split; [reflexivity|].
  destruct (transform_outputs_describe_the_same_players heron_sqrt
                sample_settings standard_scaler sample_players sample_teams
                scaler' out Hrun)
      as (_ & _ & Hinfo & _ & _ & _ & _ & Hfinal).
  split; [exact Hinfo|exact Hfinal].
Defined.

Lemma returned_scaler_witness :
  ∃ scaler' out,
    ETLPipeline.transform heron_sqrt sample_settings minmax_scaler
      sample_players sample_teams = Ok (scaler', out) ∧
    DataScaler.inverse_transform scaler' (ETLPipeline.features_scaled out) =
      Ok (ETLPipeline.features_raw out).
Proof.
  assert (Hok : is_ok (ETLPipeline.transform heron_sqrt sample_settings minmax_scaler
                          sample_players sample_teams) = true)
    by (vm_compute; reflexivity).
  destruct (ETLPipeline.transform heron_sqrt sample_settings minmax_scaler
              sample_players sample_teams) as [[scaler' out]|e] eqn:Hrun;
    [|discriminate Hok].
  exists scaler', out. split; [reflexivity|].
  exact (returned_scaler_inverts_the_scaled_features heron_sqrt
             heron_sqrt_nonzero sample_settings minmax_scaler
             sample_players sample_teams scaler' out Hrun).
Defined.

Lemma der_among_features_witness :
  ∃ scaler' out,
    ETLPipeline.transform heron_sqrt sample_settings standard_scaler
      sample_players sample_teams = Ok (scaler', out) ∧
    Sklearn.tcolumns (ETLPipeline.features_scaled out) =
      Config.FEATURES_FOR_CLUSTERING ∧
    "der" ∈ Config.FEATURES_FOR_CLUSTERING.
Proof.
  assert (Hok : is_ok (ETLPipeline.transform heron_sqrt sample_settings standard_scaler
                          sample_players sample_teams) = true)
    by (vm_compute; reflexivity).
  destruct (ETLPipeline.transform heron_sqrt sample_settings standard_scaler
              sample_players sample_teams) as [[scaler' out]|e] eqn:Hrun;
    [|discriminate Hok].
  exists scaler', out. split; [reflexivity|].
  destruct (der_is_always_among_the_scaled_features heron_sqrt
                sample_settings standard_scaler sample_players sample_teams
                scaler' out eq_refl eq_refl Hrun)
      as (Hscaled & _ & Hder & _).
  split; [exact Hscaled|exact Hder].
Defined.
